(** * dnsaq: the concurrent resolution engine of [main.go]

    A shallow embedding of [main.go]: the resolver-list loader, the
    failover lookup [Resolve], the wildcard detector, the resolution
    worker [ProcessDomain], the two dispatch loops and [main], followed by
    the properties the specification states about them.  The
    goroutines are modelled by step relations: [step] for the loop, its
    workers and the consumer, [pstep] for the whole process up to its
    exit, and [tstep] for the loop in time.

    Go strings are byte strings, and so are Rocq's; the functions of Go's
    [strings], [net] and [fmt] packages that [main.go] calls are written
    out in module [GoLib].  The DNS client, the clock, the process id and
    the file system are an environment ([Env]) that every definition takes
    as an argument and every theorem quantifies over. *)

From Stdlib Require Import ZArith Lia.
From stdpp Require Import gmap strings list fin_maps pretty.

Local Open Scope Z_scope.

(* ===================================================================== *)
(** * Go library functions used by [main.go] *)
(* ===================================================================== *)

Module GoLib.

Definition bytes (l : list nat) : string :=
  foldr (λ n s, String (Ascii.ascii_of_nat n) s) "" l.

(** [strings.HasPrefix s prefix]. *)
Fixpoint HasPrefix (s prefix : string) : bool :=
  match prefix, s with
  | EmptyString, _ => true
  | String p prefix', String c s' =>
      if decide (p = c) then HasPrefix s' prefix' else false
  | String _ _, EmptyString => false
  end.

(** [strings.Contains s substr]. *)
Fixpoint Contains (s substr : string) : bool :=
  HasPrefix s substr ||
  match s with
  | EmptyString => false
  | String _ s' => Contains s' substr
  end.

(** The UTF-8 encodings of the runes for which [unicode.IsSpace] holds:
    the six ASCII ones, U+0085, U+00A0, U+1680, U+2000..U+200A, U+2028,
    U+2029, U+202F, U+205F and U+3000. *)
Definition spaceRunes : list string :=
  [ bytes [9%nat]; bytes [10%nat]; bytes [11%nat]; bytes [12%nat];
    bytes [13%nat]; bytes [32%nat];
    bytes [194; 133]%nat; bytes [194; 160]%nat; bytes [225; 154; 128]%nat;
    bytes [226; 128; 128]%nat; bytes [226; 128; 129]%nat;
    bytes [226; 128; 130]%nat; bytes [226; 128; 131]%nat;
    bytes [226; 128; 132]%nat; bytes [226; 128; 133]%nat;
    bytes [226; 128; 134]%nat; bytes [226; 128; 135]%nat;
    bytes [226; 128; 136]%nat; bytes [226; 128; 137]%nat;
    bytes [226; 128; 138]%nat; bytes [226; 128; 168]%nat;
    bytes [226; 128; 169]%nat; bytes [226; 128; 175]%nat;
    bytes [226; 129; 159]%nat; bytes [227; 128; 128]%nat ].

Fixpoint drop_bytes (n : nat) (s : string) : string :=
  match n, s with
  | S n', String _ s' => drop_bytes n' s'
  | _, _ => s
  end.

(** Byte length of the white-space rune [s] starts with, [0] if it
    starts with none. *)
Definition leadingSpace (runes : list string) (s : string) : nat :=
  match List.find (HasPrefix s) runes with
  | Some r => String.length r
  | None => 0%nat
  end.

Fixpoint trimLeft (runes : list string) (fuel : nat) (s : string) : string :=
  match fuel with
  | O => s
  | S fuel' =>
      match leadingSpace runes s with
      | O => s
      | n => trimLeft runes fuel' (drop_bytes n s)
      end
  end.

(** [strings.TrimSpace s]: all leading and trailing white space, as
    [unicode.IsSpace] defines it, removed.  The trailing runes are
    found on the reversed string. *)
Definition TrimSpace (s : string) : string :=
  let l := trimLeft spaceRunes (String.length s) s in
  String.rev
    (trimLeft (String.rev <$> spaceRunes) (String.length l) (String.rev l)).

(** [strings.Split s sep] for a non-empty separator ([main.go] passes
    "." and ","). [cur] is the current field, reversed; [skip] counts
    the bytes of a matched separator still to be passed over. *)
Fixpoint Split_go (sep : string) (skip : nat) (cur : string) (s : string)
  : list string :=
  match s with
  | EmptyString => [String.rev cur]
  | String c s' =>
      match skip with
      | S k => Split_go sep k cur s'
      | O =>
          if HasPrefix s sep
          then String.rev cur :: Split_go sep (String.length sep - 1) "" s'
          else Split_go sep 0 (String c cur) s'
      end
  end.

Definition Split (s sep : string) : list string := Split_go sep 0 "" s.

(** [strings.Join elems sep]. *)
Fixpoint Join (elems : list string) (sep : string) : string :=
  match elems with
  | [] => ""
  | [e] => e
  | e :: rest => e +:+ sep +:+ Join rest sep
  end.

(** [net.JoinHostPort host port]. *)
Definition JoinHostPort (host port : string) : string :=
  if Contains host ":" then "[" +:+ host +:+ "]:" +:+ port
  else host +:+ ":" +:+ port.

(** [%d] and [%v] of an integer. *)
Definition fmt_int (z : Z) : string := pretty z.

(** [%v] of a [[]string]. *)
Definition fmt_strings (l : list string) : string :=
  "[" +:+ Join l " " +:+ "]".

(** [int64] wrap-around, for [time.Duration] arithmetic. *)
Definition wrap64 (z : Z) : Z :=
  (z + 2 ^ 63) `mod` 2 ^ 64 - 2 ^ 63.

End GoLib.

Import GoLib.

(* ===================================================================== *)
(** * Data model *)
(* ===================================================================== *)

(** [DNSConfig]; [Timeout] is a [time.Duration], in nanoseconds. *)
Record DNSConfig := {
  Resolvers : list string;
  RateLimit : Z;
  Timeout : Z;
  WildcardCheck : bool;
  Verbose : bool;
  OutputFile : string
}.

(** The parts of [github.com/miekg/dns] that [main.go] touches. *)
Module dns.

Definition TypeA : Z := 1.
Definition RcodeSuccess : Z := 0.

(** A [net.IP] is a byte slice. *)
Definition IP := list Z.

(** The question [msg.SetQuestion name qtype] puts in a message. *)
Record Question := { Name : string; Qtype : Z }.

(** A resource record of an answer section: an [*dns.A] with its
    address, or a record of another type (CNAME, AAAA, ...), for which
    the type assertion to [*dns.A] fails. *)
Inductive RR :=
| A (a : IP)
| Other (rrtype : Z) (rdata : string).

(** A reply: [resp.Rcode] and [resp.Answer]. *)
Record Msg := { Rcode : Z; Answer : list RR }.

End dns.

(** What [d.client.Exchange] returns: a non-nil [err] (a transport-level
    failure, rendered by [%v]), or a reply. *)
Inductive ExchangeResult :=
| ExchangeErr (err : string)
| ExchangeOk (resp : dns.Msg).

(** What [Resolve] returns: [(ips, nil)] or [(nil, err)], [err] rendered
    by [%v]. *)
Inductive Result :=
| Ok (ips : list string)
| Err (err : string).

(** The observable actions of the program, in the order they happen:
    an exchange with a resolver and what it gave, text written to
    standard error, standard output or the output file, a receive from
    the rate limiter ([<-limiter]), a worker started by [go] for a name,
    a line sent on the [results] channel, the output file opened for
    appending, and created if it was not there, by [os.OpenFile] (with
    the error, if any), and the output file closed. *)
Inductive Event :=
| EvExchange (resolver : string) (msg : dns.Question) (res : ExchangeResult)
| EvStderr (text : string)
| EvStdout (text : string)
| EvFileWrite (text : string)
| EvPermit
| EvSpawn (name : string)
| EvSend (line : string)
| EvOpenFile (path : string) (err : option string)
| EvCloseFile.

(** What opening and scanning a file gives: an error from [os.Open], or
    the tokens [scanner.Text()] yields, one per line, and what
    [scanner.Err()] says at the end. *)
Inductive FileResult :=
| OpenErr (err : string)
| Opened (lines : list string) (scanErr : option string).

(** The environment of a run.  The reply of a resolver, and the clock,
    may depend on everything that happened before ([list Event]).
    [os_OpenFile] gives the error of opening the output file, if any;
    [stdin_lines] are the tokens a scanner of standard input yields;
    [flag_defaults] is what [flag.PrintDefaults] prints. *)
Record Env := {
  Fqdn : string → string;
  IP_String : dns.IP → string;
  Exchange : list Event → dns.Question → string → ExchangeResult;
  Now_Unix : list Event → Z;
  Getpid : Z;
  os_Open : string → FileResult;
  os_OpenFile : string → option string;
  stdin_piped : bool;
  stdin_lines : list string;
  flag_defaults : string
}.

(** The mutable part of a run: the [wildcardIPs] map of the
    [DNSEnumerator], the buffer of the [results] channel of the running
    dispatch loop, and the actions so far. *)
Record State := {
  wildcardIPs : gmap string bool;
  results : list string;
  log : list Event
}.

(** The immutable part of a [DNSEnumerator]: [outputFile] is [true] when
    [d.outputFile != nil]. *)
Record DNSEnumerator := {
  Config : DNSConfig;
  outputFile : bool
}.

(* ===================================================================== *)
(** * A state monad for the enumerator's methods *)
(* ===================================================================== *)

Definition M (A : Type) : Type := State → A * State.

#[global] Instance M_ret : MRet M := λ A (a : A) s, (a, s).

#[global] Instance M_bind : MBind M :=
  λ A B (k : A → M B) (m : M A) s, let (a, s') := m s in k a s'.

Definition emit (e : Event) : M unit :=
  λ s, (tt, {| wildcardIPs := wildcardIPs s; results := results s;
               log := log s ++ [e] |}).

Definition when (b : bool) (m : M unit) : M unit := if b then m else mret tt.

Definition nl : string := bytes [10%nat].

(** [fmt.Fprintf(os.Stderr, ...)] with the formatted text. *)
Definition Fprintf_Stderr (text : string) : M unit := emit (EvStderr text).

(** [d.client.Exchange(msg, resolver)]. *)
Definition client_Exchange (env : Env) (msg : dns.Question) (resolver : string)
  : M ExchangeResult :=
  λ s, let r := Exchange env (log s) msg resolver in
       (r, {| wildcardIPs := wildcardIPs s; results := results s;
              log := log s ++ [EvExchange resolver msg r] |}).

(* ===================================================================== *)
(** * [Resolve] *)
(* ===================================================================== *)

(** The loop over [resp.Answer]: [ips] grows by [a.A.String()] for each
    [*dns.A]. *)
Fixpoint answerIPs (env : Env) (ips : list string) (answer : list dns.RR)
  : list string :=
  match answer with
  | [] => ips
  | dns.A a :: rest => answerIPs env (ips ++ [IP_String env a]) rest
  | dns.Other _ _ :: rest => answerIPs env ips rest
  end.

(** The loop over [d.Config.Resolvers]. *)
Fixpoint Resolve_loop (env : Env) (d : DNSEnumerator) (msg : dns.Question)
  (resolvers : list string) : M Result :=
  match resolvers with
  | [] => mret (Err "all resolvers failed")
  | resolver :: rest =>
      r ← client_Exchange env msg resolver;
      match r with
      | ExchangeErr err =>
          when (Verbose (Config d))
            (Fprintf_Stderr
               ("Resolver " +:+ resolver +:+ " failed: " +:+ err +:+ nl));;
          Resolve_loop env d msg rest
      | ExchangeOk resp =>
          if decide (dns.Rcode resp ≠ dns.RcodeSuccess)
          then mret (Err ("DNS error: " +:+ fmt_int (dns.Rcode resp)))
          else mret (Ok (answerIPs env [] (dns.Answer resp)))
      end
  end.

Definition question (env : Env) (domain : string) : dns.Question :=
  {| dns.Name := Fqdn env domain; dns.Qtype := dns.TypeA |}.

Definition Resolve (env : Env) (d : DNSEnumerator) (domain : string) : M Result :=
  Resolve_loop env d (question env domain) (Resolvers (Config d)).

(* ===================================================================== *)
(** * The wildcard detector *)
(* ===================================================================== *)

(** The three labels of [testSubdomains]. *)
Definition testSubdomains (env : Env) : M (list string) :=
  λ s, ([ "rand" +:+ fmt_int (Now_Unix env (log s)) +:+ "-"
            +:+ fmt_int (Getpid env);
          "probably-does-not-exist-123";
          "test-subdomain-wildcard-456" ], s).

(** The loop [d.wildcardIPs[ip] = true] over [ips], under the mutex. *)
Definition recordIPs (ips : list string) : M unit :=
  λ s, (tt, {| wildcardIPs := foldl (λ m ip, <[ip := true]> m) (wildcardIPs s) ips;
               results := results s; log := log s |}).

(** The loop over [testSubdomains]. *)
Fixpoint probe_loop (env : Env) (d : DNSEnumerator) (domain : string)
  (subs : list string) : M unit :=
  match subs with
  | [] => mret tt
  | sub :: rest =>
      r ← Resolve env d (sub +:+ "." +:+ domain);
      match r with
      | Ok ips => when (bool_decide (0 < length ips)%nat) (recordIPs ips)
      | Err _ => mret tt
      end;;
      probe_loop env d domain rest
  end.

(** [getWildcardIPs]: the keys, in the order the map yields them. *)
Definition getWildcardIPs : M (list string) :=
  λ s, ((map_to_list (wildcardIPs s)).*1, s).

Definition len_wildcardIPs : M nat := λ s, (size (wildcardIPs s), s).

Definition DetectWildcard (env : Env) (d : DNSEnumerator) (domain : string)
  : M unit :=
  if negb (WildcardCheck (Config d)) then mret tt
  else
    subs ← testSubdomains env;
    probe_loop env d domain subs;;
    n ← len_wildcardIPs;
    when (bool_decide (0 < n)%nat && Verbose (Config d))
      (ips ← getWildcardIPs;
       Fprintf_Stderr
         ("[!] Wildcard DNS detected. These IPs will be filtered: "
            +:+ fmt_strings ips +:+ nl)).

(** [d.wildcardIPs[ip]]: the zero value [false] for a missing key. *)
Definition map_index (m : gmap string bool) (ip : string) : bool :=
  default false (m !! ip).

(** The loop of [isWildcardResponse]. *)
Fixpoint anyWildcard (m : gmap string bool) (ips : list string) : bool :=
  match ips with
  | [] => false
  | ip :: rest => if map_index m ip then true else anyWildcard m rest
  end.

Definition isWildcardResponse (ips : list string) : M bool :=
  λ s, (if decide (size (wildcardIPs s) = 0%nat) then false
        else anyWildcard (wildcardIPs s) ips, s).

(* ===================================================================== *)
(** * The result sink and the resolution worker *)
(* ===================================================================== *)

Definition WriteOutput (d : DNSEnumerator) (result : string) : M unit :=
  emit (EvStdout (result +:+ nl));;
  when (outputFile d) (emit (EvFileWrite (result +:+ nl))).

(** The consumer goroutine, [for result := range results], run on
    everything the channel holds. *)
Fixpoint writeAll (d : DNSEnumerator) (lines : list string) : M unit :=
  match lines with
  | [] => mret tt
  | result :: rest => WriteOutput d result;; writeAll d rest
  end.

Definition drain (d : DNSEnumerator) : M unit :=
  λ s, writeAll d (results s)
         {| wildcardIPs := wildcardIPs s; results := []; log := log s |}.

(** [results <- line]: the line joins the channel's buffer. *)
Definition send (line : string) : M unit :=
  λ s, (tt, {| wildcardIPs := wildcardIPs s; results := results s ++ [line];
               log := log s ++ [EvSend line] |}).

(** The condition [d.Config.WildcardCheck && d.isWildcardResponse(ips)]. *)
Definition flagged (d : DNSEnumerator) (ips : list string) : M bool :=
  if WildcardCheck (Config d) then isWildcardResponse ips else mret false.

(** What [ProcessDomain] does with the outcome of [Resolve]. *)
Definition deliver (d : DNSEnumerator) (domain : string) (r : Result) : M unit :=
  match r with
  | Err err =>
      when (Verbose (Config d))
        (Fprintf_Stderr
           ("Error resolving " +:+ domain +:+ ": " +:+ err +:+ nl))
  | Ok ips =>
      w ← flagged d ips;
      if (w : bool) then
        when (Verbose (Config d))
          (Fprintf_Stderr
             ("Filtered wildcard response for " +:+ domain +:+ ": "
                +:+ fmt_strings ips +:+ nl))
      else send (domain +:+ " [" +:+ Join ips ", " +:+ "]")
  end.

Definition ProcessDomain (env : Env) (d : DNSEnumerator) (domain : string)
  : M unit :=
  r ← Resolve env d domain;
  deliver d domain r.

(* ===================================================================== *)
(** * [LoadResolversFromFile] *)
(* ===================================================================== *)

(** The scanner loop: [resolvers] is the slice built so far. *)
Fixpoint loadResolvers_loop (resolvers : list string) (lines : list string)
  : list string :=
  match lines with
  | [] => resolvers
  | text :: rest =>
      let resolver := TrimSpace text in
      if negb (bool_decide (resolver = "")) && negb (HasPrefix resolver "#")
      then
        let resolver :=
          if negb (Contains resolver ":") then JoinHostPort resolver "53"
          else resolver in
        loadResolvers_loop (resolvers ++ [resolver]) rest
      else loadResolvers_loop resolvers rest
  end.

(** [inl resolvers] for [(resolvers, nil)], [inr err] for [(nil, err)]. *)
Definition LoadResolversFromFile (env : Env) (filename : string)
  : list string + string :=
  match os_Open env filename with
  | OpenErr err => inr err
  | Opened lines scanErr =>
      let resolvers := loadResolvers_loop [] lines in
      match scanErr with
      | Some err => inr err
      | None => inl resolvers
      end
  end.

(* ===================================================================== *)
(** * The dispatch loops *)
(* ===================================================================== *)

(** How a dispatch loop, or the process, ends. *)
Inductive Outcome :=
| Returned
| Exited (code : Z)
| Panicked (msg : string)
| Blocked.

(** [time.Second / time.Duration(d.Config.RateLimit)], in nanoseconds;
    [None] when the division panics. *)
Definition limiterPeriod (d : DNSEnumerator) : option Z :=
  if decide (RateLimit (Config d) = 0) then None
  else Some (1000000000 `quot` RateLimit (Config d)).

(** [time.Tick p] is a nil channel when [p <= 0]; a receive from it never
    returns. *)
Definition limiterIsNil (period : Z) : bool := bool_decide (period ≤ 0).

(** The streaming loop's body up to the permit: the candidate name of a
    line, [None] for a blank one, and the probe that precedes its
    admission. *)
Definition streamingName (text : string) : option string :=
  let domain := TrimSpace text in
  if decide (domain = "") then None else Some domain.

Definition baseDomain (domain : string) : option string :=
  let parts := Split domain "." in
  if bool_decide (2 ≤ length parts)%nat
  then Some (default "" (parts !! (length parts - 2)%nat) +:+ "."
               +:+ default "" (parts !! (length parts - 1)%nat))
  else None.

Definition streamingProbe (env : Env) (d : DNSEnumerator) (domain : string)
  : M unit :=
  when (WildcardCheck (Config d))
    match baseDomain domain with
    | Some base => DetectWildcard env d base
    | None => mret tt
    end.

(** The brute-force loop's candidate name of a wordlist line. *)
Definition bruteforceName (domain text : string) : option string :=
  let sub := TrimSpace text in
  if decide (sub = "") then None else Some (sub +:+ "." +:+ domain).

(** [<-limiter; wg.Add(1); go func(dmn) ...] once the limiter ticks. *)
Definition dispatch (name : string) : M unit :=
  emit EvPermit;; emit (EvSpawn name).

(** [results := make(chan string, 100)]. *)
Definition make_results : M unit :=
  λ s, (tt, {| wildcardIPs := wildcardIPs s; results := []; log := log s |}).

(** The loops below run each worker, and then the consumer, as soon as the
    worker is spawned: one of the schedules the goroutines allow.  The
    relation [step] further down allows all of them. *)
Fixpoint EnumerateFromReader_loop (env : Env) (d : DNSEnumerator) (period : Z)
  (lines : list string) : M Outcome :=
  match lines with
  | [] => mret Returned
  | text :: rest =>
      match streamingName text with
      | None => EnumerateFromReader_loop env d period rest
      | Some domain =>
          streamingProbe env d domain;;
          if limiterIsNil period then mret Blocked
          else
            dispatch domain;;
            ProcessDomain env d domain;;
            drain d;;
            EnumerateFromReader_loop env d period rest
      end
  end.

Definition EnumerateFromReader (env : Env) (d : DNSEnumerator)
  (lines : list string) : M Outcome :=
  match limiterPeriod d with
  | None => mret (Panicked "integer divide by zero")
  | Some period =>
      make_results;;
      EnumerateFromReader_loop env d period lines
  end.

Fixpoint Bruteforce_loop (env : Env) (d : DNSEnumerator) (period : Z)
  (domain : string) (lines : list string) : M Outcome :=
  match lines with
  | [] => mret Returned
  | text :: rest =>
      match bruteforceName domain text with
      | None => Bruteforce_loop env d period domain rest
      | Some fullDomain =>
          if limiterIsNil period then mret Blocked
          else
            dispatch fullDomain;;
            ProcessDomain env d fullDomain;;
            drain d;;
            Bruteforce_loop env d period domain rest
      end
  end.

Definition Bruteforce (env : Env) (d : DNSEnumerator)
  (domain wordlistPath : string) : M Outcome :=
  DetectWildcard env d domain;;
  match os_Open env wordlistPath with
  | OpenErr err =>
      Fprintf_Stderr ("Error opening wordlist: " +:+ err +:+ nl);;
      mret Returned
  | Opened lines scanErr =>
      match limiterPeriod d with
      | None => mret (Panicked "integer divide by zero")
      | Some period =>
          make_results;;
          o ← Bruteforce_loop env d period domain lines;
          match o with
          | Returned =>
              match scanErr with
              | Some err =>
                  Fprintf_Stderr ("Error reading wordlist: " +:+ err +:+ nl)
              | None => mret tt
              end;;
              mret Returned
          | _ => mret o
          end
      end
  end.

(* ===================================================================== *)
(** * [NewDNSEnumerator] and [main] *)
(* ===================================================================== *)

(** The parsed command-line flags. *)
Record Flags := {
  flag_d : string;
  flag_w : string;
  flag_r : string;
  flag_resolvers : string;
  flag_rate : Z;
  flag_t : Z;
  flag_no_wildcard : bool;
  flag_v : bool;
  flag_version : bool;
  flag_o : string
}.

(** The flags' default values. *)
Definition defaultFlags : Flags := {|
  flag_d := ""; flag_w := ""; flag_r := "";
  flag_resolvers := "8.8.8.8:53,1.1.1.1:53";
  flag_rate := 10; flag_t := 2;
  flag_no_wildcard := false; flag_v := false; flag_version := false;
  flag_o := ""
|}.

(** [os.OpenFile(path, os.O_APPEND|os.O_CREATE|os.O_WRONLY, 0644)]. *)
Definition os_OpenFile_append (env : Env) (path : string) : M (option string) :=
  λ s, let err := os_OpenFile env path in
       (err, {| wildcardIPs := wildcardIPs s; results := results s;
                log := log s ++ [EvOpenFile path err] |}).

(** [wildcardIPs: make(map[string]bool)], and the output file opened
    when one is configured. *)
Definition NewDNSEnumerator (env : Env) (config : DNSConfig)
  : M (DNSEnumerator + string) :=
  λ s,
    let s' := {| wildcardIPs := ∅; results := results s; log := log s |} in
    if decide (OutputFile config ≠ "") then
      (err ← os_OpenFile_append env (OutputFile config);
       match err with
       | Some err => mret (inr ("error opening output file: " +:+ err))
       | None => mret (inl {| Config := config; outputFile := true |})
       end) s'
    else (inl {| Config := config; outputFile := false |}, s').

(** [Close]: the output file is closed if there is one. *)
Definition Close (d : DNSEnumerator) : M unit :=
  when (outputFile d) (emit EvCloseFile).

Definition Fprintln_Stderr (text : string) : M unit :=
  emit (EvStderr (text +:+ nl)).

Definition usage (env : Env) : M unit :=
  Fprintln_Stderr "DNS Tool - Fast DNS resolution and subdomain enumeration";;
  Fprintln_Stderr "Usage: dns-tool -d example.com -w wordlist.txt -r resolvers.txt";;
  Fprintln_Stderr "       subfinder -d example.com | dns-tool -r resolvers.txt";;
  Fprintln_Stderr "       cat domains.txt | dns-tool -r resolvers.txt";;
  Fprintln_Stderr "";;
  Fprintln_Stderr "Options:";;
  emit (EvStderr (flag_defaults env)).

(** [main] after [flag.Parse()]; a process whose [main] returns exits
    with status 0.  The deferred [enumerator.Close()] runs when [main]
    returns and when it panics, and not when [os.Exit] ends the
    process. *)
Definition main (env : Env) (flags : Flags) : M Outcome :=
  if flag_version flags then
    emit (EvStdout ("DNS Tool v1.0.0" +:+ nl));;
    mret (Exited 0)
  else
    match (if decide (flag_r flags ≠ "")
           then LoadResolversFromFile env (flag_r flags)
           else inl (Split (flag_resolvers flags) ",")) with
    | inr err =>
        Fprintf_Stderr
          ("Error loading resolvers from file: " +:+ err +:+ nl);;
        mret (Exited 1)
    | inl resolvers =>
        if decide (length resolvers = 0%nat) then
          Fprintln_Stderr "No DNS resolvers specified";;
          mret (Exited 1)
        else
          let config := {|
            Resolvers := resolvers;
            RateLimit := flag_rate flags;
            Timeout := wrap64 (flag_t flags * 1000000000);
            WildcardCheck := negb (flag_no_wildcard flags);
            Verbose := flag_v flags;
            OutputFile := flag_o flags |} in
          e ← NewDNSEnumerator env config;
          match e with
          | inr err =>
              Fprintf_Stderr
                ("Error initializing DNS enumerator: " +:+ err +:+ nl);;
              mret (Exited 1)
          | inl enumerator =>
              o ← (if bool_decide (flag_d flags ≠ "")
                      && bool_decide (flag_w flags ≠ "")
                   then Bruteforce env enumerator (flag_d flags) (flag_w flags)
                   else if stdin_piped env
                   then EnumerateFromReader env enumerator (stdin_lines env)
                   else usage env;; mret (Exited 1));
              match o with
              | Returned => Close enumerator;; mret (Exited 0)
              | Panicked _ => Close enumerator;; mret o
              | _ => mret o
              end
          end
    end.

Definition initState : State := {| wildcardIPs := ∅; results := []; log := [] |}.

(* ===================================================================== *)
(** * Observing a run *)
(* ===================================================================== *)

(** The events between two states of one run. *)
Definition since (s s' : State) : list Event := drop (length (log s)) (log s').

(** [s'] comes after [s] in a run. *)
Definition extends (s s' : State) : Prop := log s' = log s ++ since s s'.

(** One exchange: which endpoint was asked what, and what it gave. *)
Record Contact := {
  c_resolver : string;
  c_msg : dns.Question;
  c_res : ExchangeResult
}.

Definition contactOf (e : Event) : option Contact :=
  match e with
  | EvExchange resolver msg res =>
      Some {| c_resolver := resolver; c_msg := msg; c_res := res |}
  | _ => None
  end.

Definition sendOf (e : Event) : option string :=
  match e with EvSend line => Some line | _ => None end.

Definition spawnOf (e : Event) : option string :=
  match e with EvSpawn name => Some name | _ => None end.

Definition contacts (l : list Event) : list Contact := omap contactOf l.
Definition sends (l : list Event) : list string := omap sendOf l.
Definition spawns (l : list Event) : list string := omap spawnOf l.

Definition isTransportErr (res : ExchangeResult) : Prop :=
  ∃ err, res = ExchangeErr err.

Definition isCompleted (res : ExchangeResult) : Prop :=
  ∃ resp, res = ExchangeOk resp.

(** The lines a worker for [domain], started in state [s], sends. *)
Definition sent (env : Env) (d : DNSEnumerator) (domain : string) (s : State)
  : list string :=
  sends (since s (ProcessDomain env d domain s).2).

(** The WildcardIPSet: the keys of [wildcardIPs]. *)
Definition WildcardIPSet (s : State) : gset string := dom (wildcardIPs s).

(** [wildcardIPs] only ever maps a key to [true]. *)
Definition wildcard_wf (s : State) : Prop :=
  ∀ ip b, wildcardIPs s !! ip = Some b → b = true.

(** The addresses of the A records of an answer section, in answer
    order. *)
Definition aRecords (env : Env) (answer : list dns.RR) : list string :=
  omap (λ rr, match rr with
              | dns.A a => Some (IP_String env a)
              | dns.Other _ _ => None
              end) answer.

(** The result line of a name and its addresses. *)
Definition resultLine (name : string) (ips : list string) : string :=
  name +:+ " [" +:+ Join ips ", " +:+ "]".

(** The resolver list the specification describes for a file: lines
    trimmed, blank ones and those starting with '#' left out, port 53
    given to those without a port separator. *)
Definition isIgnored (line : string) : bool :=
  bool_decide (line = "") || HasPrefix line "#".

Definition withPort (host : string) : string :=
  if Contains host ":" then host else host +:+ ":53".

Definition resolversOf (lines : list string) : list string :=
  withPort <$> filter (λ l, isIgnored l = false) (TrimSpace <$> lines).

(** The candidate names the specification describes for a wordlist in
    brute-force mode: lines trimmed, blank ones left out and nothing
    else, each put before the base domain. *)
Definition candidatesOf (domain : string) (lines : list string) : list string :=
  (λ sub, sub +:+ "." +:+ domain)
    <$> filter (λ l, l ≠ "") (TrimSpace <$> lines).

(** The shape of one failover pass over [resolvers]: the contacts made,
    in order, and the result returned. *)
Inductive failover (env : Env) (msg : dns.Question)
  : list string → list Contact → Result → Prop :=
| failover_exhausted :
    failover env msg [] [] (Err "all resolvers failed")
| failover_next resolver rest err cs res :
    failover env msg rest cs res →
    failover env msg (resolver :: rest)
      ({| c_resolver := resolver; c_msg := msg; c_res := ExchangeErr err |} :: cs)
      res
| failover_error resolver rest resp :
    dns.Rcode resp ≠ dns.RcodeSuccess →
    failover env msg (resolver :: rest)
      [{| c_resolver := resolver; c_msg := msg; c_res := ExchangeOk resp |}]
      (Err ("DNS error: " +:+ fmt_int (dns.Rcode resp)))
| failover_answer resolver rest resp :
    dns.Rcode resp = dns.RcodeSuccess →
    failover env msg (resolver :: rest)
      [{| c_resolver := resolver; c_msg := msg; c_res := ExchangeOk resp |}]
      (Ok (aRecords env (dns.Answer resp))).

(** What the last contact of a pass says about the result. *)
Definition decided (env : Env) (resolvers : list string) (cs : list Contact)
  (res : Result) : Prop :=
  match last cs with
  | Some {| c_res := ExchangeOk resp |} =>
      res = if decide (dns.Rcode resp = dns.RcodeSuccess)
            then Ok (aRecords env (dns.Answer resp))
            else Err ("DNS error: " +:+ fmt_int (dns.Rcode resp))
  | _ => c_resolver <$> cs = resolvers ∧ res = Err "all resolvers failed"
  end.

(** Among the events [l], some exchange was completed with the success
    code and an A record for [ip]. *)
Definition answered (env : Env) (l : list Event) (ip : string) : Prop :=
  ∃ c resp, c ∈ contacts l ∧ c_res c = ExchangeOk resp
            ∧ dns.Rcode resp = dns.RcodeSuccess
            ∧ ip ∈ aRecords env (dns.Answer resp).

(** Every exchange among the events [new], which follow the events
    [old], gave what the environment's resolver gives for that question
    at that point of the run. *)
Definition genuine (env : Env) (old new : list Event) : Prop :=
  ∀ l1 resolver msg res l2,
    new = l1 ++ EvExchange resolver msg res :: l2 →
    res = Exchange env (old ++ l1) msg resolver.

(** What a pass of [Resolve_loop] from [s] to [out] leaves behind. *)
Record pass (env : Env) (msg : dns.Question) (resolvers : list string)
  (s : State) (out : Result * State) : Prop := {
  pass_extends : extends s out.2;
  pass_wildcardIPs : wildcardIPs out.2 = wildcardIPs s;
  pass_results : results out.2 = results s;
  pass_failover : failover env msg resolvers (contacts (since s out.2)) out.1;
  pass_sends : sends (since s out.2) = [];
  pass_spawns : spawns (since s out.2) = []
}.

(** What one run of the probe loop leaves behind. *)
Record probed (env : Env) (domain : string) (subs : list string)
  (s s' : State) : Prop := {
  probed_extends : extends s s';
  probed_results : results s' = results s;
  probed_sends : sends (since s s') = [];
  probed_spawns : spawns (since s s') = [];
  probed_names : ∀ c, c ∈ contacts (since s s') →
    ∃ sub, sub ∈ subs ∧ c_msg c = question env (sub +:+ "." +:+ domain);
  probed_lookup : ∀ ip,
    answered env (since s s') ip ∧ wildcardIPs s' !! ip = Some true
    ∨ ¬ answered env (since s s') ip
      ∧ wildcardIPs s' !! ip = wildcardIPs s !! ip
}.

(** A stretch of a run that only writes diagnostics. *)
Record quiet (s s' : State) : Prop := {
  quiet_extends : extends s s';
  quiet_wildcardIPs : wildcardIPs s' = wildcardIPs s;
  quiet_results : results s' = results s;
  quiet_contacts : contacts (since s s') = [];
  quiet_sends : sends (since s s') = [];
  quiet_spawns : spawns (since s s') = []
}.

(* ===================================================================== *)
(** * The dispatch loops under every schedule *)
(* ===================================================================== *)

Inductive Mode :=
| Streaming
| BruteForce (domain : string).

Definition candidate (mode : Mode) (text : string) : option string :=
  match mode with
  | Streaming => streamingName text
  | BruteForce domain => bruteforceName domain text
  end.

Definition probeBefore (env : Env) (d : DNSEnumerator) (mode : Mode)
  (name : string) : M unit :=
  match mode with
  | Streaming => streamingProbe env d name
  | BruteForce _ => mret tt
  end.

(** A worker goroutine: started and about to call [Resolve], or back from
    [Resolve] with its outcome. *)
Inductive Task :=
| Spawned (id : nat) (name : string)
| Resolved (id : nat) (name : string) (r : Result).

Definition task_id (t : Task) : nat :=
  match t with Spawned id _ => id | Resolved id _ _ => id end.

Definition task_name (t : Task) : string :=
  match t with Spawned _ name => name | Resolved _ name _ => name end.

(** The loop goroutine and its workers: the lines not yet scanned, the
    name waiting for a permit, the workers in flight, the number of
    workers started so far, and the shared state. *)
Record Pool := {
  input : list string;
  waiting : option string;
  tasks : list Task;
  next_id : nat;
  st : State
}.

Inductive Label :=
| LSkip
| LProbe (name : string)
| LDispatch (id : nat) (name : string)
| LResolve (id : nat) (name : string)
| LDeliver (id : nat) (name : string) (lines : list string)
| LSink (line : string).

Definition results_cap : nat := 100.

Definition take_result (s : State) : State :=
  {| wildcardIPs := wildcardIPs s; results := tail (results s); log := log s |}.

(** One step of the loop goroutine, of a worker or of the consumer.
    The loop skips a blank line ([step_skip]); or takes the next name and
    runs the probe that precedes its permit ([step_probe], which only
    streaming mode has); then, unless the limiter is a nil channel,
    receives a permit and starts the worker ([step_dispatch]).  A worker
    calls [Resolve] ([step_resolve]) and then filters and sends
    ([step_deliver]); a send needs room in the channel's buffer.  The
    consumer takes a line from the channel and writes it ([step_sink]).
    Any of these may come next, whatever the others are doing.  These are
    the steps of the loop while it runs, with the consumer's receive,
    print and write taken as one; the relation [pstep] further down
    takes them one by one and adds what follows the loop: the return to
    [main], the deferred [Close] and the end of the process, for which
    the consumer is not awaited.  The relation [tstep] adds the clock
    and the limiter's ticks. *)
Inductive step (env : Env) (d : DNSEnumerator) (mode : Mode) (period : Z)
  : Pool → Label → Pool → Prop :=
| step_skip text rest ts n s :
    candidate mode text = None →
    step env d mode period
      {| input := text :: rest; waiting := None; tasks := ts; next_id := n; st := s |}
      LSkip
      {| input := rest; waiting := None; tasks := ts; next_id := n; st := s |}
| step_probe text rest ts n s name :
    candidate mode text = Some name →
    step env d mode period
      {| input := text :: rest; waiting := None; tasks := ts; next_id := n; st := s |}
      (LProbe name)
      {| input := rest; waiting := Some name; tasks := ts; next_id := n;
         st := (probeBefore env d mode name s).2 |}
| step_dispatch inp ts n s name :
    limiterIsNil period = false →
    step env d mode period
      {| input := inp; waiting := Some name; tasks := ts; next_id := n; st := s |}
      (LDispatch n name)
      {| input := inp; waiting := None; tasks := ts ++ [Spawned n name];
         next_id := S n; st := (dispatch name s).2 |}
| step_resolve inp w ts1 ts2 n s id name :
    step env d mode period
      {| input := inp; waiting := w; tasks := ts1 ++ Spawned id name :: ts2;
         next_id := n; st := s |}
      (LResolve id name)
      {| input := inp; waiting := w;
         tasks := ts1 ++ Resolved id name (Resolve env d name s).1 :: ts2;
         next_id := n; st := (Resolve env d name s).2 |}
| step_deliver inp w ts1 ts2 n s id name r :
    (length (results (deliver d name r s).2) ≤ results_cap)%nat →
    step env d mode period
      {| input := inp; waiting := w; tasks := ts1 ++ Resolved id name r :: ts2;
         next_id := n; st := s |}
      (LDeliver id name (sends (since s (deliver d name r s).2)))
      {| input := inp; waiting := w; tasks := ts1 ++ ts2;
         next_id := n; st := (deliver d name r s).2 |}
| step_sink inp w ts n s line :
    head (results s) = Some line →
    step env d mode period
      {| input := inp; waiting := w; tasks := ts; next_id := n; st := s |}
      (LSink line)
      {| input := inp; waiting := w; tasks := ts; next_id := n;
         st := (WriteOutput d line (take_result s)).2 |}.

(** A run: the labels of its steps, oldest first. *)
Inductive run (env : Env) (d : DNSEnumerator) (mode : Mode) (period : Z)
  : Pool → list Label → Pool → Prop :=
| run_nil p : run env d mode period p [] p
| run_snoc p tr p' l p'' :
    run env d mode period p tr p' →
    step env d mode period p' l p'' →
    run env d mode period p (tr ++ [l]) p''.

(** The pool a dispatch loop starts from. *)
Definition startPool (lines : list string) (s : State) : Pool :=
  {| input := lines; waiting := None; tasks := []; next_id := 0%nat;
     st := (make_results s).2 |}.

Definition deliveredLines (l : Label) : list string :=
  match l with LDeliver _ _ lines => lines | _ => [] end.

Definition dispatchOf (l : Label) : option (nat * string) :=
  match l with LDispatch id name => Some (id, name) | _ => None end.

Definition deliverOf (l : Label) : option (nat * string) :=
  match l with LDeliver id name _ => Some (id, name) | _ => None end.

(** The workers in flight, by number and name. *)
Definition roster (p : Pool) : list (nat * string) :=
  (λ t, (task_id t, task_name t)) <$> tasks p.

(** How the labels [tr] of a run account for the workers of the pool [p]
    it reached. *)
Record tracked (tr : list Label) (p : Pool) : Prop := {
  tracked_ids : ∀ id name, (id, name) ∈ roster p → (id < next_id p)%nat;
  tracked_nodup : NoDup (roster p).*1;
  tracked_tasks : ∀ id name, (id, name) ∈ roster p → LDispatch id name ∈ tr;
  tracked_dispatched : ∀ id name, LDispatch id name ∈ tr → (id < next_id p)%nat;
  tracked_fresh : NoDup (omap dispatchOf tr).*1;
  tracked_gone : ∀ id name ls, LDeliver id name ls ∈ tr → id ∉ (roster p).*1;
  tracked_once : NoDup (omap deliverOf tr).*1;
  tracked_order : ∀ tr1 id name ls tr2,
    tr = tr1 ++ LDeliver id name ls :: tr2 → LDispatch id name ∈ tr1
}.

(* ===================================================================== *)
(** * Concrete environments *)
(* ===================================================================== *)

Module Sample.

(** [dns.Fqdn] on names without escaped dots. *)
Definition fqdn (s : string) : string :=
  if HasPrefix (String.rev s) "." then s else s +:+ ".".

(** [net.IP.String] on four-byte addresses. *)
Definition dotted (ip : dns.IP) : string := Join (fmt_int <$> ip) ".".

Definition timeout : ExchangeResult := ExchangeErr "i/o timeout".
Definition nxdomain : ExchangeResult :=
  ExchangeOk {| dns.Rcode := 3; dns.Answer := [] |}.
Definition answer (rrs : list dns.RR) : ExchangeResult :=
  ExchangeOk {| dns.Rcode := 0; dns.Answer := rrs |}.

(** An environment whose resolvers answer by [zone resolver name], no
    matter what happened before. *)
Definition envOf (zone : string → string → ExchangeResult)
  (files : string → FileResult) : Env := {|
  Fqdn := fqdn;
  IP_String := dotted;
  Exchange := λ _ msg resolver, zone resolver (dns.Name msg);
  Now_Unix := λ _, 1700000000;
  Getpid := 4242;
  os_Open := files;
  os_OpenFile := λ _, None;
  stdin_piped := true;
  stdin_lines := [];
  flag_defaults := ""
|}.

Definition noFiles : string → FileResult :=
  λ _, OpenErr "open: no such file or directory".

(** [r1:53] never answers; [r2:53] knows [www.example.com] and
    nothing else; [r3:53] answers every name with [203.0.113.9]. *)
Definition zone1 (resolver name : string) : ExchangeResult :=
  if decide (resolver = "r1:53") then timeout
  else if decide (resolver = "r2:53") then
    if decide (name = "www.example.com.") then answer [dns.A [10; 0; 0; 2]]
    else nxdomain
  else answer [dns.A [203; 0; 113; 9]].

(** [r4:53] answers every name with a CNAME record and no address. *)
Definition zone2 (resolver name : string) : ExchangeResult :=
  if decide (resolver = "r4:53")
  then answer [dns.Other 5 "alias.example.net."]
  else zone1 resolver name.

(** A resolver file and a wordlist. *)
Definition files1 (path : string) : FileResult :=
  if decide (path = "resolvers.txt") then
    Opened ["# Public DNS resolvers"; "8.8.8.8"; ""; "  1.1.1.1:53  ";
            "#9.9.9.9"; "9.9.9.9"] None
  else if decide (path = "words.txt") then
    Opened ["www"; "   "; "#api"] None
  else noFiles path.

(** [-d example.com -w missing.txt -resolvers r3:53]. *)
Definition bruteFlags : Flags := {|
  flag_d := "example.com"; flag_w := "missing.txt"; flag_r := "";
  flag_resolvers := "r3:53";
  flag_rate := 10; flag_t := 2;
  flag_no_wildcard := false; flag_v := false; flag_version := false;
  flag_o := ""
|}.

Definition enumOf (resolvers : list string) (wildcard verbose : bool)
  : DNSEnumerator := {|
  Config := {| Resolvers := resolvers; RateLimit := 10;
               Timeout := 2000000000; WildcardCheck := wildcard;
               Verbose := verbose; OutputFile := "" |};
  outputFile := false |}.

Definition env1 : Env := envOf zone1 noFiles.
Definition env2 : Env := envOf zone2 files1.

(** Enumerators over [r1:53; r2:53; r3:53], over the wildcard
    resolver [r3:53], over [r2:53] and over [r1:53; r4:53]. *)
Definition enum123 : DNSEnumerator := enumOf ["r1:53"; "r2:53"; "r3:53"] true false.
Definition enum3 : DNSEnumerator := enumOf ["r3:53"] true false.
Definition enum2 : DNSEnumerator := enumOf ["r2:53"] true false.
Definition enum2_off : DNSEnumerator := enumOf ["r2:53"] false false.
Definition enum14 : DNSEnumerator := enumOf ["r1:53"; "r4:53"] true false.

(** The state after a probe of [example.com] through [r3:53]. *)
Definition probed3 : State :=
  (DetectWildcard env1 enum3 "example.com" initState).2.

(** Ten permits a second. *)
Definition period10 : Z := 100000000.

End Sample.

(* ===================================================================== *)
(** * More observations of a run *)
(* ===================================================================== *)

Definition stdoutOf (e : Event) : option string :=
  match e with EvStdout text => Some text | _ => None end.

Definition fileWriteOf (e : Event) : option string :=
  match e with EvFileWrite text => Some text | _ => None end.

Definition stderrOf (e : Event) : option string :=
  match e with EvStderr text => Some text | _ => None end.

(** A receive from the limiter or the start of a worker. *)
Definition admissionOf (e : Event) : option Event :=
  match e with
  | EvPermit => Some EvPermit
  | EvSpawn name => Some (EvSpawn name)
  | _ => None
  end.

Definition stdouts (l : list Event) : list string := omap stdoutOf l.
Definition fileWrites (l : list Event) : list string := omap fileWriteOf l.
Definition stderrs (l : list Event) : list string := omap stderrOf l.
Definition admissions (l : list Event) : list Event := omap admissionOf l.

(** An observation that does not see exchanges or diagnostics. *)
Definition blindToLookups {B} (f : Event → option B) : Prop :=
  (∀ resolver msg res, f (EvExchange resolver msg res) = None)
  ∧ (∀ text, f (EvStderr text) = None).

(** The line a verbose [Resolve] writes for an exchange that failed at
    the transport level. *)
Definition failureLine (c : Contact) : option string :=
  match c_res c with
  | ExchangeErr err =>
      Some ("Resolver " +:+ c_resolver c +:+ " failed: " +:+ err +:+ nl)
  | ExchangeOk _ => None
  end.

(** The events of a [Resolve] that made the contacts [cs]: each exchange,
    followed in verbose mode by the line of its failure. *)
Definition lookupTrace (verbose : bool) (cs : list Contact) : list Event :=
  c ← cs;
  EvExchange (c_resolver c) (c_msg c) (c_res c)
    :: (if verbose then option_list (EvStderr <$> failureLine c) else []).

(** The line the consumer takes from the channel in a step. *)
Definition sunkLine (l : Label) : list string :=
  match l with LSink line => [line] | _ => [] end.

(** The lookups the streaming loop makes for one name: the worker's, and
    the three of the probe when wildcard checking is on and the name has
    two dot-separated labels or more. *)
Definition lookupsFor (d : DNSEnumerator) (name : string) : nat :=
  if WildcardCheck (Config d) && bool_decide (2 ≤ length (Split name "."))%nat
  then 4%nat else 1%nat.

(** The names of a streamed input: its lines trimmed, the blank ones
    left out. *)
Definition namesOf (lines : list string) : list string :=
  filter (λ l, l ≠ "") (TrimSpace <$> lines).

(** A permit and the start of the worker it lets in. *)
Definition admission (name : string) : list Event := [EvPermit; EvSpawn name].

(** A dispatch loop that has nothing left to do: no line, no name
    waiting, no worker in flight, nothing in the channel. *)
Definition finished (p : Pool) : Prop :=
  input p = [] ∧ waiting p = None ∧ tasks p = [] ∧ results (st p) = [].

(** A pool from which no goroutine can take a step. *)
Definition stuck (env : Env) (d : DNSEnumerator) (mode : Mode) (period : Z)
  (p : Pool) : Prop :=
  ∀ l p', ¬ step env d mode period p l p'.

(** The state a dispatch loop starts in: [Bruteforce] has probed its
    domain by then. *)
Definition loopStart (env : Env) (d : DNSEnumerator) (mode : Mode) (s : State)
  : State :=
  match mode with
  | Streaming => s
  | BruteForce domain => (DetectWildcard env d domain s).2
  end.

(** The resolvers [main] configures: those of the file named by [-r],
    or else the fields of the [-resolvers] flag. *)
Definition chosenResolvers (env : Env) (flags : Flags) : list string + string :=
  if decide (flag_r flags ≠ "")
  then LoadResolversFromFile env (flag_r flags)
  else inl (Split (flag_resolvers flags) ",").

(** The attempt of [NewDNSEnumerator] to open the output file, which
    creates the file when it is not there: [main] makes it once it has
    resolvers, when [-o] names a file. *)
Definition openAttempt (env : Env) (flags : Flags) : list Event :=
  match chosenResolvers env flags with
  | inl (_ :: _) =>
      if decide (flag_o flags ≠ "")
      then [EvOpenFile (flag_o flags) (os_OpenFile env (flag_o flags))]
      else []
  | _ => []
  end.

(** The line of a verbose [DetectWildcard] about the recorded
    addresses. *)
Definition wildcardReport (s : State) : string :=
  "[!] Wildcard DNS detected. These IPs will be filtered: "
    +:+ fmt_strings (getWildcardIPs s).1 +:+ nl.

(** The steps a worker has left: the lookup and the delivery, and the
    write of the line it may send. *)
Definition task_weight (t : Task) : nat :=
  match t with Spawned _ _ => 3%nat | Resolved _ _ _ => 2%nat end.

(** A bound on the steps a pool has left: five for a line not yet
    scanned (probe, permit, lookup, delivery, write), four for a name
    waiting for its permit, those of the workers in flight, and one for
    each line in the channel. *)
Definition potential (p : Pool) : nat :=
  (5 * length (input p) + match waiting p with Some _ => 4 | None => 0 end
   + sum_list_with task_weight (tasks p) + length (results (st p)))%nat.

(* ===================================================================== *)
(** * The process around a dispatch loop *)
(* ===================================================================== *)

(** The consumer goroutine, [for result := range results
    { d.WriteOutput(result) }]: waiting for a line; holding a line it
    has received and has not printed yet; or between the [fmt.Println]
    and the [WriteString] of [WriteOutput]. *)
Inductive Consumer :=
| Receiving
| Holding (line : string)
| Printed (line : string).

(** Where the goroutine of [main] is: in the dispatch loop; past
    [wg.Wait()] and [close(results)]; back in [main], with the deferred
    [enumerator.Close()] still to run; past [Close]; or gone, and the
    process with it. *)
Inductive Phase :=
| InLoop
| Drained
| BackInMain
| FileClosed
| Gone.

(** The goroutines of the process and the output file: [file_open] says
    whether [d.outputFile] can still be written. *)
Record Process := {
  pool : Pool;
  consumer : Consumer;
  phase : Phase;
  file_open : bool
}.

(** What is left of the dispatch function after [close(results)]:
    [Bruteforce] reports the error of the wordlist's scanner;
    [EnumerateFromReader] does not ask its scanner. *)
Definition afterLoop (mode : Mode) (scanErr : option string) : M unit :=
  match mode, scanErr with
  | BruteForce _, Some err =>
      Fprintf_Stderr ("Error reading wordlist: " +:+ err +:+ nl)
  | _, _ => mret tt
  end.

(** What [afterLoop] writes. *)
Definition scanReport (mode : Mode) (scanErr : option string) : list Event :=
  match mode, scanErr with
  | BruteForce _, Some err =>
      [EvStderr ("Error reading wordlist: " +:+ err +:+ nl)]
  | _, _ => []
  end.

(** [d.outputFile.WriteString(result + "\n")], whose error is dropped:
    nothing is written to a file that [Close] has closed. *)
Definition WriteString (open : bool) (line : string) : M unit :=
  when open (emit (EvFileWrite (line +:+ nl))).

(** One step of a goroutine of the process.  The loop goroutine and the
    workers step as in [step] while [main] is in the loop
    ([pstep_work]); when the input is used up and no name waits, the
    loop waits for the workers and closes the channel ([pstep_wait]),
    the dispatch function finishes ([pstep_return]), the deferred
    [Close] runs ([pstep_close]) and [main] returns, which ends the
    process ([pstep_exit]).  Nothing waits for the consumer: until the
    process is gone it may at any time receive a line
    ([pstep_receive]), print it ([pstep_print]) and, if there is an
    output file, write it there ([pstep_write]). *)
Inductive pstep (env : Env) (d : DNSEnumerator) (mode : Mode) (period : Z)
  (scanErr : option string) : Process → Process → Prop :=
| pstep_work p l p' c f :
    step env d mode period p l p' →
    sunkLine l = [] →
    pstep env d mode period scanErr
      {| pool := p; consumer := c; phase := InLoop; file_open := f |}
      {| pool := p'; consumer := c; phase := InLoop; file_open := f |}
| pstep_wait n s c f :
    pstep env d mode period scanErr
      {| pool := {| input := []; waiting := None; tasks := []; next_id := n;
                    st := s |};
         consumer := c; phase := InLoop; file_open := f |}
      {| pool := {| input := []; waiting := None; tasks := []; next_id := n;
                    st := s |};
         consumer := c; phase := Drained; file_open := f |}
| pstep_return inp w ts n s c f :
    pstep env d mode period scanErr
      {| pool := {| input := inp; waiting := w; tasks := ts; next_id := n; st := s |};
         consumer := c; phase := Drained; file_open := f |}
      {| pool := {| input := inp; waiting := w; tasks := ts; next_id := n;
                    st := (afterLoop mode scanErr s).2 |};
         consumer := c; phase := BackInMain; file_open := f |}
| pstep_close inp w ts n s c f :
    pstep env d mode period scanErr
      {| pool := {| input := inp; waiting := w; tasks := ts; next_id := n; st := s |};
         consumer := c; phase := BackInMain; file_open := f |}
      {| pool := {| input := inp; waiting := w; tasks := ts; next_id := n;
                    st := (Close d s).2 |};
         consumer := c; phase := FileClosed; file_open := false |}
| pstep_exit p c f :
    pstep env d mode period scanErr
      {| pool := p; consumer := c; phase := FileClosed; file_open := f |}
      {| pool := p; consumer := c; phase := Gone; file_open := f |}
| pstep_receive inp w ts n s ph f line :
    ph ≠ Gone →
    head (results s) = Some line →
    pstep env d mode period scanErr
      {| pool := {| input := inp; waiting := w; tasks := ts; next_id := n; st := s |};
         consumer := Receiving; phase := ph; file_open := f |}
      {| pool := {| input := inp; waiting := w; tasks := ts; next_id := n;
                    st := take_result s |};
         consumer := Holding line; phase := ph; file_open := f |}
| pstep_print inp w ts n s ph f line :
    ph ≠ Gone →
    pstep env d mode period scanErr
      {| pool := {| input := inp; waiting := w; tasks := ts; next_id := n; st := s |};
         consumer := Holding line; phase := ph; file_open := f |}
      {| pool := {| input := inp; waiting := w; tasks := ts; next_id := n;
                    st := (emit (EvStdout (line +:+ nl)) s).2 |};
         consumer := if outputFile d then Printed line else Receiving;
         phase := ph; file_open := f |}
| pstep_write inp w ts n s ph f line :
    ph ≠ Gone →
    pstep env d mode period scanErr
      {| pool := {| input := inp; waiting := w; tasks := ts; next_id := n; st := s |};
         consumer := Printed line; phase := ph; file_open := f |}
      {| pool := {| input := inp; waiting := w; tasks := ts; next_id := n;
                    st := (WriteString f line s).2 |};
         consumer := Receiving; phase := ph; file_open := f |}.

(** The process as a dispatch function starts it. *)
Definition startProcess (d : DNSEnumerator) (lines : list string) (s : State)
  : Process :=
  {| pool := startPool lines s; consumer := Receiving; phase := InLoop;
     file_open := outputFile d |}.



(** [main] has left the dispatch function. *)
Definition returned (ph : Phase) : bool :=
  match ph with InLoop | Drained => false | _ => true end.

(** An event of the consumer or of [Close]. *)
Definition isOutput (e : Event) : Prop :=
  match e with
  | EvStdout _ | EvFileWrite _ | EvCloseFile => True
  | _ => False
  end.


(** What a run of the process keeps true of the names of its input. *)
Record scanning (mode : Mode) (scanErr : option string) (lines : list string)
  (s : State) (pr : Process) : Prop := {
  scanning_extends : extends s (st (pool pr));
  scanning_names :
    spawns (since s (st (pool pr))) ++ option_list (waiting (pool pr))
      ++ omap (candidate mode) (input (pool pr))
    = omap (candidate mode) lines;
  scanning_done :
    phase pr ≠ InLoop →
    input (pool pr) = [] ∧ waiting (pool pr) = None ∧ tasks (pool pr) = [];
  scanning_returned :
    returned (phase pr) = true →
    ∃ before after,
      since s (st (pool pr)) = before ++ scanReport mode scanErr ++ after
      ∧ spawns before = omap (candidate mode) lines
      ∧ Forall isOutput after
}.

(** More concrete inputs. *)
Module SampleMore.

(** A resolver file whose scan fails after two lines, a resolver file
    of comments only, and a wordlist whose scan fails after one line. *)
Definition files2 (path : string) : FileResult :=
  if decide (path = "broken.txt") then
    Opened ["8.8.8.8"; "1.1.1.1"] (Some "bufio.Scanner: token too long")
  else if decide (path = "comments.txt") then
    Opened ["# nothing here"; ""; "  # nor here"] None
  else if decide (path = "words-broken.txt") then
    Opened ["www"] (Some "bufio.Scanner: token too long")
  else Sample.files1 path.

Definition env3 : Env := Sample.envOf Sample.zone1 files2.

(** The environment of [env3] with standard input a terminal. *)
Definition envTty : Env := {|
  Fqdn := Fqdn env3; IP_String := IP_String env3; Exchange := Exchange env3;
  Now_Unix := Now_Unix env3; Getpid := Getpid env3;
  os_Open := os_Open env3; os_OpenFile := os_OpenFile env3;
  stdin_piped := false; stdin_lines := []; flag_defaults := "  -d string"
|}.

(** The environment of [env3] with three lines piped in and an output
    file that cannot be opened. *)
Definition envPiped : Env := {|
  Fqdn := Fqdn env3; IP_String := IP_String env3; Exchange := Exchange env3;
  Now_Unix := Now_Unix env3; Getpid := Getpid env3;
  os_Open := os_Open env3;
  os_OpenFile := λ _, Some "open out.txt: permission denied";
  stdin_piped := true;
  stdin_lines := ["www.example.com"; "  "; "api.example.com"];
  flag_defaults := ""
|}.

Definition flagsOf (d w r resolvers o : string) (rate : Z) (noWildcard : bool)
  : Flags := {|
  flag_d := d; flag_w := w; flag_r := r; flag_resolvers := resolvers;
  flag_rate := rate; flag_t := 2; flag_no_wildcard := noWildcard;
  flag_v := false; flag_version := false; flag_o := o
|}.

Definition enumRate (rate : Z) : DNSEnumerator := {|
  Config := {| Resolvers := ["r2:53"]; RateLimit := rate;
               Timeout := 2000000000; WildcardCheck := true;
               Verbose := false; OutputFile := "" |};
  outputFile := false |}.

Definition enumFile : DNSEnumerator := {|
  Config := {| Resolvers := ["r2:53"]; RateLimit := 10;
               Timeout := 2000000000; WildcardCheck := false;
               Verbose := false; OutputFile := "out.txt" |};
  outputFile := true |}.

End SampleMore.

(* ===================================================================== *)
(** * The limiter in time *)
(* ===================================================================== *)

(** The channel of [time.Tick(period)] for a positive period, after the
    documentation of [time.NewTicker]: a tick falls every [period]
    nanoseconds from the call on; the channel keeps one tick for a
    receiver that is late, and a tick that falls while one is kept is
    dropped.  [tk_due] is the time at which the next tick falls,
    [tk_ready] says whether a tick is kept. *)
Record Ticker := {
  tk_due : Z;
  tk_ready : bool
}.

Definition newTicker (now period : Z) : Ticker :=
  {| tk_due := now + period; tk_ready := false |}.

(** The ticker when the clock has come to show [now]: if a tick was
    due, one is kept, and the next one is due at the first multiple of
    the period after [now]. *)
Definition elapse (period now : Z) (t : Ticker) : Ticker :=
  if decide (tk_due t ≤ now)
  then {| tk_due := tk_due t + period * ((now - tk_due t) `div` period + 1);
          tk_ready := true |}
  else t.

(** A receive from the channel takes the tick that is kept. *)
Definition takeTick (t : Ticker) : Ticker :=
  {| tk_due := tk_due t; tk_ready := false |}.

(** The goroutines of a dispatch loop, the clock in nanoseconds, and the
    limiter. *)
Record Timed := {
  tpool : Pool;
  clock : Z;
  ticker : Ticker
}.

Inductive TLabel :=
| TWait (nanos : Z)
| TAct (l : Label)
| TAdmit (now : Z) (id : nat) (name : string).

(** The dispatch loop in time.  Time passes, by any amount, between the
    steps of the goroutines ([tstep_wait]); the steps themselves are
    those of [step], and the receive from the limiter that starts a
    worker needs a tick in the channel and takes it ([tstep_admit]). *)
Inductive tstep (env : Env) (d : DNSEnumerator) (mode : Mode) (period : Z)
  : Timed → TLabel → Timed → Prop :=
| tstep_wait p now t nanos :
    0 ≤ nanos →
    tstep env d mode period
      {| tpool := p; clock := now; ticker := t |}
      (TWait nanos)
      {| tpool := p; clock := now + nanos;
         ticker := elapse period (now + nanos) t |}
| tstep_act p l p' now t :
    step env d mode period p l p' →
    dispatchOf l = None →
    tstep env d mode period
      {| tpool := p; clock := now; ticker := t |}
      (TAct l)
      {| tpool := p'; clock := now; ticker := t |}
| tstep_admit p id name p' now t :
    step env d mode period p (LDispatch id name) p' →
    tk_ready t = true →
    tstep env d mode period
      {| tpool := p; clock := now; ticker := t |}
      (TAdmit now id name)
      {| tpool := p'; clock := now; ticker := takeTick t |}.

Inductive trun (env : Env) (d : DNSEnumerator) (mode : Mode) (period : Z)
  : Timed → list TLabel → Timed → Prop :=
| trun_nil T : trun env d mode period T [] T
| trun_snoc T tr T' l T'' :
    trun env d mode period T tr T' →
    tstep env d mode period T' l T'' →
    trun env d mode period T (tr ++ [l]) T''.

(** A dispatch loop that starts at the time [now]: the limiter is made
    then. *)
Definition startTimed (lines : list string) (s : State) (now period : Z) : Timed :=
  {| tpool := startPool lines s; clock := now; ticker := newTicker now period |}.

Definition admitTime (l : TLabel) : option Z :=
  match l with TAdmit now _ _ => Some now | _ => None end.

(** The times at which names were admitted, oldest first. *)
Definition admissionTimes (tr : list TLabel) : list Z := omap admitTime tr.

(** A timed step without its time. *)
Definition untimed (l : TLabel) : option Label :=
  match l with
  | TWait _ => None
  | TAct l => Some l
  | TAdmit _ id name => Some (LDispatch id name)
  end.

(** The names admitted, oldest first. *)
Definition admitted (tr : list TLabel) : list string :=
  (omap dispatchOf (omap untimed tr)).*2.

(** Admissions at the rate of at most [rate] a second: between the first
    and the last of [n] admissions lie at least [(n - 1) / rate]
    seconds. *)
Definition spacedByRate (rate : Z) (times : list Z) : Prop :=
  ∀ t1 tn, head times = Some t1 → last times = Some tn →
    (Z.of_nat (length times) - 1) * 1000000000 ≤ rate * (tn - t1).

(** What a timed run keeps true of the limiter made at the time [now]
    and of the times of the admissions so far. *)
Record timely (now period : Z) (tr : list TLabel) (T : Timed) : Prop := {
  timely_due : clock T < tk_due (ticker T);
  timely_ready : tk_ready (ticker T) = true → tk_due (ticker T) - period ≤ clock T;
  timely_count :
    now + (Z.of_nat (length (admissionTimes tr))
           + (if tk_ready (ticker T) then 1 else 0) + 1) * period
    ≤ tk_due (ticker T);
  timely_behind : ∀ i t,
    admissionTimes tr !! i = Some t →
    t + (Z.of_nat (length (admissionTimes tr)) - 1 - Z.of_nat i
         + (if tk_ready (ticker T) then 1 else 0)) * period
    ≤ tk_due (ticker T);
  timely_first : ∀ k t,
    admissionTimes tr !! k = Some t → now + (Z.of_nat k + 1) * period ≤ t;
  timely_spaced : ∀ i j ti tj,
    (i < j)%nat →
    admissionTimes tr !! i = Some ti → admissionTimes tr !! j = Some tj →
    ti + (Z.of_nat j - Z.of_nat i - 1) * period ≤ tj
}.

(* ===================================================================== *)
(** * Logs only grow *)
(* ===================================================================== *)

Lemma extends_by s s' new : log s' = log s ++ new → extends s s' ∧ since s s' = new.
Proof.
  intros H. unfold extends, since. rewrite H, drop_app_length. done.
Qed.

Lemma extends_refl s : extends s s ∧ since s s = [].
Proof. apply extends_by. by rewrite app_nil_r. Qed.

Lemma extends_trans s s1 s2 :
  extends s s1 → extends s1 s2 →
  extends s s2 ∧ since s s2 = since s s1 ++ since s1 s2.
Proof.
  unfold extends. intros H1 H2. apply extends_by.
  rewrite H2, H1 at 1. by rewrite app_assoc.
Qed.

Lemma contacts_app l1 l2 : contacts (l1 ++ l2) = contacts l1 ++ contacts l2.
Proof. apply omap_app. Qed.

Lemma sends_app l1 l2 : sends (l1 ++ l2) = sends l1 ++ sends l2.
Proof. apply omap_app. Qed.

Lemma spawns_app l1 l2 : spawns (l1 ++ l2) = spawns l1 ++ spawns l2.
Proof. apply omap_app. Qed.

Lemma emit_extends e s : extends s (emit e s).2 ∧ since s (emit e s).2 = [e].
Proof. by apply extends_by. Qed.

Lemma quiet_refl s : quiet s s.
Proof. destruct (extends_refl s) as [He Hs]. split; rewrite ?Hs; done. Qed.

Lemma quiet_trans s s1 s2 : quiet s s1 → quiet s1 s2 → quiet s s2.
Proof.
  intros [He1 Hw1 Hr1 Hc1 Hn1 Hp1] [He2 Hw2 Hr2 Hc2 Hn2 Hp2].
  destruct (extends_trans _ _ _ He1 He2) as [He Hs].
  split; try done; try congruence.
  - by rewrite Hs, contacts_app, Hc1, Hc2.
  - by rewrite Hs, sends_app, Hn1, Hn2.
  - by rewrite Hs, spawns_app, Hp1, Hp2.
Qed.

Lemma Fprintf_Stderr_quiet text s : quiet s (Fprintf_Stderr text s).2.
Proof.
  destruct (emit_extends (EvStderr text) s) as [He Hs].
  unfold Fprintf_Stderr. split; rewrite ?Hs; done.
Qed.

Lemma when_quiet b (m : M unit) s :
  (∀ s, quiet s (m s).2) → quiet s (when b m s).2.
Proof. intros Hm. destruct b; simpl; [apply Hm | apply quiet_refl]. Qed.

(* ===================================================================== *)
(** * [Resolve]: one failover pass *)
(* ===================================================================== *)

Lemma answerIPs_aRecords env ips answer :
  answerIPs env ips answer = ips ++ aRecords env answer.
Proof.
  revert ips. induction answer as [|[a|t rd] rest IH]; intros ips; simpl.
  - by rewrite app_nil_r.
  - rewrite IH. by rewrite <- app_assoc.
  - apply IH.
Qed.

Lemma Resolve_loop_pass env d msg resolvers s :
  pass env msg resolvers s (Resolve_loop env d msg resolvers s).
Proof.
  revert s. induction resolvers as [|resolver rest IH]; intros s.
  - simpl. destruct (extends_refl s) as [He Hs].
    split; simpl; rewrite ?Hs; try done. constructor.
  - cbn [Resolve_loop]. unfold mbind, M_bind at 1. 
    unfold client_Exchange at 1.
    set (s1 := {| wildcardIPs := _ |}).
    destruct (extends_by s s1 [EvExchange resolver msg (Exchange env (log s) msg resolver)] eq_refl)
      as [He1 Hs1].
    destruct (Exchange env (log s) msg resolver) as [err|resp] eqn:Hx.
    + unfold mbind, M_bind.
      pose proof (when_quiet (Verbose (Config d))
        (Fprintf_Stderr ("Resolver " +:+ resolver +:+ " failed: " +:+ err +:+ nl)) s1
        (Fprintf_Stderr_quiet _)) as Hq.
      destruct (when _ _ s1) as [[] s2] eqn:Hw. simpl in Hq.
      destruct Hq as [He2 Hw2 Hr2 Hc2 Hn2 Hp2].
      specialize (IH s2). destruct IH as [He3 Hw3 Hr3 Hf3 Hn3 Hp3].
      destruct (extends_trans _ _ _ He1 He2) as [He12 Hs12].
      destruct (extends_trans _ _ _ He12 He3) as [He Hs].
      split; try done.
      * by rewrite Hw3, Hw2.
      * by rewrite Hr3, Hr2.
      * rewrite Hs, Hs12, !contacts_app, Hc2, Hs1. simpl. by constructor.
      * rewrite Hs, Hs12, !sends_app, Hn2, Hn3, Hs1. done.
      * rewrite Hs, Hs12, !spawns_app, Hp2, Hp3, Hs1. done.
    + destruct (decide (dns.Rcode resp ≠ dns.RcodeSuccess)) as [Hne|Heq]; simpl.
      * split; simpl; rewrite ?Hs1; try done. by constructor.
      * split; simpl; rewrite ?Hs1; try done.
        rewrite answerIPs_aRecords. simpl. constructor.
        by destruct (decide (dns.Rcode resp = dns.RcodeSuccess)).
Qed.

Lemma Resolve_pass env d domain s :
  pass env (question env domain) (Resolvers (Config d)) s (Resolve env d domain s).
Proof. apply Resolve_loop_pass. Qed.

Lemma failover_prefix env msg resolvers cs res :
  failover env msg resolvers cs res → c_resolver <$> cs `prefix_of` resolvers.
Proof.
  induction 1; simpl.
  - done.
  - by apply prefix_cons.
  - apply prefix_cons, prefix_nil.
  - apply prefix_cons, prefix_nil.
Qed.

Lemma failover_msg env msg resolvers cs res c :
  failover env msg resolvers cs res → c ∈ cs → c_msg c = msg.
Proof.
  induction 1; intros Hin.
  - by apply elem_of_nil in Hin.
  - apply elem_of_cons in Hin as [->|Hin]; auto.
  - by apply list_elem_of_singleton in Hin as ->.
  - by apply list_elem_of_singleton in Hin as ->.
Qed.

Lemma failover_before_last env msg resolvers cs res i c :
  failover env msg resolvers cs res →
  cs !! i = Some c → (S i < length cs)%nat → isTransportErr (c_res c).
Proof.
  intros H. revert i. induction H; intros i Hi Hlen; simpl in *; try lia.
  destruct i as [|i]; simpl in Hi.
  - injection Hi as <-. by eexists.
  - apply (IHfailover i); [done | lia].
Qed.

Lemma failover_decided env msg resolvers cs res :
  failover env msg resolvers cs res → decided env resolvers cs res.
Proof.
  unfold decided. induction 1; simpl.
  - done.
  - destruct cs as [|c cs'].
    + simpl in *. destruct IHfailover as [<- ->]. done.
    + rewrite last_cons_cons. 
      destruct (last (c :: cs')) as [[r m [e|resp]]|] eqn:Hl; try done.
      * destruct IHfailover as [<- ->]. done.
      * destruct IHfailover as [<- ->]. done.
  - by destruct (decide (dns.Rcode resp = dns.RcodeSuccess)).
  - by destruct (decide (dns.Rcode resp = dns.RcodeSuccess)).
Qed.

Lemma failover_all_errors env msg resolvers cs res :
  failover env msg resolvers cs res →
  Forall isTransportErr (c_res <$> cs) →
  c_resolver <$> cs = resolvers ∧ res = Err "all resolvers failed".
Proof.
  induction 1; simpl; intros Hall.
  - done.
  - apply Forall_cons in Hall as [_ Hall]. destruct (IHfailover Hall) as [<- ->]. done.
  - apply Forall_cons in Hall as [[err Herr] _]. done.
  - apply Forall_cons in Hall as [[err Herr] _]. done.
Qed.

Lemma failover_length env msg resolvers cs res :
  failover env msg resolvers cs res → (length cs ≤ length resolvers)%nat.
Proof.
  intros H%failover_prefix. apply prefix_length in H. by rewrite length_fmap in H.
Qed.

Lemma last_cons_ne {A} (x : A) (l : list A) : l ≠ [] → last (x :: l) = last l.
Proof. destruct l; [done | intros _; apply last_cons_cons]. Qed.

Lemma failover_error_cases env msg resolvers cs res :
  failover env msg resolvers cs res →
  ∀ err, res = Err err ↔
    (∃ c resp, last cs = Some c ∧ c_res c = ExchangeOk resp
               ∧ dns.Rcode resp ≠ dns.RcodeSuccess
               ∧ err = "DNS error: " +:+ fmt_int (dns.Rcode resp))
    ∨ (c_resolver <$> cs = resolvers
       ∧ Forall isTransportErr (c_res <$> cs)
       ∧ err = "all resolvers failed").
Proof.
  induction 1 as [|resolver rest e cs res H IH|resolver rest resp Hne|resolver rest resp Heq];
    intros err.
  - split.
    + intros [= <-]. right. by repeat split.
    + intros [(c & resp & Hl & _)|(_ & _ & ->)]; done.
  - rewrite (IH err). split.
    + intros [(c & resp & Hl & Hc & Hr & ->)|(<- & Hall & ->)].
      * left. exists c, resp. repeat split; try done.
        rewrite last_cons_ne; [done | by intros ->].
      * right. repeat split; try done. simpl. apply Forall_cons. split; [by eexists | done].
    + intros [(c & resp & Hl & Hc & Hr & ->)|(Hrs & Hall & ->)].
      * left. exists c, resp. repeat split; try done.
        destruct cs as [|c' cs']; [|by rewrite last_cons_cons in Hl].
        simpl in Hl. injection Hl as <-. done.
      * right. simpl in *. apply Forall_cons in Hall as [_ Hall].
        injection Hrs as <-. done.
  - split.
    + intros [= <-]. left. by eexists _, resp.
    + intros [(c & resp' & Hl & Hc & Hr & ->)|(_ & Hall & _)].
      * simpl in Hl. injection Hl as <-. simpl in Hc. by injection Hc as <-.
      * apply Forall_cons in Hall as [[e He] _]. done.
  - split.
    + done.
    + intros [(c & resp' & Hl & Hc & Hr & ->)|(_ & Hall & _)].
      * simpl in Hl. injection Hl as <-. simpl in Hc. injection Hc as <-. done.
      * apply Forall_cons in Hall as [[e He] _]. done.
Qed.

(** C1. [Resolve] tries the endpoints in list order with one A-record
    query each ([cs] is a prefix of the resolver list, every query being
    the A question for the name); every contact before the last one is a
    transport-level failure, so a completed exchange is the last contact
    and nothing is asked after it; and the result is decided by that
    completed exchange alone, or is "all resolvers failed" once the whole
    list failed, so that no transport error reaches the caller. *)
Theorem Resolve_failover_in_order env d domain s :
  let out := Resolve env d domain s in
  let cs := contacts (since s out.2) in
  c_resolver <$> cs `prefix_of` Resolvers (Config d)
  ∧ (∀ c, c ∈ cs →
       c_msg c = {| dns.Name := Fqdn env domain; dns.Qtype := dns.TypeA |})
  ∧ (∀ i c, cs !! i = Some c → (S i < length cs)%nat → isTransportErr (c_res c))
  ∧ (∀ i c, cs !! i = Some c → isCompleted (c_res c) → S i = length cs)
  ∧ match last cs with
    | Some {| c_res := ExchangeOk resp |} =>
        out.1 = if decide (dns.Rcode resp = dns.RcodeSuccess)
                then Ok (aRecords env (dns.Answer resp))
                else Err ("DNS error: " +:+ fmt_int (dns.Rcode resp))
    | _ =>
        c_resolver <$> cs = Resolvers (Config d)
        ∧ out.1 = Err "all resolvers failed"
    end.
Proof.
  intros out cs. destruct (Resolve_pass env d domain s) as [_ _ _ Hf _ _].
  fold out in Hf. fold cs in Hf. repeat split.
  - eapply failover_prefix, Hf.
  - intros c Hc. eapply failover_msg in Hf; [|done]. by rewrite Hf.
  - intros i c Hi Hlen. eapply failover_before_last; done.
  - intros i c Hi [resp Hresp].
    pose proof (lookup_lt_Some _ _ _ Hi) as Hlt.
    destruct (decide (S i = length cs)) as [|Hne]; [done|].
    destruct (failover_before_last _ _ _ _ _ i c Hf Hi) as [err Herr]; [lia|].
    congruence.
  - apply (failover_decided _ _ _ _ _ Hf).
Qed.

Lemma genuine_nil env old : genuine env old [].
Proof. intros l1 resolver msg res l2 H. by destruct l1. Qed.

Lemma genuine_cons env old e rest :
  match e with
  | EvExchange resolver msg res => res = Exchange env old msg resolver
  | _ => True
  end →
  genuine env (old ++ [e]) rest →
  genuine env old (e :: rest).
Proof.
  intros He Hrest l1 resolver msg res l2 H. destruct l1 as [|e' l1].
  - cbn in H. injection H as -> _. by rewrite app_nil_r.
  - cbn in H. injection H as -> ->.
    rewrite (Hrest l1 resolver msg res l2 eq_refl).
    by rewrite <- (assoc_L (++)).
Qed.

(** One turn of the loop of [Resolve] at an endpoint that fails at the
    transport level. *)
Lemma Resolve_loop_next env d msg resolver rest err s :
  Exchange env (log s) msg resolver = ExchangeErr err →
  ∃ s2,
    log s2 = log s ++ EvExchange resolver msg (ExchangeErr err)
                        :: (if Verbose (Config d)
                            then [EvStderr ("Resolver " +:+ resolver +:+ " failed: "
                                              +:+ err +:+ nl)]
                            else [])
    ∧ Resolve_loop env d msg (resolver :: rest) s = Resolve_loop env d msg rest s2.
Proof.
  intros Hx. cbn [Resolve_loop]. unfold mbind, M_bind, client_Exchange.
  rewrite Hx. destruct (Verbose (Config d)); cbn [when].
  - eexists. split; [|reflexivity]. cbn. by rewrite <- (assoc_L (++)).
  - eexists. split; [|reflexivity]. done.
Qed.

(** One turn of the loop of [Resolve] at an endpoint that replies. *)
Lemma Resolve_loop_reply env d msg resolver rest resp s :
  Exchange env (log s) msg resolver = ExchangeOk resp →
  let out := Resolve_loop env d msg (resolver :: rest) s in
  log out.2 = log s ++ [EvExchange resolver msg (ExchangeOk resp)]
  ∧ out.1 = if decide (dns.Rcode resp = dns.RcodeSuccess)
            then Ok (aRecords env (dns.Answer resp))
            else Err ("DNS error: " +:+ fmt_int (dns.Rcode resp)).
Proof.
  intros Hx. cbn [Resolve_loop]. unfold mbind, M_bind, client_Exchange.
  rewrite Hx. destruct (decide (dns.Rcode resp ≠ dns.RcodeSuccess)) as [Hne|Heq].
  - by rewrite decide_False.
  - rewrite decide_True by (by destruct (decide (dns.Rcode resp = dns.RcodeSuccess))).
    cbn. by rewrite answerIPs_aRecords.
Qed.

Lemma Resolve_loop_genuine env d msg resolvers s :
  genuine env (log s) (since s (Resolve_loop env d msg resolvers s).2).
Proof.
  revert s. induction resolvers as [|resolver rest IH]; intros s.
  - cbn. destruct (extends_refl s) as [_ ->]. apply genuine_nil.
  - destruct (Exchange env (log s) msg resolver) as [err|resp] eqn:Hx.
    + destruct (Resolve_loop_next env d msg resolver rest err s Hx) as (s2 & Hl & ->).
      destruct (extends_by s s2 _ Hl) as [He2 Hs2].
      pose proof (pass_extends _ _ _ _ _ (Resolve_loop_pass env d msg rest s2)) as He3.
      destruct (extends_trans _ _ _ He2 He3) as [_ ->]. rewrite Hs2.
      specialize (IH s2). rewrite Hl in IH. cbn [app].
      apply genuine_cons; [done|].
      destruct (Verbose (Config d)).
      * cbn [app]. apply genuine_cons; [done|].
        by rewrite <- !(assoc_L (++)).
      * cbn [app]. exact IH.
    + destruct (Resolve_loop_reply env d msg resolver rest resp s Hx) as [Hl _].
      destruct (extends_by s _ _ Hl) as [_ ->].
      apply genuine_cons; [done | apply genuine_nil].
Qed.

Lemma contacts_verbose_line (b : bool) text :
  contacts (if b then [EvStderr text] else []) = [].
Proof. by destruct b. Qed.

(** The endpoints before the first one that replies all fail, and the
    reply decides: no endpoint after it is asked. *)
Lemma Resolve_loop_stops env d msg r1 r r2 resp s :
  (∀ l r', r' ∈ r1 → isTransportErr (Exchange env (log s ++ l) msg r')) →
  (∀ l, Exchange env (log s ++ l) msg r = ExchangeOk resp) →
  let out := Resolve_loop env d msg (r1 ++ r :: r2) s in
  c_resolver <$> contacts (since s out.2) = r1 ++ [r]
  ∧ out.1 = if decide (dns.Rcode resp = dns.RcodeSuccess)
            then Ok (aRecords env (dns.Answer resp))
            else Err ("DNS error: " +:+ fmt_int (dns.Rcode resp)).
Proof.
  revert s. induction r1 as [|r' r1 IH]; intros s Hfail Hok; cbv zeta.
  - cbn [app]. specialize (Hok []). rewrite app_nil_r in Hok.
    destruct (Resolve_loop_reply env d msg r r2 resp s Hok) as [Hl Hres].
    destruct (extends_by s _ _ Hl) as [_ ->]. done.
  - cbn [app].
    destruct (Hfail [] r') as [err Hx]; [left|]. rewrite app_nil_r in Hx.
    destruct (Resolve_loop_next env d msg r' (r1 ++ r :: r2) err s Hx) as (s2 & Hl & ->).
    destruct (extends_by s s2 _ Hl) as [He2 Hs2].
    pose proof (pass_extends _ _ _ _ _
                  (Resolve_loop_pass env d msg (r1 ++ r :: r2) s2)) as He3.
    destruct (extends_trans _ _ _ He2 He3) as [_ ->].
    destruct (IH s2) as [Hc Hres].
    { intros l r'' Hin. rewrite Hl, <- (assoc_L (++)). apply Hfail. by right. }
    { intros l. rewrite Hl, <- (assoc_L (++)). apply Hok. }
    split; [|done].
    rewrite contacts_app, fmap_app, Hc, Hs2.
    change (contacts (?e :: ?l)) with (contacts [e] ++ contacts l).
    by rewrite contacts_verbose_line.
Qed.

(** When every endpoint fails, every endpoint is asked. *)
Lemma Resolve_loop_exhausts env d msg resolvers s :
  (∀ l r, r ∈ resolvers → isTransportErr (Exchange env (log s ++ l) msg r)) →
  let out := Resolve_loop env d msg resolvers s in
  c_resolver <$> contacts (since s out.2) = resolvers
  ∧ out.1 = Err "all resolvers failed".
Proof.
  revert s. induction resolvers as [|r' rest IH]; intros s Hfail; cbv zeta.
  - cbn. by destruct (extends_refl s) as [_ ->].
  - destruct (Hfail [] r') as [err Hx]; [left|]. rewrite app_nil_r in Hx.
    destruct (Resolve_loop_next env d msg r' rest err s Hx) as (s2 & Hl & ->).
    destruct (extends_by s s2 _ Hl) as [He2 Hs2].
    pose proof (pass_extends _ _ _ _ _ (Resolve_loop_pass env d msg rest s2)) as He3.
    destruct (extends_trans _ _ _ He2 He3) as [_ ->].
    destruct (IH s2) as [Hc Hres].
    { intros l r'' Hin. rewrite Hl, <- (assoc_L (++)). apply Hfail. by right. }
    split; [|done].
    rewrite contacts_app, fmap_app, Hc, Hs2.
    change (contacts (?e :: ?l)) with (contacts [e] ++ contacts l).
    by rewrite contacts_verbose_line.
Qed.

(** C2. [Resolve] makes at most one pass over the endpoint list, and it
    returns an error in exactly two cases: its last contact is a
    completed exchange with a response code other than success, the
    error being that code's; or every endpoint of the list failed at the
    transport level, the error being "all resolvers failed".  The
    contacts are exchanges with the environment's resolvers, each asked
    the A question for the name; a reply with a code other than
    success is the last contact and gives the error of its code.  So
    when the endpoints before some endpoint fail and that endpoint
    replies with such a code, [Resolve] asks exactly the endpoints up to
    it and returns the code's error; and when every endpoint fails, it
    asks each of them once, in order, and returns "all resolvers
    failed". *)
Theorem Resolve_error_cases env d domain s :
  let out := Resolve env d domain s in
  let cs := contacts (since s out.2) in
  let msg := question env domain in
  (length cs ≤ length (Resolvers (Config d)))%nat
  ∧ c_resolver <$> cs `prefix_of` Resolvers (Config d)
  ∧ (∀ err, out.1 = Err err ↔
      (∃ c resp, last cs = Some c ∧ c_res c = ExchangeOk resp
                 ∧ dns.Rcode resp ≠ dns.RcodeSuccess
                 ∧ err = "DNS error: " +:+ fmt_int (dns.Rcode resp))
      ∨ (c_resolver <$> cs = Resolvers (Config d)
         ∧ Forall isTransportErr (c_res <$> cs)
         ∧ err = "all resolvers failed"))
  ∧ genuine env (log s) (since s out.2)
  ∧ (∀ c, c ∈ cs → c_msg c = msg)
  ∧ (∀ i c resp,
       cs !! i = Some c → c_res c = ExchangeOk resp →
       dns.Rcode resp ≠ dns.RcodeSuccess →
       S i = length cs
       ∧ out.1 = Err ("DNS error: " +:+ fmt_int (dns.Rcode resp)))
  ∧ (∀ r1 r r2 resp,
       Resolvers (Config d) = r1 ++ r :: r2 →
       (∀ l r', r' ∈ r1 → isTransportErr (Exchange env (log s ++ l) msg r')) →
       (∀ l, Exchange env (log s ++ l) msg r = ExchangeOk resp) →
       dns.Rcode resp ≠ dns.RcodeSuccess →
       out.1 = Err ("DNS error: " +:+ fmt_int (dns.Rcode resp))
       ∧ c_resolver <$> cs = r1 ++ [r])
  ∧ ((∀ l r, r ∈ Resolvers (Config d) →
             isTransportErr (Exchange env (log s ++ l) msg r)) →
     out.1 = Err "all resolvers failed"
     ∧ c_resolver <$> cs = Resolvers (Config d)).
Proof.
  intros out cs msg. destruct (Resolve_pass env d domain s) as [_ _ _ Hf _ _].
  fold out in Hf. fold cs in Hf. fold msg in Hf.
  split; [eapply failover_length, Hf|].
  split; [eapply failover_prefix, Hf|].
  split; [eapply failover_error_cases, Hf|].
  split; [apply Resolve_loop_genuine|].
  split; [intros c Hc; eapply failover_msg; done|].
  split; [|split].
  - intros i c resp Hi Hres Hcode.
    assert (S i = length cs) as Hlast.
    { pose proof (lookup_lt_Some _ _ _ Hi) as Hlt.
      destruct (decide (S i = length cs)) as [|Hne]; [done|].
      destruct (failover_before_last _ _ _ _ _ i c Hf Hi) as [err Herr]; [lia|].
      congruence. }
    split; [done|].
    pose proof (failover_decided _ _ _ _ _ Hf) as Hd. unfold decided in Hd.
    assert (last cs = Some c) as Hl.
    { rewrite last_lookup. rewrite <- Hlast. exact Hi. }
    rewrite Hl in Hd. destruct c as [r m res]. cbn in Hres. subst res.
    by rewrite decide_False in Hd.
  - intros r1 r r2 resp Hrs Hfail Hok Hcode.
    destruct (Resolve_loop_stops env d msg r1 r r2 resp s Hfail Hok) as [Hc Hres].
    subst cs out. unfold Resolve. fold msg. rewrite Hrs.
    split; [by rewrite Hres, decide_False | done].
  - intros Hfail.
    destruct (Resolve_loop_exhausts env d msg (Resolvers (Config d)) s Hfail) as [Hc Hres].
    done.
Qed.

(* ===================================================================== *)
(** * The wildcard filter and the worker *)
(* ===================================================================== *)

Lemma anyWildcard_true m ips :
  anyWildcard m ips = true ↔ ∃ ip, ip ∈ ips ∧ m !! ip = Some true.
Proof.
  induction ips as [|ip rest IH]; simpl.
  - split; [done | intros (ip & Hin & _); by apply elem_of_nil in Hin].
  - unfold map_index. destruct (m !! ip) as [[]|] eqn:Hm; simpl.
    + split; [|done]. intros _. exists ip. split; [left | done].
    + rewrite IH. split.
      * intros (ip' & Hin & Hip). exists ip'. split; [by right | done].
      * intros (ip' & Hin & Hip). apply elem_of_cons in Hin as [->|Hin]; [congruence|].
        by exists ip'.
    + rewrite IH. split.
      * intros (ip' & Hin & Hip). exists ip'. split; [by right | done].
      * intros (ip' & Hin & Hip). apply elem_of_cons in Hin as [->|Hin]; [congruence|].
        by exists ip'.
Qed.

Lemma isWildcardResponse_true ips s :
  (isWildcardResponse ips s).1 = true ↔
  ∃ ip, ip ∈ ips ∧ wildcardIPs s !! ip = Some true.
Proof.
  unfold isWildcardResponse. simpl.
  destruct (decide (size (wildcardIPs s) = 0%nat)) as [Hz|Hnz].
  - apply map_size_empty_iff in Hz. rewrite Hz. split; [done|].
    intros (ip & _ & Hip). by rewrite lookup_empty in Hip.
  - apply anyWildcard_true.
Qed.

Lemma isWildcardResponse_state ips s : (isWildcardResponse ips s).2 = s.
Proof. done. Qed.

Lemma isWildcardResponse_same ips s s' :
  wildcardIPs s = wildcardIPs s' →
  (isWildcardResponse ips s).1 = (isWildcardResponse ips s').1.
Proof. unfold isWildcardResponse. simpl. by intros ->. Qed.

Lemma flagged_spec d ips s :
  flagged d ips s = (WildcardCheck (Config d) && (isWildcardResponse ips s).1, s).
Proof. unfold flagged. by destruct (WildcardCheck (Config d)). Qed.

(** What [deliver] leaves behind. *)
Lemma deliver_spec d domain r s :
  let s' := (deliver d domain r s).2 in
  extends s s'
  ∧ wildcardIPs s' = wildcardIPs s
  ∧ contacts (since s s') = []
  ∧ spawns (since s s') = []
  ∧ results s' = results s ++ sends (since s s')
  ∧ sends (since s s') =
      match r with
      | Err _ => []
      | Ok ips =>
          if WildcardCheck (Config d) && (isWildcardResponse ips s).1 then []
          else [resultLine domain ips]
      end.
Proof.
  destruct r as [ips|err]; cbn [deliver]; cbv zeta.
  - unfold mbind, M_bind. rewrite flagged_spec.
    destruct (WildcardCheck (Config d) && (isWildcardResponse ips s).1).
    + match goal with |- context [when ?b ?m s] =>
        destruct (when_quiet b m s (Fprintf_Stderr_quiet _)) as [He Hw Hr Hc Hn Hp] end.
      rewrite Hn, app_nil_r. by repeat split.
    + destruct (extends_by s (send (resultLine domain ips) s).2
                  [EvSend (resultLine domain ips)] eq_refl) as [He Hs].
      unfold resultLine in *. rewrite Hs. by repeat split.
  - match goal with |- context [when ?b ?m s] =>
      destruct (when_quiet b m s (Fprintf_Stderr_quiet _)) as [He Hw Hr Hc Hn Hp] end.
    rewrite Hn, app_nil_r. by repeat split.
Qed.

(** What a whole [ProcessDomain] leaves behind. *)
Lemma ProcessDomain_spec env d domain s :
  let s' := (ProcessDomain env d domain s).2 in
  extends s s'
  ∧ wildcardIPs s' = wildcardIPs s
  ∧ spawns (since s s') = []
  ∧ results s' = results s ++ sends (since s s')
  ∧ sends (since s s') =
      match (Resolve env d domain s).1 with
      | Err _ => []
      | Ok ips =>
          if WildcardCheck (Config d) && (isWildcardResponse ips s).1 then []
          else [resultLine domain ips]
      end.
Proof.
  unfold ProcessDomain, mbind, M_bind.
  destruct (Resolve_pass env d domain s) as [He1 Hw1 Hr1 _ Hn1 Hp1].
  destruct (Resolve env d domain s) as [r s1]. cbn [fst snd] in *.
  destruct (deliver_spec d domain r s1) as (He2 & Hw2 & _ & Hp2 & Hr2 & Hn2).
  destruct (extends_trans _ _ _ He1 He2) as [He Hs].
  rewrite Hs, sends_app, spawns_app, Hn1, Hp1, Hp2, Hr2, Hr1, Hw2, Hw1, Hn2.
  cbn [app]. repeat split; try done.
  destruct r as [ips|err]; [|done].
  by rewrite (isWildcardResponse_same ips s1 s).
Qed.

(** C4. A worker sends nothing when [Resolve] returns an error, nothing
    when wildcard checking is enabled and the address set is flagged, and
    otherwise exactly the line "<name> [<ip1>, <ip2>, ...]", which joins
    the [results] channel; a name resolved to no address at all still
    sends "<name> []". *)
Theorem ProcessDomain_emits env d domain s :
  sent env d domain s =
    match (Resolve env d domain s).1 with
    | Err _ => []
    | Ok ips =>
        if WildcardCheck (Config d) && (isWildcardResponse ips s).1 then []
        else [domain +:+ " [" +:+ Join ips ", " +:+ "]"]
    end
  ∧ results (ProcessDomain env d domain s).2 = results s ++ sent env d domain s
  ∧ ((Resolve env d domain s).1 = Ok [] → sent env d domain s = [domain +:+ " []"]).
Proof.
  destruct (ProcessDomain_spec env d domain s) as (_ & _ & _ & Hr & Hn).
  unfold sent. split; [done | split; [done|]].
  intros Hnil. rewrite Hn, Hnil.
  replace ((isWildcardResponse [] s).1) with false.
  - by rewrite andb_false_r.
  - unfold isWildcardResponse. simpl. by destruct (decide _).
Qed.

Lemma aRecords_no_A env answer :
  (∀ rr, rr ∈ answer → ∀ a, rr ≠ dns.A a) → aRecords env answer = [].
Proof.
  induction answer as [|[a|t rd] rest IH]; intros Hno; simpl.
  - done.
  - exfalso. eapply (Hno (dns.A a)); [left | reflexivity].
  - apply IH. intros rr Hin. apply Hno. by right.
Qed.

(** C10. When the exchange that ends the pass has the success code,
    [Resolve] returns, without error, exactly the addresses of the A
    records of its answer section, in answer order ([aRecords]); an
    answer section without any A record gives the empty list, and the
    worker then sends the line "<name> []". *)
Theorem Resolve_success_addresses env d domain s c resp :
  last (contacts (since s (Resolve env d domain s).2)) = Some c →
  c_res c = ExchangeOk resp →
  dns.Rcode resp = dns.RcodeSuccess →
  (Resolve env d domain s).1 = Ok (aRecords env (dns.Answer resp))
  ∧ ((∀ rr, rr ∈ dns.Answer resp → ∀ a, rr ≠ dns.A a) →
     (Resolve env d domain s).1 = Ok []
     ∧ sent env d domain s = [domain +:+ " []"]).
Proof.
  intros Hlast Hc Hcode.
  destruct (Resolve_pass env d domain s) as [_ _ _ Hf _ _].
  apply failover_decided in Hf. unfold decided in Hf. rewrite Hlast in Hf.
  destruct c as [r m res]. simpl in Hc. subst res.
  rewrite decide_True in Hf by done.
  split; [done|]. intros Hno.
  rewrite (aRecords_no_A env _ Hno) in Hf. split; [done|].
  destruct (ProcessDomain_spec env d domain s) as (_ & _ & _ & _ & Hn).
  unfold sent. rewrite Hn, Hf.
  replace ((isWildcardResponse [] s).1) with false.
  - by rewrite andb_false_r.
  - unfold isWildcardResponse. simpl. by destruct (decide _).
Qed.


(* ===================================================================== *)
(** * The wildcard detector *)
(* ===================================================================== *)

Lemma failover_ok env msg resolvers cs res ips :
  failover env msg resolvers cs res → res = Ok ips →
  ∃ c resp, c ∈ cs ∧ c_res c = ExchangeOk resp
            ∧ dns.Rcode resp = dns.RcodeSuccess
            ∧ ips = aRecords env (dns.Answer resp).
Proof.
  induction 1 as [|resolver rest e cs res H IH|resolver rest resp Hne|resolver rest resp Heq];
    intros Hres; try done.
  - destruct (IH Hres) as (c & resp & Hin & Hc & Hr & Hips).
    exists c, resp. repeat split; try done. by right.
  - injection Hres as <-.
    exists {| c_resolver := resolver; c_msg := msg; c_res := ExchangeOk resp |}, resp.
    repeat split; try done. left.
Qed.

Lemma failover_completed env msg resolvers cs res c resp :
  failover env msg resolvers cs res → c ∈ cs → c_res c = ExchangeOk resp →
  dns.Rcode resp = dns.RcodeSuccess →
  res = Ok (aRecords env (dns.Answer resp)).
Proof.
  induction 1 as [|resolver rest e cs res H IH|resolver rest resp' Hne|resolver rest resp' Heq];
    intros Hin Hc Hr.
  - by apply elem_of_nil in Hin.
  - apply elem_of_cons in Hin as [->|Hin]; [done | auto].
  - apply list_elem_of_singleton in Hin as ->. simpl in Hc. by injection Hc as ->.
  - apply list_elem_of_singleton in Hin as ->. simpl in Hc. by injection Hc as ->.
Qed.

Lemma answered_app env l1 l2 ip :
  answered env (l1 ++ l2) ip ↔ answered env l1 ip ∨ answered env l2 ip.
Proof.
  unfold answered. split.
  - intros (c & resp & Hin & H). rewrite contacts_app in Hin.
    apply elem_of_app in Hin as [Hin|Hin]; [left | right]; by exists c, resp.
  - intros [(c & resp & Hin & H)|(c & resp & Hin & H)]; exists c, resp;
      rewrite contacts_app, elem_of_app; auto.
Qed.

Lemma answered_nil env l ip : contacts l = [] → ¬ answered env l ip.
Proof. intros Hl (c & resp & Hin & _). rewrite Hl in Hin. by apply elem_of_nil in Hin. Qed.

(** An address is answered in the exchanges of one [Resolve] exactly when
    that [Resolve] succeeds and returns it. *)
Lemma Resolve_answered env d name s ip :
  answered env (since s (Resolve env d name s).2) ip
  ↔ ∃ ips, (Resolve env d name s).1 = Ok ips ∧ ip ∈ ips.
Proof.
  destruct (Resolve_pass env d name s) as [_ _ _ Hf _ _]. split.
  - intros (c & resp & Hin & Hc & Hcode & Hip).
    exists (aRecords env (dns.Answer resp)). split; [|done].
    by eapply failover_completed.
  - intros (ips & Hres & Hip).
    destruct (failover_ok _ _ _ _ _ ips Hf Hres) as (c & resp & Hin & Hc & Hcode & ->).
    by exists c, resp.
Qed.

Lemma foldl_insert_lookup (m : gmap string bool) ips ip :
  foldl (λ m ip, <[ip := true]> m) m ips !! ip
  = if decide (ip ∈ ips) then Some true else m !! ip.
Proof.
  revert m. induction ips as [|ip' rest IH]; intros m; simpl.
  - done.
  - rewrite IH. destruct (decide (ip ∈ rest)) as [Hin|Hnin].
    + rewrite decide_True; [done | by right].
    + destruct (decide (ip' = ip)) as [->|Hne].
      * rewrite lookup_insert_eq. rewrite decide_True; [done | left].
      * rewrite lookup_insert_ne by done.
        rewrite decide_False; [done|]. intros [?|?]%elem_of_cons; congruence.
Qed.


Lemma recordIPs_spec ips s :
  let s' := (recordIPs ips s).2 in
  log s' = log s ∧ results s' = results s
  ∧ ∀ ip, wildcardIPs s' !! ip
          = if decide (ip ∈ ips) then Some true else wildcardIPs s !! ip.
Proof. simpl. repeat split. apply foldl_insert_lookup. Qed.

Lemma since_same_log s s1 s2 : log s1 = log s2 → since s s1 = since s s2.
Proof. unfold since. by intros ->. Qed.

Lemma extends_same_log s s1 s2 : log s1 = log s2 → extends s s1 → extends s s2.
Proof. unfold extends, since. by intros ->. Qed.

Lemma probe_loop_probed env d domain subs s :
  probed env domain subs s (probe_loop env d domain subs s).2.
Proof.
  revert s. induction subs as [|sub rest IH]; intros s.
  - simpl. destruct (extends_refl s) as [He Hs].
    split; rewrite ?Hs; try done.
    + intros c Hc. by apply elem_of_nil in Hc.
    + intros ip. right. split; [by apply answered_nil | done].
  - cbn [probe_loop]. unfold mbind, M_bind.
    destruct (Resolve_pass env d (sub +:+ "." +:+ domain) s) as [He1 Hw1 Hr1 Hf1 Hn1 Hp1].
    destruct (Resolve env d (sub +:+ "." +:+ domain) s) as [r s1]. cbn [fst snd] in *.
    set (m := match r with
              | Ok ips => when (bool_decide (0 < length ips)%nat) (recordIPs ips)
              | Err _ => mret tt
              end).
    assert (log (m s1).2 = log s1 ∧ results (m s1).2 = results s1
            ∧ ∀ ip, answered env (since s s1) ip ∧ wildcardIPs (m s1).2 !! ip = Some true
                    ∨ ¬ answered env (since s s1) ip
                      ∧ wildcardIPs (m s1).2 !! ip = wildcardIPs s !! ip)
      as (Hl2 & Hr2 & Hlk2).
    { subst m. destruct r as [ips|err].
      - destruct (failover_ok _ _ _ _ _ ips Hf1 eq_refl) as (c & resp & Hin & Hc & Hcode & ->).
        assert (∀ ip, answered env (since s s1) ip ↔ ip ∈ aRecords env (dns.Answer resp))
          as Hans.
        { intros ip. split.
          - intros (c' & resp' & Hin' & Hc' & Hcode' & Hip).
            pose proof (failover_completed _ _ _ _ _ _ _ Hf1 Hin' Hc' Hcode') as Heq.
            injection Heq as ->. done.
          - intros Hip. by exists c, resp. }
        destruct (bool_decide (0 < length (aRecords env (dns.Answer resp)))%nat) eqn:Hlen.
        + cbn [when]. destruct (recordIPs_spec (aRecords env (dns.Answer resp)) s1)
            as (Hl & Hr & Hm).
          repeat split; try done. intros ip. rewrite Hm, Hans, Hw1.
          destruct (decide (ip ∈ aRecords env (dns.Answer resp))); [left | right]; by split.
        + cbn [when]. apply bool_decide_eq_false in Hlen.
          repeat split; try done. intros ip. right. rewrite Hans.
          split; [|by simpl; rewrite Hw1].
          intros Hip. apply Hlen. destruct (aRecords env (dns.Answer resp)); simpl.
          * by apply elem_of_nil in Hip.
          * lia.
      - repeat split; try done. intros ip. right. split; [|by simpl; rewrite Hw1].
        intros (c & resp & Hin & Hc & Hcode & Hip).
        by pose proof (failover_completed _ _ _ _ _ _ _ Hf1 Hin Hc Hcode). }
    destruct (m s1) as [[] s2]. cbn [fst snd] in *.
    destruct (IH s2) as [He3 Hr3 Hn3 Hp3 Hnm3 Hlk3].
    assert (extends s s2) as He2 by (by apply (extends_same_log s s1 s2)).
    assert (since s s2 = since s s1) as Hs2 by (by apply since_same_log).
    destruct (extends_trans _ _ _ He2 He3) as [He Hs].
    split; try done.
    + by rewrite Hr3, Hr2.
    + by rewrite Hs, sends_app, Hs2, Hn1, Hn3.
    + by rewrite Hs, spawns_app, Hs2, Hp1, Hp3.
    + intros c Hc. rewrite Hs, contacts_app, Hs2 in Hc.
      apply elem_of_app in Hc as [Hc|Hc].
      * exists sub. split; [left|]. by eapply failover_msg.
      * destruct (Hnm3 c Hc) as (sub' & Hin & Hq). exists sub'. split; [by right | done].
    + intros ip. rewrite Hs, Hs2, answered_app.
      destruct (Hlk3 ip) as [[Ha3 Hv3]|[Hna3 Hv3]].
      * left. auto.
      * destruct (Hlk2 ip) as [[Ha2 Hv2]|[Hna2 Hv2]].
        -- left. split; [auto | congruence].
        -- right. split; [tauto | congruence].
Qed.

Lemma probed_quiet env domain subs s s1 s2 :
  probed env domain subs s s1 → quiet s1 s2 → probed env domain subs s s2.
Proof.
  intros [He1 Hr1 Hn1 Hp1 Hnm1 Hlk1] [He2 Hw2 Hr2 Hc2 Hn2 Hp2].
  destruct (extends_trans _ _ _ He1 He2) as [He Hs].
  assert (∀ ip, answered env (since s s2) ip ↔ answered env (since s s1) ip) as Hans.
  { intros ip. rewrite Hs, answered_app. pose proof (answered_nil env _ ip Hc2). tauto. }
  split; try done.
  - congruence.
  - by rewrite Hs, sends_app, Hn1, Hn2.
  - by rewrite Hs, spawns_app, Hp1, Hp2.
  - intros c. rewrite Hs, contacts_app, Hc2, app_nil_r. apply Hnm1.
  - intros ip. rewrite Hans, Hw2. apply Hlk1.
Qed.

Lemma DetectWildcard_probed env d domain s :
  WildcardCheck (Config d) = true →
  probed env domain (testSubdomains env s).1 s (DetectWildcard env d domain s).2.
Proof.
  intros Hwc. unfold DetectWildcard. rewrite Hwc. cbn [negb].
  unfold mbind, M_bind. cbn [testSubdomains].
  match goal with |- context [probe_loop env d domain ?subs s] =>
    pose proof (probe_loop_probed env d domain subs s) as Hp;
    destruct (probe_loop env d domain subs s) as [[] s1] end.
  cbn [fst snd] in *. eapply probed_quiet; [exact Hp|].
  unfold len_wildcardIPs. apply when_quiet. intros s2.
  unfold getWildcardIPs. apply Fprintf_Stderr_quiet.
Qed.

Lemma DetectWildcard_off env d domain s :
  WildcardCheck (Config d) = false → DetectWildcard env d domain s = (tt, s).
Proof. intros Hwc. unfold DetectWildcard. by rewrite Hwc. Qed.

Lemma probed_dom env domain subs s s' ip :
  probed env domain subs s s' →
  ip ∈ WildcardIPSet s' ↔ ip ∈ WildcardIPSet s ∨ answered env (since s s') ip.
Proof.
  intros [_ _ _ _ _ Hlk]. unfold WildcardIPSet. rewrite !elem_of_dom.
  destruct (Hlk ip) as [[Ha Hv]|[Hna Hv]]; rewrite Hv.
  - split; [by right | by eexists].
  - split; [by left | intros [?|?]; done].
Qed.

Lemma DetectWildcard_quiet_run env d domain s :
  let s' := (DetectWildcard env d domain s).2 in
  extends s s' ∧ results s' = results s
  ∧ sends (since s s') = [] ∧ spawns (since s s') = []
  ∧ WildcardIPSet s ⊆ WildcardIPSet s'
  ∧ (wildcard_wf s → wildcard_wf s').
Proof.
  destruct (WildcardCheck (Config d)) eqn:Hwc.
  - pose proof (DetectWildcard_probed env d domain s Hwc) as Hp.
    pose proof Hp as [He Hr Hn Hsp _ Hlk]. cbv zeta. repeat split; try done.
    + intros ip Hip. apply (probed_dom _ _ _ _ _ ip Hp). by left.
    + intros Hwf ip b Hb. destruct (Hlk ip) as [[_ Hv]|[_ Hv]]; rewrite Hv in Hb.
      * by injection Hb.
      * by eapply Hwf.
  - rewrite (DetectWildcard_off env d domain s Hwc). cbv zeta. cbn [snd].
    destruct (extends_refl s) as [He ->]. done.
Qed.

(** In a state that holds only [true] entries, a probe keeps every
    entry. *)
Lemma DetectWildcard_keeps env d domain s :
  wildcard_wf s →
  wildcardIPs s ⊆ wildcardIPs (DetectWildcard env d domain s).2.
Proof.
  intros Hwf. destruct (WildcardCheck (Config d)) eqn:Hwc.
  - destruct (DetectWildcard_probed env d domain s Hwc) as [_ _ _ _ _ Hlk].
    apply map_subseteq_spec. intros ip b Hb.
    destruct (Hlk ip) as [[_ Hv]|[_ Hv]]; rewrite Hv; [|done].
    by rewrite (Hwf ip b Hb).
  - by rewrite (DetectWildcard_off env d domain s Hwc).
Qed.

Lemma step_wildcard_grows env d mode period p l p' :
  step env d mode period p l p' → WildcardIPSet (st p) ⊆ WildcardIPSet (st p').
Proof.
  destruct 1; cbn [st].
  - done.
  - destruct mode as [|dom]; [|done]. unfold probeBefore, streamingProbe.
    destruct (WildcardCheck (Config d)); [|done]. cbn [when].
    destruct (baseDomain name); [|done].
    apply DetectWildcard_quiet_run.
  - done.
  - unfold WildcardIPSet. by rewrite (pass_wildcardIPs _ _ _ _ _ (Resolve_pass env d name s)).
  - unfold WildcardIPSet. destruct (deliver_spec d name r s) as (_ & -> & _). done.
  - unfold WriteOutput, mbind, M_bind, WildcardIPSet. cbn [emit].
    by destruct (outputFile d).
Qed.

(** C7. [DetectWildcard] only adds to the WildcardIPSet.  After a call,
    an address is in the set exactly when it was there before or one of
    the call's exchanges was completed with the success code and an A
    record for it; every exchange of the call asks for one of the three
    probe names (a label made of the clock and the process id, and two
    fixed labels, each put before the base domain), so an address is
    added exactly when a probe's lookup succeeded and returned it.  With
    wildcard checking off nothing is asked and nothing changes.  No other
    operation of the enumerator removes from the set: lookups, the
    filter, the worker and the sink leave it as it is, and no step of a
    dispatch loop makes it smaller. *)
Theorem DetectWildcard_only_adds env d domain s :
  let s' := (DetectWildcard env d domain s).2 in
  let probes := (testSubdomains env s).1 in
  WildcardIPSet s ⊆ WildcardIPSet s'
  ∧ (∀ ip, ip ∈ WildcardIPSet s' ↔
           ip ∈ WildcardIPSet s ∨ answered env (since s s') ip)
  ∧ (∀ c, c ∈ contacts (since s s') →
          ∃ sub, sub ∈ probes ∧ c_msg c = question env (sub +:+ "." +:+ domain))
  ∧ probes = [ "rand" +:+ fmt_int (Now_Unix env (log s)) +:+ "-"
                 +:+ fmt_int (Getpid env);
               "probably-does-not-exist-123";
               "test-subdomain-wildcard-456" ]
  ∧ (WildcardCheck (Config d) = false → s' = s)
  ∧ (∀ name, wildcardIPs (Resolve env d name s).2 = wildcardIPs s)
  ∧ (∀ ips, (isWildcardResponse ips s).2 = s)
  ∧ (∀ name, wildcardIPs (ProcessDomain env d name s).2 = wildcardIPs s)
  ∧ (∀ line, wildcardIPs (WriteOutput d line s).2 = wildcardIPs s)
  ∧ (∀ mode period p l p',
       step env d mode period p l p' →
       WildcardIPSet (st p) ⊆ WildcardIPSet (st p')).
Proof.
  intros s' probes.
  split; [apply DetectWildcard_quiet_run|].
  split; [|split; [|split; [done|split; [|split; [|split; [done|split; [|split]]]]]]].
  - intros ip. subst s'. destruct (WildcardCheck (Config d)) eqn:Hwc.
    + eapply probed_dom, DetectWildcard_probed, Hwc.
    + rewrite (DetectWildcard_off env d domain s Hwc). cbn [snd].
      destruct (extends_refl s) as [_ Hs].
      pose proof (answered_nil env (since s s) ip) as Hna. rewrite Hs in *.
      specialize (Hna eq_refl). tauto.
  - intros c. subst s'. destruct (WildcardCheck (Config d)) eqn:Hwc.
    + apply (probed_names _ _ _ _ _ (DetectWildcard_probed env d domain s Hwc)).
    + rewrite (DetectWildcard_off env d domain s Hwc). cbn [snd].
      destruct (extends_refl s) as [_ ->]. intros Hc. by apply elem_of_nil in Hc.
  - intros Hwc. subst s'. by rewrite (DetectWildcard_off env d domain s Hwc).
  - intros name. apply (pass_wildcardIPs _ _ _ _ _ (Resolve_pass env d name s)).
  - intros name. by destruct (ProcessDomain_spec env d name s) as (_ & -> & _).
  - intros line. unfold WriteOutput, mbind, M_bind. cbn [emit].
    by destruct (outputFile d).
  - intros mode period p l p'. apply step_wildcard_grows.
Qed.

Lemma DetectWildcard_new_entry env d base s0 ip :
  ip ∉ WildcardIPSet s0 →
  ip ∈ WildcardIPSet (DetectWildcard env d base s0).2 →
  WildcardCheck (Config d) = true
  ∧ wildcardIPs (DetectWildcard env d base s0).2 !! ip = Some true.
Proof.
  intros Hout Hin. destruct (WildcardCheck (Config d)) eqn:Hwc.
  - split; [done|].
    destruct (DetectWildcard_probed env d base s0 Hwc) as [_ _ _ _ _ Hlk].
    destruct (Hlk ip) as [[_ Hv]|[_ Hv]]; [done|].
    unfold WildcardIPSet in *. apply elem_of_dom in Hin as [b Hb].
    apply not_elem_of_dom in Hout. congruence.
  - rewrite (DetectWildcard_off env d base s0 Hwc) in Hin. done.
Qed.

(** C3. In a state whose map holds only [true] entries,
    [isWildcardResponse] is true exactly when the WildcardIPSet is not
    empty and holds one of the given addresses.  Consequently, once a
    probe has recorded an address [ip], a worker whose lookup succeeds
    with an address list containing [ip] sends nothing; and a worker
    whose lookup gives only addresses outside the set sends its line. *)
Theorem isWildcardResponse_filters env d s ips (Hwf : wildcard_wf s) :
  ((isWildcardResponse ips s).1 = true ↔
     WildcardIPSet s ≠ ∅ ∧ ∃ ip, ip ∈ ips ∧ ip ∈ WildcardIPSet s)
  ∧ (∀ base s0 ip domain,
       ip ∉ WildcardIPSet s0 →
       ip ∈ WildcardIPSet (DetectWildcard env d base s0).2 →
       wildcardIPs (DetectWildcard env d base s0).2 ⊆ wildcardIPs s →
       (Resolve env d domain s).1 = Ok ips →
       ip ∈ ips →
       sent env d domain s = [])
  ∧ (∀ domain,
       (Resolve env d domain s).1 = Ok ips →
       (∀ ip, ip ∈ ips → ip ∉ WildcardIPSet s) →
       sent env d domain s = [domain +:+ " [" +:+ Join ips ", " +:+ "]"]).
Proof.
  split; [|split].
  - rewrite isWildcardResponse_true. unfold WildcardIPSet. split.
    + intros (ip & Hin & Hip).
      assert (ip ∈ dom (wildcardIPs s)) as Hd by (apply elem_of_dom; by eexists).
      split; [set_solver | by exists ip].
    + intros (_ & ip & Hin & Hd). exists ip. split; [done|].
      apply elem_of_dom in Hd as [b Hb]. by rewrite (Hwf ip b Hb) in Hb.
  - intros base s0 ip domain Hout Hin Hsub Hres Hip.
    destruct (DetectWildcard_new_entry env d base s0 ip Hout Hin) as [Hwc Hv].
    pose proof (lookup_weaken _ _ _ _ Hv Hsub) as Hs.
    destruct (ProcessDomain_spec env d domain s) as (_ & _ & _ & _ & Hn).
    unfold sent. rewrite Hn, Hres, Hwc.
    replace ((isWildcardResponse ips s).1) with true; [done|].
    symmetry. apply isWildcardResponse_true. by exists ip.
  - intros domain Hres Hnone.
    destruct (ProcessDomain_spec env d domain s) as (_ & _ & _ & _ & Hn).
    unfold sent. rewrite Hn, Hres.
    replace ((isWildcardResponse ips s).1) with false; [by rewrite andb_false_r|].
    symmetry. apply not_true_is_false. rewrite isWildcardResponse_true.
    intros (ip & Hin & Hv). apply (Hnone ip Hin). apply elem_of_dom. by eexists.
Qed.

(* ===================================================================== *)
(** * The loaders *)
(* ===================================================================== *)

Lemma resolversOf_app l1 l2 :
  resolversOf (l1 ++ l2) = resolversOf l1 ++ resolversOf l2.
Proof. unfold resolversOf. by rewrite fmap_app, filter_app, fmap_app. Qed.

Lemma resolversOf_cons t rest :
  resolversOf (t :: rest)
  = (if isIgnored (TrimSpace t) then [] else [withPort (TrimSpace t)])
    ++ resolversOf rest.
Proof.
  unfold resolversOf. rewrite fmap_cons, filter_cons.
  destruct (isIgnored (TrimSpace t)) eqn:Hi.
  - rewrite decide_False; done.
  - rewrite decide_True; done.
Qed.

Lemma loadResolvers_loop_spec resolvers lines :
  loadResolvers_loop resolvers lines = resolvers ++ resolversOf lines.
Proof.
  revert resolvers. induction lines as [|text rest IH]; intros resolvers.
  - by rewrite app_nil_r.
  - cbn [loadResolvers_loop]. rewrite resolversOf_cons. unfold isIgnored.
    destruct (bool_decide (TrimSpace text = "")) eqn:Hb; cbn [negb andb orb].
    + apply IH.
    + destruct (HasPrefix (TrimSpace text) "#") eqn:Hh; cbn [negb].
      * apply IH.
      * rewrite IH, <- app_assoc. f_equal. cbn [app]. f_equal.
        unfold withPort, JoinHostPort.
        by destruct (Contains (TrimSpace text) ":").
Qed.

Lemma candidatesOf_app domain l1 l2 :
  candidatesOf domain (l1 ++ l2) = candidatesOf domain l1 ++ candidatesOf domain l2.
Proof. unfold candidatesOf. by rewrite fmap_app, filter_app, fmap_app. Qed.

Lemma candidatesOf_cons domain t rest :
  candidatesOf domain (t :: rest)
  = (if decide (TrimSpace t = "") then [] else [TrimSpace t +:+ "." +:+ domain])
    ++ candidatesOf domain rest.
Proof.
  unfold candidatesOf. rewrite fmap_cons, filter_cons.
  destruct (decide (TrimSpace t = "")) as [He|Hne].
  - rewrite decide_False; [done | by intros ?].
  - rewrite decide_True; done.
Qed.

Lemma WriteOutput_quiet d line s : quiet s (WriteOutput d line s).2.
Proof.
  unfold WriteOutput, mbind, M_bind. cbn [emit].
  set (s1 := {| wildcardIPs := _ |}).
  destruct (extends_by s s1 [EvStdout (line +:+ nl)] eq_refl) as [He Hs].
  assert (quiet s s1) as Hq1 by (split; rewrite ?Hs; done).
  eapply quiet_trans; [exact Hq1|].
  destruct (outputFile d); cbn [when]; [|apply quiet_refl].
  destruct (emit_extends (EvFileWrite (line +:+ nl)) s1) as [He' Hs'].
  split; rewrite ?Hs'; done.
Qed.

Lemma writeAll_quiet d lines s : quiet s (writeAll d lines s).2.
Proof.
  revert s. induction lines as [|line rest IH]; intros s.
  - apply quiet_refl.
  - cbn [writeAll]. unfold mbind, M_bind.
    pose proof (WriteOutput_quiet d line s) as Hq.
    destruct (WriteOutput d line s) as [[] s1]. cbn [snd] in *.
    eapply quiet_trans; [exact Hq | apply IH].
Qed.

(** The consumer empties the channel and writes nothing but output. *)
Lemma drain_spec d s :
  let s' := (drain d s).2 in
  extends s s' ∧ wildcardIPs s' = wildcardIPs s ∧ results s' = []
  ∧ contacts (since s s') = [] ∧ sends (since s s') = []
  ∧ spawns (since s s') = [].
Proof.
  unfold drain. set (s0 := {| wildcardIPs := _ |}).
  destruct (writeAll_quiet d (results s) s0) as [He Hw Hr Hc Hn Hp].
  assert (since s (writeAll d (results s) s0).2 = since s0 (writeAll d (results s) s0).2)
    as Hs by done.
  cbv zeta. rewrite Hs. repeat split; try done.
Qed.

Lemma dispatch_spec name s :
  let s' := (dispatch name s).2 in
  extends s s' ∧ wildcardIPs s' = wildcardIPs s ∧ results s' = results s
  ∧ contacts (since s s') = [] ∧ sends (since s s') = []
  ∧ spawns (since s s') = [name].
Proof.
  destruct (extends_by s (dispatch name s).2 [EvPermit; EvSpawn name]) as [He Hs].
  { unfold dispatch, mbind, M_bind. cbn. by rewrite <- app_assoc. }
  cbv zeta. rewrite Hs. done.
Qed.

(** One dispatched name: what permit, worker and consumer leave behind. *)
Lemma dispatched_spec env d name s :
  let s' := ((dispatch name;; ProcessDomain env d name;; drain d) s).2 in
  extends s s' ∧ WildcardIPSet s' = WildcardIPSet s
  ∧ spawns (since s s') = [name]
  ∧ sends (since s s') = sent env d name (dispatch name s).2.
Proof.
  unfold mbind, M_bind.
  destruct (dispatch_spec name s) as (He1 & Hw1 & Hr1 & Hc1 & Hn1 & Hp1).
  destruct (dispatch name s) as [[] s1]. cbn [snd] in *.
  destruct (ProcessDomain_spec env d name s1) as (He2 & Hw2 & Hp2 & Hr2 & Hn2).
  unfold sent.
  destruct (ProcessDomain env d name s1) as [[] s2]. cbn [snd] in *.
  destruct (drain_spec d s2) as (He3 & Hw3 & Hr3 & Hc3 & Hn3 & Hp3).
  destruct (extends_trans _ _ _ He1 He2) as [He12 Hs12].
  destruct (extends_trans _ _ _ He12 He3) as [He Hs].
  cbv zeta. rewrite Hs, Hs12, !spawns_app, !sends_app, Hp1, Hp2, Hp3, Hn1, Hn3.
  unfold WildcardIPSet. rewrite Hw3, Hw2, Hw1.
  repeat split; cbn [app]; rewrite ?app_nil_r; done.
Qed.

Lemma Bruteforce_loop_spawns env d period domain lines s :
  limiterIsNil period = false →
  let out := Bruteforce_loop env d period domain lines s in
  out.1 = Returned ∧ extends s out.2
  ∧ spawns (since s out.2) = candidatesOf domain lines.
Proof.
  intros Hnil. revert s. induction lines as [|text rest IH]; intros s.
  - cbn. destruct (extends_refl s) as [He ->]. done.
  - cbn [Bruteforce_loop]. rewrite candidatesOf_cons. unfold bruteforceName.
    destruct (decide (TrimSpace text = "")) as [Hb|Hb].
    + apply IH.
    + rewrite Hnil.
      pose proof (dispatched_spec env d (TrimSpace text +:+ "." +:+ domain) s)
        as (He1 & _ & Hp1 & _).
      unfold mbind, M_bind in *.
      destruct (dispatch _ s) as [[] s1]. destruct (ProcessDomain _ _ _ s1) as [[] s2].
      destruct (drain d s2) as [[] s3]. cbn [snd] in *.
      destruct (IH s3) as (Ho & He2 & Hp2).
      destruct (extends_trans _ _ _ He1 He2) as [He Hs].
      cbv zeta. rewrite Hs, spawns_app, Hp1, Hp2. done.
Qed.

(** C8. The resolver-list loader returns the lines of the file trimmed,
    in file order, without the blank ones and those starting with '#',
    and with ":53" put after each one that has no port separator; the
    brute-force loop starts a worker for every wordlist line that is not
    blank, lines starting with '#' included. *)
Theorem loaders_skip_lines env d filename lines period domain words s :
  os_Open env filename = Opened lines None →
  limiterIsNil period = false →
  LoadResolversFromFile env filename = inl (resolversOf lines)
  ∧ (∀ l1 t l2,
       resolversOf (l1 ++ t :: l2)
       = resolversOf l1
         ++ (if bool_decide (TrimSpace t = "") || HasPrefix (TrimSpace t) "#"
             then []
             else if Contains (TrimSpace t) ":" then [TrimSpace t]
             else [TrimSpace t +:+ ":53"])
         ++ resolversOf l2)
  ∧ spawns (since s (Bruteforce_loop env d period domain words s).2)
    = candidatesOf domain words
  ∧ (∀ l1 t l2,
       candidatesOf domain (l1 ++ t :: l2)
       = candidatesOf domain l1
         ++ (if decide (TrimSpace t = "") then []
             else [TrimSpace t +:+ "." +:+ domain])
         ++ candidatesOf domain l2).
Proof.
  intros Hopen Hnil. repeat split.
  - unfold LoadResolversFromFile. rewrite Hopen. by rewrite loadResolvers_loop_spec.
  - intros l1 t l2. rewrite resolversOf_app, resolversOf_cons. f_equal. f_equal.
    unfold isIgnored, withPort.
    destruct (bool_decide (TrimSpace t = "") || HasPrefix (TrimSpace t) "#"); [done|].
    by destruct (Contains (TrimSpace t) ":").
  - by apply Bruteforce_loop_spawns.
  - intros l1 t l2. by rewrite candidatesOf_app, candidatesOf_cons.
Qed.

(* ===================================================================== *)
(** * Runs of the dispatch loops *)
(* ===================================================================== *)

Lemma elem_of_snoc {A} (l : list A) (x y : A) : y ∈ l ++ [x] ↔ y ∈ l ∨ y = x.
Proof. by rewrite elem_of_app, list_elem_of_singleton. Qed.

Lemma snoc_split {A} (tr tr1 tr2 : list A) (l x : A) :
  tr ++ [l] = tr1 ++ x :: tr2 →
  (tr2 = [] ∧ tr = tr1 ∧ l = x) ∨ (∃ tr2', tr2 = tr2' ++ [l] ∧ tr = tr1 ++ x :: tr2').
Proof.
  intros H. destruct (decide (tr2 = [])) as [->|Hne].
  - left. apply (app_inj_tail tr tr1 l x) in H as [-> ->]. done.
  - right. destruct (exists_last Hne) as (tr2' & y & ->).
    rewrite app_comm_cons, app_assoc in H.
    apply app_inj_tail in H as [-> ->]. by exists tr2'.
Qed.

Lemma silent_refl s : extends s s ∧ sends (since s s) = [].
Proof. by destruct (extends_refl s) as [He ->]. Qed.

(** The shared state after a step that is not a delivery holds no new
    line. *)
Lemma step_sends env d mode period p l p' :
  step env d mode period p l p' →
  extends (st p) (st p') ∧ sends (since (st p) (st p')) = deliveredLines l.
Proof.
  destruct 1; cbn [st deliveredLines].
  - apply silent_refl.
  - destruct mode as [|dom]; cbn [probeBefore]; [|apply silent_refl].
    unfold streamingProbe. destruct (WildcardCheck (Config d)); [|apply silent_refl].
    cbn [when]. destruct (baseDomain name); [|apply silent_refl].
    by destruct (DetectWildcard_quiet_run env d s0 s) as (He & _ & Hn & _).
  - by destruct (dispatch_spec name s) as (He & _ & _ & _ & Hn & _).
  - by destruct (Resolve_pass env d name s) as [He _ _ _ Hn _].
  - by destruct (deliver_spec d name r s) as (He & _).
  - by destruct (WriteOutput_quiet d line (take_result s)) as [He _ _ _ Hn _].
Qed.

Lemma run_sends env d mode period p tr p' :
  run env d mode period p tr p' →
  extends (st p) (st p')
  ∧ sends (since (st p) (st p')) = concat (deliveredLines <$> tr).
Proof.
  induction 1 as [p|p tr p' l p'' Hrun [He Hn] Hstep].
  - apply silent_refl.
  - destruct (step_sends _ _ _ _ _ _ _ Hstep) as [He' Hn'].
    destruct (extends_trans _ _ _ He He') as [He'' Hs].
    split; [done|].
    rewrite Hs, sends_app, Hn, Hn', fmap_app, concat_app. cbn. by rewrite app_nil_r.
Qed.

Lemma deliver_at_most_one d name r s :
  let ls := sends (since s (deliver d name r s).2) in
  (length ls ≤ 1)%nat ∧ ∀ l, l ∈ ls → ∃ ips, l = resultLine name ips.
Proof.
  destruct (deliver_spec d name r s) as (_ & _ & _ & _ & _ & Hn).
  cbv zeta. rewrite Hn. destruct r as [ips|err].
  - destruct (WildcardCheck (Config d) && (isWildcardResponse ips s).1).
    + split; [simpl; lia | intros l Hl; by apply elem_of_nil in Hl].
    + split; [simpl; lia|]. intros l Hl%list_elem_of_singleton. by exists ips.
  - split; [simpl; lia | intros l Hl; by apply elem_of_nil in Hl].
Qed.

Lemma run_label env d mode period p tr p' l :
  run env d mode period p tr p' → l ∈ tr → ∃ q q', step env d mode period q l q'.
Proof.
  induction 1 as [p|p tr p' l' p'' Hrun IH Hstep]; intros Hl.
  - by apply elem_of_nil in Hl.
  - apply elem_of_snoc in Hl as [Hl| ->]; [auto | by exists p', p''].
Qed.

Lemma run_deliver_lines env d mode period p tr p' id name ls :
  run env d mode period p tr p' → LDeliver id name ls ∈ tr →
  (length ls ≤ 1)%nat ∧ ∀ l, l ∈ ls → ∃ ips, l = resultLine name ips.
Proof.
  intros Hrun Hl. destruct (run_label _ _ _ _ _ _ _ _ Hrun Hl) as (q & q' & Hstep).
  inversion Hstep; subst. apply deliver_at_most_one.
Qed.

(** The names dispatched, the one waiting for a permit and the
    candidates still in the input are the candidates of the input the
    run began with, in order. *)
Lemma run_names env d mode period p tr p' :
  run env d mode period p tr p' →
  (omap dispatchOf tr).*2 ++ option_list (waiting p') ++ omap (candidate mode) (input p')
  = option_list (waiting p) ++ omap (candidate mode) (input p).
Proof.
  induction 1 as [p|p tr p' l p'' Hrun IH Hstep].
  - done.
  - rewrite <- IH. rewrite omap_app, fmap_app, <- app_assoc. f_equal.
    destruct Hstep; simpl; rewrite ?H; done.
Qed.

Lemma dispatch_ids_elem tr id :
  id ∈ (omap dispatchOf tr).*1 → ∃ name, LDispatch id name ∈ tr.
Proof.
  intros Hin. apply list_elem_of_fmap in Hin as ([id' name] & -> & Hin).
  apply list_elem_of_omap in Hin as (l & Hl & Hd).
  destruct l; try done. cbn in Hd. injection Hd as -> ->. by exists name.
Qed.

Lemma deliver_ids_elem tr id :
  id ∈ (omap deliverOf tr).*1 → ∃ name ls, LDeliver id name ls ∈ tr.
Proof.
  intros Hin. apply list_elem_of_fmap in Hin as ([id' name] & -> & Hin).
  apply list_elem_of_omap in Hin as (l & Hl & Hd).
  destruct l; try done. cbn in Hd. injection Hd as -> ->. by exists name, lines.
Qed.

(** A step that starts and ends no worker keeps the account. *)
Lemma tracked_neutral tr p l p' :
  tracked tr p →
  dispatchOf l = None → deliverOf l = None →
  roster p' = roster p → next_id p' = next_id p →
  tracked (tr ++ [l]) p'.
Proof.
  intros [Hids Hnd Htasks Hdisp Hfresh Hgone Honce Horder] Hd Hv Hr Hn.
  split; rewrite ?Hr, ?Hn, ?omap_app; cbn [omap list_omap]; rewrite ?Hd, ?Hv, ?app_nil_r;
    try done.
  - intros id name Hin. rewrite elem_of_snoc. left. by apply Htasks.
  - intros id name [Hin|Heq]%elem_of_snoc; [by eapply Hdisp | by subst l].
  - intros id name ls [Hin|Heq]%elem_of_snoc; [by eapply Hgone | by subst l].
  - intros tr1 id name ls tr2 Heq.
    apply snoc_split in Heq as [(-> & -> & Hl)|(tr2' & -> & ->)]; [by subst l|].
    by eapply Horder.
Qed.

Lemma step_tracked env d mode period tr p l p' :
  tracked tr p → step env d mode period p l p' → tracked (tr ++ [l]) p'.
Proof.
  intros Ht Hstep. destruct Hstep.
  - by apply (tracked_neutral _ _ _ _ Ht).
  - by apply (tracked_neutral _ _ _ _ Ht).
  - destruct Ht as [Hids Hnd Htasks Hdisp Hfresh Hgone Honce Horder].
    unfold roster in *. cbn [tasks next_id] in *.
    split; unfold roster; cbn [tasks next_id];
      rewrite ?omap_app; cbn [omap list_omap dispatchOf deliverOf];
      rewrite ?app_nil_r, ?fmap_app; cbn [fmap list_fmap task_id task_name fst].
    + intros id nm [Hin|Hin%list_elem_of_singleton]%elem_of_app.
      * specialize (Hids id nm Hin). lia.
      * injection Hin as -> ->. lia.
    + apply NoDup_app. split; [done|]. split; [|apply NoDup_singleton].
      intros id Hin ->%list_elem_of_singleton.
      apply list_elem_of_fmap in Hin as ([id' nm] & Heq & Hin). cbn in Heq. subst id'.
      specialize (Hids n nm Hin). lia.
    + intros id nm [Hin|Hin%list_elem_of_singleton]%elem_of_app; rewrite elem_of_snoc.
      * left. by apply Htasks.
      * injection Hin as -> ->. by right.
    + intros id nm [Hin|Heq]%elem_of_snoc.
      * specialize (Hdisp id nm Hin). lia.
      * injection Heq as -> ->. lia.
    + apply NoDup_app. split; [done|]. split; [|apply NoDup_singleton].
      intros id Hin ->%list_elem_of_singleton.
      apply dispatch_ids_elem in Hin as (nm & Hin). specialize (Hdisp n nm Hin). lia.
    + intros id nm ls [Hin|Heq]%elem_of_snoc; [|done].
      intros [Hr|Hr%list_elem_of_singleton]%elem_of_app; [by eapply Hgone|].
      subst id. apply list_elem_of_split in Hin as (tr1 & tr2 & ->).
      specialize (Horder tr1 n nm ls tr2 eq_refl).
      assert (LDispatch n nm ∈ tr1 ++ LDeliver n nm ls :: tr2) as Hd
        by (apply elem_of_app; by left).
      specialize (Hdisp n nm Hd). lia.
    + done.
    + intros tr1 id nm ls tr2 Heq.
      apply snoc_split in Heq as [(-> & -> & Hl)|(tr2' & -> & ->)]; [done|].
      by eapply Horder.
  - apply (tracked_neutral _ _ _ _ Ht); try done.
    unfold roster. cbn [tasks]. by rewrite !fmap_app, !fmap_cons.
  - destruct Ht as [Hids Hnd Htasks Hdisp Hfresh Hgone Honce Horder].
    unfold roster in *. cbn [tasks next_id] in *.
    rewrite fmap_app, fmap_cons in Hids, Hnd, Htasks, Hgone.
    cbn [task_id task_name] in *.
    rewrite fmap_app, fmap_cons in Hnd, Hgone. cbn [fst] in Hnd, Hgone.
    apply NoDup_app in Hnd as (Hnd1 & Hnd12 & Hnd2).
    apply NoDup_cons in Hnd2 as [Hnid Hnd2].
    split; unfold roster; cbn [tasks next_id];
      rewrite ?omap_app; cbn [omap list_omap dispatchOf deliverOf];
      rewrite ?app_nil_r, ?fmap_app; cbn [fmap list_fmap fst].
    + intros id' nm Hin. apply (Hids id' nm).
      rewrite !elem_of_app, elem_of_cons in *. tauto.
    + apply NoDup_app. repeat split; try done.
      intros id' Hin1 Hin2. apply (Hnd12 id' Hin1). by right.
    + intros id' nm Hin. rewrite elem_of_snoc. left. apply Htasks.
      rewrite !elem_of_app, elem_of_cons in *. tauto.
    + intros id' nm [Hin|Heq]%elem_of_snoc; [by eapply Hdisp | done].
    + done.
    + intros id' nm ls [Hin|Heq]%elem_of_snoc.
      * specialize (Hgone id' nm ls Hin). rewrite !elem_of_app, elem_of_cons in *. tauto.
      * injection Heq as -> -> _. intros [Hin|Hin]%elem_of_app; [|done].
        apply (Hnd12 id Hin). left.
    + apply NoDup_app. split; [done|]. split; [|apply NoDup_singleton].
      intros id' Hin ->%list_elem_of_singleton.
      apply deliver_ids_elem in Hin as (nm & ls & Hin).
      apply (Hgone id nm ls Hin). apply elem_of_app. right. left.
    + intros tr1 id' nm ls tr2 Heq.
      apply snoc_split in Heq as [(-> & -> & Hl)|(tr2' & -> & ->)].
      * injection Hl as -> -> _. apply Htasks. apply elem_of_app. right. left.
      * by eapply Horder.
  - by apply (tracked_neutral _ _ _ _ Ht).
Qed.

Lemma run_tracked env d mode period p tr p' :
  tasks p = [] → run env d mode period p tr p' → tracked tr p'.
Proof.
  intros Hempty. induction 1 as [p|p tr p' l p'' Hrun IH Hstep].
  - unfold roster. split; unfold roster; rewrite ?Hempty; cbn; try done.
    + intros id name Hin. by apply elem_of_nil in Hin.
    + apply NoDup_nil_2.
    + intros id name Hin. by apply elem_of_nil in Hin.
    + intros id name Hin. by apply elem_of_nil in Hin.
    + apply NoDup_nil_2.
    + intros id name ls Hin. by apply elem_of_nil in Hin.
    + apply NoDup_nil_2.
    + intros tr1 id name ls tr2 Heq. by destruct tr1.
  - eapply step_tracked; [by apply IH | done].
Qed.

(** C5. A worker sends at most one line.  In every run of a dispatch
    loop, in either mode and under every schedule: each delivery sends at
    most one line, the result line of its own name; no worker delivers
    twice; every delivery is that of a worker dispatched before it, under
    the same number and name, and no number is dispatched twice; the
    lines sent in the run are exactly those of its deliveries; and the
    names dispatched are candidates of the input, in input order. *)
Theorem at_most_one_result env d mode period lines s tr p :
  run env d mode period (startPool lines s) tr p →
  (∀ name s', (length (sent env d name s') ≤ 1)%nat)
  ∧ (∀ id name ls, LDeliver id name ls ∈ tr →
       (length ls ≤ 1)%nat
       ∧ ∀ l, l ∈ ls → ∃ ips, l = name +:+ " [" +:+ Join ips ", " +:+ "]")
  ∧ NoDup (omap deliverOf tr).*1
  ∧ NoDup (omap dispatchOf tr).*1
  ∧ (∀ tr1 id name ls tr2,
       tr = tr1 ++ LDeliver id name ls :: tr2 → LDispatch id name ∈ tr1)
  ∧ sends (since s (st p)) = concat (deliveredLines <$> tr)
  ∧ (omap dispatchOf tr).*2 ++ option_list (waiting p)
      ++ omap (candidate mode) (input p)
    = omap (candidate mode) lines.
Proof.
  intros Hrun.
  pose proof (run_tracked env d mode period (startPool lines s) tr p eq_refl Hrun)
    as [_ _ _ _ Hfresh _ Honce Horder].
  destruct (run_sends _ _ _ _ _ _ _ Hrun) as [_ Hsends].
  pose proof (run_names _ _ _ _ _ _ _ Hrun) as Hnames.
  repeat split; try done.
  - intros name s'. destruct (ProcessDomain_spec env d name s') as (_ & _ & _ & _ & Hn).
    unfold sent. rewrite Hn. destruct (Resolve env d name s').1 as [ips|err]; [|simpl; lia].
    destruct (WildcardCheck (Config d) && (isWildcardResponse ips s').1); simpl; lia.
  - by eapply run_deliver_lines.
  - by eapply run_deliver_lines.
Qed.

(* ===================================================================== *)
(** * The loops of [main.go] are runs *)
(* ===================================================================== *)

Lemma run_one env d mode period p l p' :
  step env d mode period p l p' → run env d mode period p [l] p'.
Proof. intros H. apply (run_snoc _ _ _ _ p [] p l p'); [constructor | done]. Qed.

Lemma run_trans env d mode period p tr1 p' tr2 p'' :
  run env d mode period p tr1 p' → run env d mode period p' tr2 p'' →
  run env d mode period p (tr1 ++ tr2) p''.
Proof.
  intros H1 H2. induction H2 as [|q tr q' l q'' H2 IH Hstep].
  - by rewrite app_nil_r.
  - rewrite app_assoc. eapply run_snoc; [by apply IH | done].
Qed.

Lemma drain_empty d s : results s = [] → (drain d s).2 = s.
Proof. destruct s as [w r l]. cbn. by intros ->. Qed.

Lemma drain_one d s line :
  results s = [line] → (drain d s).2 = (WriteOutput d line (take_result s)).2.
Proof.
  destruct s as [w r l]. cbn [results]. intros ->. unfold drain, take_result.
  cbn [results wildcardIPs log tail writeAll]. unfold mbind at 1, M_bind at 1.
  by destruct (WriteOutput d line _) as [[] s1].
Qed.

Lemma WriteOutput_results d line s : results (WriteOutput d line s).2 = results s.
Proof. apply (quiet_results _ _ (WriteOutput_quiet d line s)). Qed.

(** The work on one line, as the loops of [main.go] order it, is a run
    of five or six steps. *)
Lemma line_run env d mode period text rest n s name :
  candidate mode text = Some name →
  limiterIsNil period = false →
  results s = [] →
  let s' := ((probeBefore env d mode name;; dispatch name;;
              ProcessDomain env d name;; drain d) s).2 in
  results s' = []
  ∧ ∃ tr,
      run env d mode period
        {| input := text :: rest; waiting := None; tasks := []; next_id := n; st := s |}
        tr
        {| input := rest; waiting := None; tasks := []; next_id := S n; st := s' |}.
Proof.
  intros Hc Hnil Hres. unfold mbind, M_bind, ProcessDomain. unfold mbind, M_bind.
  pose proof (step_probe env d mode period text rest [] n s name Hc) as H1.
  assert (results (probeBefore env d mode name s).2 = []) as Hr1.
  { destruct mode as [|dom]; cbn [probeBefore]; [|done].
    unfold streamingProbe. destruct (WildcardCheck (Config d)); [|done]. cbn [when].
    destruct (baseDomain name); [|done].
    destruct (DetectWildcard_quiet_run env d s0 s) as (_ & -> & _). done. }
  destruct (probeBefore env d mode name s) as [[] s1]. cbn [snd] in *.
  pose proof (step_dispatch env d mode period rest [] n s1 name Hnil) as H2.
  destruct (dispatch_spec name s1) as (_ & _ & Hr2 & _).
  destruct (dispatch name s1) as [[] s2]. cbn [snd app] in *.
  pose proof (step_resolve env d mode period rest None [] [] (S n) s2 n name) as H3'.
  pose proof (pass_results _ _ _ _ _ (Resolve_pass env d name s2)) as Hr3.
  destruct (Resolve env d name s2) as [r s3]. cbn [fst snd app] in *.
  destruct (deliver_spec d name r s3) as (_ & _ & _ & _ & Hr4 & _).
  destruct (deliver_at_most_one d name r s3) as [Hlen _].
  cbv zeta in Hlen. rewrite Hr3, Hr2, Hr1 in Hr4. cbn [app] in Hr4.
  rewrite <- Hr4 in Hlen.
  assert (length (results (deliver d name r s3).2) ≤ results_cap)%nat as Hcap
    by (unfold results_cap; lia).
  pose proof (step_deliver env d mode period rest None [] [] (S n) s3 n name r Hcap) as H4.
  destruct (deliver d name r s3) as [[] s4]. cbn [snd app] in *.
  assert (∃ tr4, run env d mode period
            {| input := text :: rest; waiting := None; tasks := []; next_id := n; st := s |}
            tr4
            {| input := rest; waiting := None; tasks := []; next_id := S n; st := s4 |})
    as [tr4 Hrun4].
  { eexists. eapply run_snoc; [|exact H4].
    eapply run_snoc; [|exact H3'].
    eapply run_snoc; [|exact H2].
    apply run_one, H1. }
  destruct (results s4) as [|line [|line' more]] eqn:Hq; [| |simpl in Hlen; lia].
  - rewrite (drain_empty d s4 Hq). split; [done | by exists tr4].
  - rewrite (drain_one d s4 line Hq). split.
    + rewrite WriteOutput_results. unfold take_result. cbn [results]. by rewrite Hq.
    + eexists. eapply run_snoc; [exact Hrun4|].
      apply step_sink. by rewrite Hq.
Qed.

Lemma EnumerateFromReader_loop_run env d period lines n s :
  limiterIsNil period = false →
  results s = [] →
  let out := EnumerateFromReader_loop env d period lines s in
  out.1 = Returned
  ∧ ∃ tr n',
      run env d Streaming period
        {| input := lines; waiting := None; tasks := []; next_id := n; st := s |}
        tr
        {| input := []; waiting := None; tasks := []; next_id := n'; st := out.2 |}.
Proof.
  intros Hnil. revert n s. induction lines as [|text rest IH]; intros n s Hres.
  - cbn. split; [done|]. exists [], n. constructor.
  - cbn [EnumerateFromReader_loop]. destruct (streamingName text) as [name|] eqn:Hc.
    + rewrite Hnil.
      destruct (line_run env d Streaming period text rest n s name Hc Hnil Hres)
        as (Hr' & tr1 & Hrun1).
      cbn [probeBefore] in Hr', Hrun1. unfold mbind, M_bind in *.
      destruct (streamingProbe env d name s) as [[] s1].
      destruct (dispatch name s1) as [[] s2].
      destruct (ProcessDomain env d name s2) as [[] s3].
      destruct (drain d s3) as [[] s4]. cbn [snd] in *.
      destruct (IH (S n) s4 Hr') as (Ho & tr2 & n' & Hrun2).
      split; [done|]. exists (tr1 ++ tr2), n'. by eapply run_trans.
    + destruct (IH n s Hres) as (Ho & tr2 & n' & Hrun2).
      split; [done|]. exists ([LSkip] ++ tr2), n'.
      eapply run_trans; [|exact Hrun2]. apply run_one. by constructor.
Qed.

Lemma Bruteforce_loop_run env d period domain lines n s :
  limiterIsNil period = false →
  results s = [] →
  let out := Bruteforce_loop env d period domain lines s in
  out.1 = Returned
  ∧ ∃ tr n',
      run env d (BruteForce domain) period
        {| input := lines; waiting := None; tasks := []; next_id := n; st := s |}
        tr
        {| input := []; waiting := None; tasks := []; next_id := n'; st := out.2 |}.
Proof.
  intros Hnil. revert n s. induction lines as [|text rest IH]; intros n s Hres.
  - cbn. split; [done|]. exists [], n. constructor.
  - cbn [Bruteforce_loop]. destruct (bruteforceName domain text) as [name|] eqn:Hc.
    + rewrite Hnil.
      destruct (line_run env d (BruteForce domain) period text rest n s name Hc Hnil Hres)
        as (Hr' & tr1 & Hrun1).
      cbn [probeBefore] in Hr', Hrun1. unfold mbind, M_bind in *.
      cbn [mret M_ret] in Hr', Hrun1.
      destruct (dispatch name s) as [[] s2].
      destruct (ProcessDomain env d name s2) as [[] s3].
      destruct (drain d s3) as [[] s4]. cbn [snd] in *.
      destruct (IH (S n) s4 Hr') as (Ho & tr2 & n' & Hrun2).
      split; [done|]. exists (tr1 ++ tr2), n'. by eapply run_trans.
    + destruct (IH n s Hres) as (Ho & tr2 & n' & Hrun2).
      split; [done|]. exists ([LSkip] ++ tr2), n'.
      eapply run_trans; [|exact Hrun2]. apply run_one. by constructor.
Qed.

(** The limiter's period is one second divided by the rate, in whole
    nanoseconds: for a rate of 3 it is a third of a nanosecond short of a
    third of a second. *)
Lemma limiterPeriod_truncates d period :
  1 ≤ RateLimit (Config d) →
  limiterPeriod d = Some period →
  period * RateLimit (Config d) ≤ 1000000000
  ∧ 1000000000 < (period + 1) * RateLimit (Config d).
Proof.
  intros Hr. unfold limiterPeriod. rewrite decide_False by lia.
  intros [= <-]. rewrite Z.quot_div_nonneg by lia.
  pose proof (Z.mul_div_le 1000000000 (RateLimit (Config d))).
  pose proof (Z.mul_succ_div_gt 1000000000 (RateLimit (Config d))).
  nia.
Qed.

Example limiterPeriod_rate3 :
  limiterPeriod (Sample.enumOf [] false false) = Some 100000000
  ∧ 1000000000 `quot` 3 = 333333333.
Proof. done. Qed.

(* ===================================================================== *)
(** * [main] and the configuration errors *)
(* ===================================================================== *)

(** An unreadable resolver file ends the process with status 1 after one
    line on standard error and nothing else. *)
Lemma main_resolver_file_error env flags s err :
  flag_version flags = false →
  flag_r flags ≠ "" →
  LoadResolversFromFile env (flag_r flags) = inr err →
  main env flags s
  = (Exited 1,
     (Fprintf_Stderr ("Error loading resolvers from file: " +:+ err +:+ nl) s).2).
Proof.
  intros Hv Hr Hload. unfold main. rewrite Hv.
  rewrite decide_True by done. by rewrite Hload.
Qed.

(** So does a resolver file without any resolver. *)
Lemma main_no_resolvers env flags s :
  flag_version flags = false →
  flag_r flags ≠ "" →
  LoadResolversFromFile env (flag_r flags) = inl [] →
  main env flags s
  = (Exited 1, (Fprintln_Stderr "No DNS resolvers specified" s).2).
Proof.
  intros Hv Hr Hload. unfold main. rewrite Hv.
  rewrite decide_True by done. by rewrite Hload.
Qed.

Lemma Split_nonempty s sep : Split s sep ≠ [].
Proof.
  unfold Split. generalize 0%nat, "".
  induction s as [|c s IH]; intros skip cur; cbn [Split_go].
  - done.
  - destruct skip; [|apply IH]. destruct (HasPrefix (String c s) sep); [done | apply IH].
Qed.

(** An unreadable wordlist: [Bruteforce] probes for wildcards, reports
    the error and returns, and [main] then ends with status 0. *)
Lemma main_wordlist_error env flags s err :
  flag_version flags = false →
  flag_r flags = "" →
  flag_o flags = "" →
  flag_d flags ≠ "" →
  flag_w flags ≠ "" →
  os_Open env (flag_w flags) = OpenErr err →
  ∃ d s0,
    wildcardIPs s0 = ∅ ∧ log s0 = log s
    ∧ Resolvers (Config d) = Split (flag_resolvers flags) ","
    ∧ WildcardCheck (Config d) = negb (flag_no_wildcard flags)
    ∧ main env flags s
      = (Exited 0,
         (Fprintf_Stderr ("Error opening wordlist: " +:+ err +:+ nl)
            (DetectWildcard env d (flag_d flags) s0).2).2).
Proof.
  intros Hv Hr Ho Hd Hw Hopen. unfold main. rewrite Hv, Hr.
  rewrite decide_False by (by intros ?).
  pose proof (Split_nonempty (flag_resolvers flags) ",") as Hne.
  destruct (Split (flag_resolvers flags) ",") as [|r rs] eqn:Hs; [done|].
  rewrite decide_False by done.
  unfold mbind at 1, M_bind at 1. unfold NewDNSEnumerator. cbn [OutputFile].
  rewrite Ho. rewrite decide_False by (by intros ?).
  rewrite !bool_decide_true by done. cbn [andb].
  eexists _, _. split; [|split; [|split; [|split]]]; cycle 4.
  - unfold mbind at 1, M_bind at 1. unfold Bruteforce.
    unfold mbind at 1, M_bind at 1.
    destruct (DetectWildcard _ _ _ _) as [[] s1] eqn:Hdw. rewrite Hopen.
    unfold mbind, M_bind. cbn [snd]. rewrite Hdw. reflexivity.
  - done.
  - done.
  - done.
  - done.
Qed.

(** C6, at the failing input.  With [-d example.com -w missing.txt] and
    no such file, the process asks the resolver for the three wildcard
    probe names, then reports the error, and ends with status 0. *)
Theorem main_unreadable_wordlist_status :
  let out := main (Sample.envOf Sample.zone1 Sample.noFiles) Sample.bruteFlags
               initState in
  out.1 = Exited 0
  ∧ (c_msg <$> contacts (log out.2))
    = [ question (Sample.envOf Sample.zone1 Sample.noFiles)
          "rand1700000000-4242.example.com";
        question (Sample.envOf Sample.zone1 Sample.noFiles)
          "probably-does-not-exist-123.example.com";
        question (Sample.envOf Sample.zone1 Sample.noFiles)
          "test-subdomain-wildcard-456.example.com" ]
  ∧ last (log out.2)
    = Some (EvStderr ("Error opening wordlist: open: no such file or directory"
                        +:+ nl)).
Proof. vm_compute. done. Qed.

(* ===================================================================== *)
(** * The map holds only [true] entries *)
(* ===================================================================== *)

Lemma initState_wf : wildcard_wf initState.
Proof. unfold wildcard_wf, initState. cbn. intros ip b. by rewrite lookup_empty. Qed.

Lemma NewDNSEnumerator_wf env config s : wildcard_wf (NewDNSEnumerator env config s).2.
Proof.
  unfold NewDNSEnumerator, mbind, M_bind, os_OpenFile_append. intros ip b.
  destruct (decide (OutputFile config ≠ ""));
    [destruct (os_OpenFile env (OutputFile config))|];
    cbn; by rewrite lookup_empty.
Qed.

Lemma wf_same s s' : wildcardIPs s' = wildcardIPs s → wildcard_wf s → wildcard_wf s'.
Proof. unfold wildcard_wf. by intros ->. Qed.

Lemma step_wf env d mode period p l p' :
  step env d mode period p l p' → wildcard_wf (st p) → wildcard_wf (st p').
Proof.
  destruct 1; cbn [st]; try done.
  - destruct mode as [|dom]; [|done]. unfold probeBefore, streamingProbe.
    destruct (WildcardCheck (Config d)); [|done]. cbn [when].
    destruct (baseDomain name); [|done].
    apply DetectWildcard_quiet_run.
  - apply wf_same, (pass_wildcardIPs _ _ _ _ _ (Resolve_pass env d name s)).
  - apply wf_same. by destruct (deliver_spec d name r s) as (_ & -> & _).
  - apply wf_same. apply (quiet_wildcardIPs _ _ (WriteOutput_quiet d line (take_result s))).
Qed.

Lemma run_wf env d mode period p tr p' :
  run env d mode period p tr p' → wildcard_wf (st p) → wildcard_wf (st p').
Proof.
  induction 1 as [p|p tr p' l p'' Hrun IH Hstep]; [done|].
  intros Hwf. eapply step_wf; [done | by apply IH].
Qed.

Lemma step_keeps env d mode period p l p' :
  step env d mode period p l p' → wildcard_wf (st p) →
  wildcardIPs (st p) ⊆ wildcardIPs (st p').
Proof.
  destruct 1; cbn [st]; intros Hwf; try done.
  - destruct mode as [|dom]; [|done]. unfold probeBefore, streamingProbe.
    destruct (WildcardCheck (Config d)); [|done]. cbn [when].
    destruct (baseDomain name); [|done].
    by apply DetectWildcard_keeps.
  - by rewrite (pass_wildcardIPs _ _ _ _ _ (Resolve_pass env d name s)).
  - by destruct (deliver_spec d name r s) as (_ & -> & _).
  - by rewrite (quiet_wildcardIPs _ _ (WriteOutput_quiet d line (take_result s))).
Qed.

(** What a probe recorded stays recorded for the rest of the run. *)
Lemma run_keeps env d mode period p tr p' :
  run env d mode period p tr p' → wildcard_wf (st p) →
  wildcardIPs (st p) ⊆ wildcardIPs (st p').
Proof.
  induction 1 as [p|p tr p' l p'' Hrun IH Hstep]; [done|].
  intros Hwf. etrans; [by apply IH|].
  eapply step_keeps; [done | by eapply run_wf].
Qed.

Lemma run_cons env d mode period p l p' tr p'' :
  step env d mode period p l p' → run env d mode period p' tr p'' →
  run env d mode period p (l :: tr) p''.
Proof. intros Hs Hr. apply (run_trans _ _ _ _ p [l] p' tr p''); [by apply run_one | done]. Qed.


(* ===================================================================== *)
(** * What each operation writes, and where *)
(* ===================================================================== *)

Lemma obs_trans {B} (f : Event → option B) s s1 s2 :
  extends s s1 → extends s1 s2 →
  extends s s2 ∧ omap f (since s s2) = omap f (since s s1) ++ omap f (since s1 s2).
Proof.
  intros H1 H2. destruct (extends_trans _ _ _ H1 H2) as [He Hs].
  by rewrite Hs, omap_app.
Qed.

Lemma lookupTrace_cons verbose c cs :
  lookupTrace verbose (c :: cs)
  = [EvExchange (c_resolver c) (c_msg c) (c_res c)]
      ++ (if verbose then option_list (EvStderr <$> failureLine c) else [])
      ++ lookupTrace verbose cs.
Proof. done. Qed.

Lemma lookupTrace_blind {B} (f : Event → option B) verbose cs :
  blindToLookups f → omap f (lookupTrace verbose cs) = [].
Proof.
  intros [Hx Hd]. induction cs as [|c cs IH]; [done|].
  rewrite lookupTrace_cons, !omap_app, IH, app_nil_r. cbn. rewrite Hx.
  destruct verbose; [|done]. destruct (failureLine c); [|done].
  cbn. by rewrite Hd.
Qed.

Lemma lookupTrace_contacts verbose cs : contacts (lookupTrace verbose cs) = cs.
Proof.
  induction cs as [|c cs IH]; [done|].
  rewrite lookupTrace_cons, !contacts_app, IH.
  assert (contacts (if verbose then option_list (EvStderr <$> failureLine c) else []) = [])
    as -> by (destruct verbose; [by destruct (failureLine c) | done]).
  by destruct c.
Qed.

Lemma lookupTrace_stderrs verbose cs :
  stderrs (lookupTrace verbose cs) = if verbose then omap failureLine cs else [].
Proof.
  induction cs as [|c cs IH]; [by destruct verbose|].
  rewrite lookupTrace_cons. unfold stderrs in *. rewrite !omap_app, IH.
  destruct verbose; [|done]. cbn. by destruct (failureLine c).
Qed.

(** The events of one [Resolve_loop] are the trace of its contacts. *)
Lemma Resolve_loop_trace env d msg resolvers s :
  since s (Resolve_loop env d msg resolvers s).2
  = lookupTrace (Verbose (Config d))
      (contacts (since s (Resolve_loop env d msg resolvers s).2)).
Proof.
  revert s. induction resolvers as [|resolver rest IH]; intros s.
  - cbn. by destruct (extends_refl s) as [_ ->].
  - cbn [Resolve_loop]. unfold mbind, M_bind. unfold client_Exchange.
    set (s1 := {| wildcardIPs := _ |}).
    destruct (extends_by s s1 [EvExchange resolver msg (Exchange env (log s) msg resolver)]
                eq_refl) as [He1 Hs1].
    destruct (Exchange env (log s) msg resolver) as [err|resp] eqn:Hx.
    + set (line := "Resolver " +:+ resolver +:+ " failed: " +:+ err +:+ nl).
      assert (extends s1 (when (Verbose (Config d)) (Fprintf_Stderr line) s1).2
              ∧ since s1 (when (Verbose (Config d)) (Fprintf_Stderr line) s1).2
                = if Verbose (Config d) then [EvStderr line] else []) as [He2 Hs2].
      { destruct (Verbose (Config d)); [apply emit_extends | apply extends_refl]. }
      destruct (when _ _ s1) as [[] s2]. cbn [snd] in *.
      pose proof (pass_extends _ _ _ _ _ (Resolve_loop_pass env d msg rest s2)) as He3.
      specialize (IH s2).
      destruct (extends_trans _ _ _ He1 He2) as [He12 Hs12].
      destruct (extends_trans _ _ _ He12 He3) as [He Hs].
      rewrite Hs, Hs12, Hs1, Hs2, !contacts_app.
      assert (contacts (if Verbose (Config d) then [EvStderr line] else []) = []) as ->
        by (by destruct (Verbose (Config d))).
      rewrite app_nil_r.
      change (contacts [EvExchange resolver msg (ExchangeErr err)])
        with [{| c_resolver := resolver; c_msg := msg; c_res := ExchangeErr err |}].
      cbn [app]. rewrite lookupTrace_cons. cbn [c_resolver c_msg c_res failureLine].
      rewrite <- IH. cbn [app]. f_equal.
    + destruct (decide (dns.Rcode resp ≠ dns.RcodeSuccess)); cbn [snd mret M_ret];
        rewrite Hs1; cbn; by destruct (Verbose (Config d)).
Qed.

Lemma Resolve_blind {B} (f : Event → option B) env d name s :
  blindToLookups f → omap f (since s (Resolve env d name s).2) = [].
Proof.
  intros Hf. unfold Resolve. rewrite Resolve_loop_trace. by apply lookupTrace_blind.
Qed.

Lemma recorded_log (r : Result) s :
  let m := match r with
           | Ok ips => when (bool_decide (0 < length ips)%nat) (recordIPs ips)
           | Err _ => mret tt
           end in
  log (m s).2 = log s.
Proof. destruct r as [ips|err]; [|done]. cbn. by destruct (bool_decide _). Qed.

Lemma probe_loop_blind {B} (f : Event → option B) env d domain subs s :
  blindToLookups f → omap f (since s (probe_loop env d domain subs s).2) = [].
Proof.
  intros Hf. revert s. induction subs as [|sub rest IH]; intros s.
  - cbn. by destruct (extends_refl s) as [_ ->].
  - cbn [probe_loop]. unfold mbind, M_bind.
    pose proof (pass_extends _ _ _ _ _ (Resolve_pass env d (sub +:+ "." +:+ domain) s)) as He1.
    pose proof (Resolve_blind f env d (sub +:+ "." +:+ domain) s Hf) as Hb1.
    destruct (Resolve env d (sub +:+ "." +:+ domain) s) as [r s1]. cbn [fst snd] in *.
    set (m := match r with
              | Ok ips => when (bool_decide (0 < length ips)%nat) (recordIPs ips)
              | Err _ => mret tt
              end).
    pose proof (recorded_log r s1) as Hl. cbv zeta in Hl. fold m in Hl.
    destruct (m s1) as [[] s2]. cbn [snd] in *.
    pose proof (probed_extends _ _ _ _ _ (probe_loop_probed env d domain rest s2)) as He3.
    assert (extends s s2) as He2 by (by apply (extends_same_log s s1 s2)).
    destruct (obs_trans f _ _ _ He2 He3) as [_ ->].
    by rewrite IH, (since_same_log s s2 s1), Hb1.
Qed.

Lemma DetectWildcard_blind {B} (f : Event → option B) env d domain s :
  blindToLookups f → omap f (since s (DetectWildcard env d domain s).2) = [].
Proof.
  intros Hf. unfold DetectWildcard. destruct (WildcardCheck (Config d)); cbn [negb].
  - unfold mbind, M_bind. cbn [testSubdomains].
    match goal with |- context [probe_loop env d domain ?subs s] =>
      pose proof (probe_loop_blind f env d domain subs s Hf) as Hb;
      pose proof (probed_extends _ _ _ _ _ (probe_loop_probed env d domain subs s)) as He;
      destruct (probe_loop env d domain subs s) as [[] s1] end.
    cbn [snd] in *. unfold len_wildcardIPs.
    match goal with |- context [when ?b ?m s1] =>
      assert (extends s1 (when b m s1).2 ∧ omap f (since s1 (when b m s1).2) = [])
        as [He2 Hb2] end.
    { destruct (bool_decide _ && _); cbn [when].
      - unfold mbind, M_bind, getWildcardIPs.
        match goal with |- context [Fprintf_Stderr ?t s1] =>
          destruct (emit_extends (EvStderr t) s1) as [He2 Hs2] end.
        unfold Fprintf_Stderr. rewrite Hs2. split; [done|]. cbn. by rewrite (proj2 Hf).
      - change (extends s1 s1 ∧ omap f (since s1 s1) = []).
        by destruct (extends_refl s1) as [? ->]. }
    destruct (obs_trans f _ _ _ He He2) as [_ ->]. by rewrite Hb, Hb2.
  - cbn. by destruct (extends_refl s) as [_ ->].
Qed.

(** The events of [deliver]: a diagnostic in verbose mode, or the line
    sent. *)
Lemma deliver_blind {B} (f : Event → option B) d domain r s :
  blindToLookups f →
  omap f (since s (deliver d domain r s).2)
  = omap f (EvSend <$> sends (since s (deliver d domain r s).2)).
Proof.
  intros [_ Hd].
  assert (∀ b text, omap f (since s (when b (Fprintf_Stderr text) s).2) = []
                    ∧ sends (since s (when b (Fprintf_Stderr text) s).2) = []) as Hw.
  { intros b text. destruct b; cbn [when].
    - destruct (emit_extends (EvStderr text) s) as [_ Hs]. unfold Fprintf_Stderr.
      rewrite Hs. cbn. by rewrite Hd.
    - change (omap f (since s s) = [] ∧ sends (since s s) = []).
      by destruct (extends_refl s) as [_ ->]. }
  destruct r as [ips|err]; cbn [deliver].
  - unfold mbind, M_bind. rewrite flagged_spec.
    destruct (WildcardCheck (Config d) && (isWildcardResponse ips s).1).
    + match goal with |- context [when ?b (Fprintf_Stderr ?t) s] =>
        destruct (Hw b t) as [-> ->] end. done.
    + destruct (extends_by s (send (resultLine domain ips) s).2
                  [EvSend (resultLine domain ips)] eq_refl) as [_ Hs].
      unfold resultLine in Hs. rewrite Hs. done.
  - match goal with |- context [when ?b (Fprintf_Stderr ?t) s] =>
      destruct (Hw b t) as [-> ->] end. done.
Qed.

Lemma blind_stdout : blindToLookups stdoutOf.
Proof. done. Qed.

Lemma blind_fileWrite : blindToLookups fileWriteOf.
Proof. done. Qed.

Lemma blind_admission : blindToLookups admissionOf.
Proof. done. Qed.

Lemma blind_send : blindToLookups sendOf.
Proof. done. Qed.


(* ===================================================================== *)
(** * The result sink *)
(* ===================================================================== *)

Lemma WriteOutput_since d line s :
  since s (WriteOutput d line s).2
  = EvStdout (line +:+ nl)
      :: (if outputFile d then [EvFileWrite (line +:+ nl)] else []).
Proof.
  unfold WriteOutput, mbind, M_bind. cbn [emit].
  set (s1 := {| wildcardIPs := _ |}).
  destruct (extends_by s s1 [EvStdout (line +:+ nl)] eq_refl) as [He1 Hs1].
  destruct (outputFile d); cbn [when].
  - destruct (emit_extends (EvFileWrite (line +:+ nl)) s1) as [He2 Hs2].
    destruct (extends_trans _ _ _ He1 He2) as [_ ->]. by rewrite Hs1, Hs2.
  - done.
Qed.

Lemma probeBefore_blind {B} (f : Event → option B) env d mode name s :
  blindToLookups f → omap f (since s (probeBefore env d mode name s).2) = [].
Proof.
  intros Hf.
  assert (omap f (since s s) = []) as Hrefl by (by destruct (extends_refl s) as [_ ->]).
  destruct mode as [|dom]; cbn [probeBefore]; [|done].
  unfold streamingProbe. destruct (WildcardCheck (Config d)); [|done]. cbn [when].
  destruct (baseDomain name); [|done]. by apply DetectWildcard_blind.
Qed.

Lemma probeBefore_results env d mode name s :
  results (probeBefore env d mode name s).2 = results s.
Proof.
  destruct mode as [|dom]; cbn [probeBefore]; [|done].
  unfold streamingProbe. destruct (WildcardCheck (Config d)); [|done]. cbn [when].
  destruct (baseDomain name); [|done].
  by destruct (DetectWildcard_quiet_run env d s0 s) as (_ & -> & _).
Qed.


(* ===================================================================== *)
(** * Diagnostics and the cost of a lookup *)
(* ===================================================================== *)

(** X2. A lookup reports on standard error, in verbose mode, one line
    "Resolver <endpoint> failed: <error>" for each endpoint that failed
    at the transport level, in the order they were tried, and nothing
    when verbose mode is off; it writes nothing to standard output or to
    the output file, sends nothing on the channel and starts no
    worker. *)
Theorem Resolve_diagnostics env d name s :
  let out := Resolve env d name s in
  stderrs (since s out.2)
  = (if Verbose (Config d) then omap failureLine (contacts (since s out.2)) else [])
  ∧ stdouts (since s out.2) = []
  ∧ fileWrites (since s out.2) = []
  ∧ sends (since s out.2) = []
  ∧ admissions (since s out.2) = []
  ∧ results out.2 = results s.
Proof.
  intros out. subst out. split; [|repeat split].
  - unfold Resolve. rewrite Resolve_loop_trace at 1. apply lookupTrace_stderrs.
  - by apply (Resolve_blind stdoutOf).
  - by apply (Resolve_blind fileWriteOf).
  - by apply (Resolve_blind sendOf).
  - by apply (Resolve_blind admissionOf).
  - apply (pass_results _ _ _ _ _ (Resolve_pass env d name s)).
Qed.

Lemma failover_some env msg resolvers cs res :
  failover env msg resolvers cs res → resolvers ≠ [] → (1 ≤ length cs)%nat.
Proof. destruct 1; intros Hne; simpl; [done | lia..]. Qed.

Lemma Resolve_cost env d name s :
  Resolvers (Config d) ≠ [] →
  (1 ≤ length (contacts (since s (Resolve env d name s).2))
   ≤ length (Resolvers (Config d)))%nat.
Proof.
  intros Hne. destruct (Resolve_pass env d name s) as [_ _ _ Hf _ _]. split.
  - by eapply failover_some.
  - by eapply failover_length.
Qed.

Lemma probe_loop_cost env d domain subs s :
  Resolvers (Config d) ≠ [] →
  (length subs ≤ length (contacts (since s (probe_loop env d domain subs s).2))
   ≤ length subs * length (Resolvers (Config d)))%nat.
Proof.
  intros Hne. revert s. induction subs as [|sub rest IH]; intros s.
  - cbn. destruct (extends_refl s) as [_ ->]. cbn. lia.
  - cbn [probe_loop]. unfold mbind, M_bind.
    pose proof (pass_extends _ _ _ _ _ (Resolve_pass env d (sub +:+ "." +:+ domain) s)) as He1.
    pose proof (Resolve_cost env d (sub +:+ "." +:+ domain) s Hne) as Hc1.
    destruct (Resolve env d (sub +:+ "." +:+ domain) s) as [r s1]. cbn [fst snd] in *.
    set (m := match r with
              | Ok ips => when (bool_decide (0 < length ips)%nat) (recordIPs ips)
              | Err _ => mret tt
              end).
    pose proof (recorded_log r s1) as Hl. cbv zeta in Hl. fold m in Hl.
    destruct (m s1) as [[] s2]. cbn [snd] in *.
    pose proof (probed_extends _ _ _ _ _ (probe_loop_probed env d domain rest s2)) as He3.
    assert (extends s s2) as He2 by (by apply (extends_same_log s s1 s2)).
    destruct (extends_trans _ _ _ He2 He3) as [_ ->].
    rewrite contacts_app, length_app, (since_same_log s s2 s1) by done.
    specialize (IH s2). cbn [length]. lia.
Qed.

Lemma DetectWildcard_cost env d domain s :
  Resolvers (Config d) ≠ [] →
  WildcardCheck (Config d) = true →
  (3 ≤ length (contacts (since s (DetectWildcard env d domain s).2))
   ≤ 3 * length (Resolvers (Config d)))%nat.
Proof.
  intros Hne Hwc. unfold DetectWildcard. rewrite Hwc. cbn [negb].
  unfold mbind, M_bind. cbn [testSubdomains].
  match goal with |- context [probe_loop env d domain ?subs s] =>
    pose proof (probe_loop_cost env d domain subs s Hne) as Hc;
    pose proof (probed_extends _ _ _ _ _ (probe_loop_probed env d domain subs s)) as He;
    destruct (probe_loop env d domain subs s) as [[] s1] end.
  cbn [snd length] in *. unfold len_wildcardIPs.
  match goal with |- context [when ?b ?m s1] =>
    assert (quiet s1 (when b m s1).2) as [He2 _ _ Hc2 _ _] end.
  { apply when_quiet. intros s2. unfold getWildcardIPs. apply Fprintf_Stderr_quiet. }
  destruct (extends_trans _ _ _ He He2) as [_ ->].
  rewrite contacts_app, Hc2, app_nil_r. lia.
Qed.

Lemma ProcessDomain_contacts env d name s :
  contacts (since s (ProcessDomain env d name s).2)
  = contacts (since s (Resolve env d name s).2).
Proof.
  unfold ProcessDomain, mbind, M_bind.
  pose proof (pass_extends _ _ _ _ _ (Resolve_pass env d name s)) as He1.
  destruct (Resolve env d name s) as [r s1]. cbn [fst snd] in *.
  destruct (deliver_spec d name r s1) as (He2 & _ & Hc & _).
  destruct (extends_trans _ _ _ He1 He2) as [_ ->].
  by rewrite contacts_app, Hc, app_nil_r.
Qed.

(** X3. With at least one resolver configured, a lookup and a worker
    each make at least one exchange and at most one per configured
    endpoint; a wildcard probe makes at least three exchanges and at
    most three per endpoint when wildcard checking is on, and none when
    it is off. *)
Theorem exchanges_per_operation env d name s :
  Resolvers (Config d) ≠ [] →
  let n := length (Resolvers (Config d)) in
  (1 ≤ length (contacts (since s (Resolve env d name s).2)) ≤ n)%nat
  ∧ (1 ≤ length (contacts (since s (ProcessDomain env d name s).2)) ≤ n)%nat
  ∧ (if WildcardCheck (Config d)
     then (3 ≤ length (contacts (since s (DetectWildcard env d name s).2))
           ≤ 3 * n)%nat
     else contacts (since s (DetectWildcard env d name s).2) = []).
Proof.
  intros Hne n. subst n. split; [|split].
  - by apply Resolve_cost.
  - rewrite ProcessDomain_contacts. by apply Resolve_cost.
  - destruct (WildcardCheck (Config d)) eqn:Hwc.
    + by apply DetectWildcard_cost.
    + rewrite (DetectWildcard_off env d name s Hwc). cbn [snd].
      by destruct (extends_refl s) as [_ ->].
Qed.


(* ===================================================================== *)
(** * The loops of [main.go], line by line *)
(* ===================================================================== *)

Lemma writeAll_since d lines s :
  extends s (writeAll d lines s).2
  ∧ since s (writeAll d lines s).2
    = lines ≫= λ line,
        EvStdout (line +:+ nl)
          :: (if outputFile d then [EvFileWrite (line +:+ nl)] else []).
Proof.
  revert s. induction lines as [|line rest IH]; intros s.
  - cbn. apply extends_refl.
  - cbn [writeAll]. unfold mbind, M_bind.
    pose proof (quiet_extends _ _ (WriteOutput_quiet d line s)) as He1.
    pose proof (WriteOutput_since d line s) as Hs1.
    destruct (WriteOutput d line s) as [[] s1]. cbn [snd] in *.
    destruct (IH s1) as [He2 Hs2].
    destruct (extends_trans _ _ _ He1 He2) as [He ->]. by rewrite Hs1, Hs2.
Qed.

Lemma drain_blind {B} (f : Event → option B) d s :
  (∀ text, f (EvStdout text) = None) → (∀ text, f (EvFileWrite text) = None) →
  omap f (since s (drain d s).2) = [].
Proof.
  intros Ho Hw. unfold drain. set (s0 := {| wildcardIPs := _ |}).
  change (since s (writeAll d (results s) s0).2)
    with (since s0 (writeAll d (results s) s0).2).
  rewrite (proj2 (writeAll_since d (results s) s0)).
  induction (results s) as [|line rest IH]; [done|].
  cbn. rewrite Ho. destruct (outputFile d); cbn; rewrite ?Hw; apply IH.
Qed.

Lemma ProcessDomain_blind {B} (f : Event → option B) env d name s :
  blindToLookups f → (∀ line, f (EvSend line) = None) →
  omap f (since s (ProcessDomain env d name s).2) = [].
Proof.
  intros Hf Hn. unfold ProcessDomain, mbind, M_bind.
  pose proof (pass_extends _ _ _ _ _ (Resolve_pass env d name s)) as He1.
  pose proof (Resolve_blind f env d name s Hf) as Hb1.
  destruct (Resolve env d name s) as [r s1]. cbn [fst snd] in *.
  destruct (deliver_spec d name r s1) as (He2 & _).
  destruct (obs_trans f _ _ _ He1 He2) as [_ ->].
  rewrite Hb1, (deliver_blind f) by done.
  induction (sends _) as [|x l IH]; [done|]. cbn. by rewrite Hn.
Qed.

(** One name let in, resolved and written out, as the loops of
    [main.go] do it when each worker runs at once. *)
Lemma body_spec env d name s :
  let s' := ((dispatch name;; ProcessDomain env d name;; drain d) s).2 in
  extends s s'
  ∧ admissions (since s s') = admission name
  ∧ contacts (since s s') = contacts (since (dispatch name s).2
                                        (Resolve env d name (dispatch name s).2).2).
Proof.
  unfold mbind, M_bind.
  destruct (dispatch_spec name s) as (He1 & _ & _ & Hc1 & _).
  assert (since s (dispatch name s).2 = admission name) as Hs1.
  { apply extends_by. unfold dispatch, mbind, M_bind. cbn. by rewrite <- app_assoc. }
  destruct (dispatch name s) as [[] s1]. cbn [snd] in *.
  destruct (ProcessDomain_spec env d name s1) as (He2 & _).
  pose proof (ProcessDomain_blind admissionOf env d name s1 blind_admission
                ltac:(done)) as Ha2.
  pose proof (ProcessDomain_contacts env d name s1) as Hc2.
  destruct (ProcessDomain env d name s1) as [[] s2]. cbn [snd] in *.
  destruct (drain_spec d s2) as (He3 & _ & _ & Hc3 & _).
  pose proof (drain_blind admissionOf d s2 ltac:(done) ltac:(done)) as Ha3.
  destruct (extends_trans _ _ _ He1 He2) as [He12 Hs12].
  destruct (extends_trans _ _ _ He12 He3) as [He Hs].
  cbv zeta. unfold admissions in *.
  rewrite Hs, Hs12, !omap_app, !contacts_app, Ha2, Ha3, Hc1, Hc2, Hc3, Hs1.
  cbn. rewrite !app_nil_r. done.
Qed.

Lemma streamingProbe_spec env d name s :
  let s' := (streamingProbe env d name s).2 in
  extends s s'
  ∧ admissions (since s s') = []
  ∧ (Resolvers (Config d) ≠ [] →
     (lookupsFor d name - 1 ≤ length (contacts (since s s'))
      ≤ (lookupsFor d name - 1) * length (Resolvers (Config d)))%nat).
Proof.
  unfold streamingProbe, lookupsFor.
  assert (extends s s ∧ admissions (since s s) = [] ∧ contacts (since s s) = [])
    as (Hr1 & Hr2 & Hr3) by (by destruct (extends_refl s) as [? ->]).
  destruct (WildcardCheck (Config d)) eqn:Hwc; cbn [when andb].
  - unfold baseDomain. cbv zeta.
    destruct (bool_decide (2 ≤ length (Split name "."))%nat).
    + split; [apply DetectWildcard_quiet_run|]. split.
      * by apply (DetectWildcard_blind admissionOf).
      * intros Hne.
        match goal with |- context [DetectWildcard env d ?base s] =>
          pose proof (DetectWildcard_cost env d base s Hne Hwc) end. lia.
    + cbn [mret M_ret snd]. rewrite Hr3. cbn. repeat split; try done; lia.
  - cbv zeta. cbn [mret M_ret snd]. rewrite Hr3. cbn. repeat split; try done; lia.
Qed.

Lemma namesOf_omap lines : namesOf lines = omap streamingName lines.
Proof.
  induction lines as [|text rest IH]; [done|].
  unfold namesOf in *. rewrite fmap_cons, filter_cons, IH.
  cbn [omap list_omap]. unfold streamingName in *.
  destruct (decide (TrimSpace text = "")) as [He|Hne].
  - rewrite decide_False; [done | by intros ?].
  - rewrite decide_True; done.
Qed.

Lemma EnumerateFromReader_loop_lines env d period lines s :
  limiterIsNil period = false →
  let out := EnumerateFromReader_loop env d period lines s in
  let names := namesOf lines in
  extends s out.2
  ∧ admissions (since s out.2) = names ≫= admission
  ∧ (Resolvers (Config d) ≠ [] →
     (sum_list (lookupsFor d <$> names)
      ≤ length (contacts (since s out.2))
      ≤ sum_list (lookupsFor d <$> names) * length (Resolvers (Config d)))%nat).
Proof.
  intros Hnil. cbv zeta. rewrite namesOf_omap.
  revert s. induction lines as [|text rest IH]; intros s.
  - cbn. destruct (extends_refl s) as [He ->]. cbn. repeat split; try done; lia.
  - cbn [EnumerateFromReader_loop omap list_omap].
    destruct (streamingName text) as [name|]; [|apply IH].
    rewrite Hnil.
    destruct (streamingProbe_spec env d name s) as (He1 & Ha1 & Hc1).
    pose proof (body_spec env d name (streamingProbe env d name s).2) as (He2 & Ha2 & Hc2).
    pose proof (λ H, Resolve_cost env d name
                       (dispatch name (streamingProbe env d name s).2).2 H) as Hc2'.
    rewrite <- Hc2 in Hc2'. clear Hc2.
    unfold mbind, M_bind in *.
    destruct (streamingProbe env d name s) as [[] s1]. cbn [snd] in *.
    destruct (dispatch name s1) as [[] s2].
    destruct (ProcessDomain env d name s2) as [[] s3].
    destruct (drain d s3) as [[] s4]. cbn [snd] in *.
    destruct (IH s4) as (He3 & Ha3 & Hc3).
    destruct (extends_trans _ _ _ He1 He2) as [He12 Hs12].
    destruct (extends_trans _ _ _ He12 He3) as [He Hs].
    unfold admissions in *.
    rewrite Hs, Hs12, !omap_app, !contacts_app, !length_app, Ha1, Ha2, Ha3.
    split; [done|]. split; [done|]. intros Hne.
    specialize (Hc1 Hne). specialize (Hc2' Hne). specialize (Hc3 Hne).
    assert (∀ x l, sum_list (lookupsFor d <$> x :: l)
                   = (lookupsFor d x + sum_list (lookupsFor d <$> l))%nat) as ->
      by done.
    set (total := sum_list (lookupsFor d <$> omap streamingName rest)) in *.
    set (n := length (Resolvers (Config d))) in *.
    clearbody total n. unfold lookupsFor in *.
    destruct (WildcardCheck (Config d) && bool_decide (2 ≤ length (Split name "."))%nat);
      cbn [Nat.sub] in Hc1; nia.
Qed.


Lemma candidatesOf_omap domain lines :
  candidatesOf domain lines = omap (bruteforceName domain) lines.
Proof.
  induction lines as [|text rest IH]; [done|].
  rewrite candidatesOf_cons, IH. cbn [omap list_omap]. unfold bruteforceName at 2.
  by destruct (decide (TrimSpace text = "")).
Qed.

Lemma Bruteforce_loop_lines env d period domain lines s :
  limiterIsNil period = false →
  let out := Bruteforce_loop env d period domain lines s in
  let names := candidatesOf domain lines in
  extends s out.2
  ∧ admissions (since s out.2) = names ≫= admission
  ∧ (Resolvers (Config d) ≠ [] →
     (length names ≤ length (contacts (since s out.2))
      ≤ length names * length (Resolvers (Config d)))%nat).
Proof.
  intros Hnil. cbv zeta. rewrite candidatesOf_omap.
  revert s. induction lines as [|text rest IH]; intros s.
  - cbn. destruct (extends_refl s) as [He ->]. cbn. repeat split; try done; lia.
  - cbn [Bruteforce_loop omap list_omap].
    destruct (bruteforceName domain text) as [name|]; [|apply IH].
    rewrite Hnil.
    destruct (body_spec env d name s) as (He2 & Ha2 & Hc2).
    pose proof (λ H, Resolve_cost env d name (dispatch name s).2 H) as Hc2'.
    rewrite <- Hc2 in Hc2'. clear Hc2.
    unfold mbind, M_bind in *.
    destruct (dispatch name s) as [[] s2].
    destruct (ProcessDomain env d name s2) as [[] s3].
    destruct (drain d s3) as [[] s4]. cbn [snd] in *.
    destruct (IH s4) as (He3 & Ha3 & Hc3).
    destruct (extends_trans _ _ _ He2 He3) as [He Hs].
    unfold admissions in *.
    rewrite Hs, !omap_app, !contacts_app, !length_app, Ha2, Ha3.
    split; [done|]. split; [done|]. intros Hne.
    specialize (Hc2' Hne). specialize (Hc3 Hne). cbn [length]. nia.
Qed.

(** X4. When the limiter ticks, each loop starts one worker for every
    non-blank line, in line order, for the trimmed line in streaming
    mode and for the trimmed line put before the base domain in
    brute-force mode; and every start of a worker comes directly after a
    receive from the limiter of its own: permits and starts alternate,
    one permit for each worker. *)
Theorem one_permit_per_worker env d period domain lines s :
  limiterIsNil period = false →
  admissions (since s (EnumerateFromReader_loop env d period lines s).2)
  = namesOf lines ≫= (λ name, [EvPermit; EvSpawn name])
  ∧ admissions (since s (Bruteforce_loop env d period domain lines s).2)
    = candidatesOf domain lines ≫= (λ name, [EvPermit; EvSpawn name]).
Proof.
  intros Hnil. split.
  - by destruct (EnumerateFromReader_loop_lines env d period lines s Hnil) as (_ & H & _).
  - by destruct (Bruteforce_loop_lines env d period domain lines s Hnil) as (_ & H & _).
Qed.

(** X5. Streaming mode probes again for every line: with at least one
    resolver and a limiter that ticks, a run over the lines costs, for
    each non-blank line, at least one exchange, and at least four when
    wildcard checking is on and the name has two labels or more (three
    probe lookups and the worker's), however often the same base domain
    came before; and at most that number for each configured endpoint.
    Brute-force mode costs between one exchange and one per endpoint for
    each candidate. *)
Theorem streaming_probes_every_line env d period domain lines s :
  limiterIsNil period = false →
  Resolvers (Config d) ≠ [] →
  let total := sum_list (lookupsFor d <$> namesOf lines) in
  (total
   ≤ length (contacts (since s (EnumerateFromReader_loop env d period lines s).2))
   ≤ total * length (Resolvers (Config d)))%nat
  ∧ (length (candidatesOf domain lines)
     ≤ length (contacts (since s (Bruteforce_loop env d period domain lines s).2))
     ≤ length (candidatesOf domain lines) * length (Resolvers (Config d)))%nat.
Proof.
  intros Hnil Hne total. split.
  - by destruct (EnumerateFromReader_loop_lines env d period lines s Hnil) as (_ & _ & H);
      apply H.
  - by destruct (Bruteforce_loop_lines env d period domain lines s Hnil) as (_ & _ & H);
      apply H.
Qed.

Lemma EnumerateFromReader_loop_nil env d period lines s :
  limiterIsNil period = true →
  let out := EnumerateFromReader_loop env d period lines s in
  admissions (since s out.2) = []
  ∧ sends (since s out.2) = []
  ∧ out.1 = match namesOf lines with [] => Returned | _ => Blocked end.
Proof.
  intros Hnil. rewrite namesOf_omap.
  revert s. induction lines as [|text rest IH]; intros s.
  - cbn. by destruct (extends_refl s) as [He ->].
  - cbn [EnumerateFromReader_loop omap list_omap].
    destruct (streamingName text) as [name|]; [|apply IH].
    rewrite Hnil. unfold mbind, M_bind.
    pose proof (probeBefore_blind admissionOf env d Streaming name s blind_admission) as Ha.
    pose proof (probeBefore_blind sendOf env d Streaming name s blind_send) as Hn.
    cbn [probeBefore] in Ha, Hn.
    destruct (streamingProbe env d name s) as [[] s1]. by cbn [fst snd] in *.
Qed.

Lemma Bruteforce_loop_nil env d period domain lines s :
  limiterIsNil period = true →
  Bruteforce_loop env d period domain lines s
  = (match candidatesOf domain lines with [] => Returned | _ => Blocked end, s).
Proof.
  intros Hnil. rewrite candidatesOf_omap.
  induction lines as [|text rest IH]; [done|].
  cbn [Bruteforce_loop omap list_omap].
  destruct (bruteforceName domain text) as [name|]; [|apply IH].
  by rewrite Hnil.
Qed.

Lemma EnumerateFromReader_loop_nil_eq env d period lines s :
  limiterIsNil period = true →
  EnumerateFromReader_loop env d period lines s
  = match namesOf lines with
    | [] => (Returned, s)
    | name :: _ => (Blocked, (streamingProbe env d name s).2)
    end.
Proof.
  intros Hnil. rewrite namesOf_omap.
  induction lines as [|text rest IH]; [done|].
  cbn [EnumerateFromReader_loop omap list_omap].
  destruct (streamingName text) as [name|]; [|apply IH].
  rewrite Hnil. unfold mbind, M_bind.
  by destruct (streamingProbe env d name s) as [[] s1].
Qed.

(** X6. When the limiter is a nil channel, no worker is ever started and
    no line is ever sent.  The streaming loop returns, having done
    nothing, if every line is blank; otherwise it is left blocked at its
    first name in the state in which that name's wildcard probe left it,
    the probe's exchanges made (three lookups when wildcard checking is
    on and the name has two labels or more) and their addresses
    recorded, and nothing of the later lines looked at.  The brute-force
    loop returns if every line is blank and is otherwise left blocked at
    its first candidate without having done anything. *)
Theorem nil_limiter_starts_nothing env d period domain lines s :
  limiterIsNil period = true →
  let out := EnumerateFromReader_loop env d period lines s in
  out = match namesOf lines with
        | [] => (Returned, s)
        | name :: _ => (Blocked, (streamingProbe env d name s).2)
        end
  ∧ admissions (since s out.2) = []
  ∧ sends (since s out.2) = []
  ∧ (∀ name rest, namesOf lines = name :: rest →
       Resolvers (Config d) ≠ [] →
       (lookupsFor d name - 1 ≤ length (contacts (since s out.2))
        ≤ (lookupsFor d name - 1) * length (Resolvers (Config d)))%nat)
  ∧ Bruteforce_loop env d period domain lines s
    = (match candidatesOf domain lines with [] => Returned | _ => Blocked end, s).
Proof.
  intros Hnil out. subst out.
  destruct (EnumerateFromReader_loop_nil env d period lines s Hnil) as (Ha & Hn & Ho).
  split; [by apply EnumerateFromReader_loop_nil_eq|].
  split; [done|]. split; [done|]. split; [|by apply Bruteforce_loop_nil].
  intros name rest Hnames Hne.
  rewrite (EnumerateFromReader_loop_nil_eq env d period lines s Hnil), Hnames.
  cbn [snd]. by apply streamingProbe_spec.
Qed.

Lemma limiter_ticks d period :
  limiterPeriod d = Some period →
  limiterIsNil period = false ↔ 1 ≤ RateLimit (Config d) ≤ 1000000000.
Proof.
  unfold limiterPeriod, limiterIsNil.
  destruct (decide (RateLimit (Config d) = 0)) as [|Hnz]; [done|].
  intros [= <-]. set (r := RateLimit (Config d)) in *.
  rewrite bool_decide_eq_false. split.
  - intros Hpos. destruct (Z_lt_le_dec r 0) as [Hneg|Hnn].
    + exfalso. apply Hpos.
      pose proof (Z.quot_opp_r 1000000000 (- r) ltac:(lia)) as Ho.
      rewrite Z.opp_involutive in Ho. rewrite Ho.
      pose proof (Z.quot_pos 1000000000 (- r) ltac:(lia) ltac:(lia)). lia.
    + destruct (Z_lt_le_dec 1000000000 r) as [Hbig|Hok]; [|lia].
      exfalso. apply Hpos. rewrite Z.quot_small by lia. lia.
  - intros [Hlo Hhi] Hle. rewrite Z.quot_div_nonneg in Hle by lia.
    pose proof (Z.div_le_lower_bound 1000000000 r 1 ltac:(lia) ltac:(lia)). lia.
Qed.

(** X7. The limiter as the rate decides it: a rate of 0 makes the
    division panic; otherwise the period is one second divided by the
    rate, in whole nanoseconds, and the limiter is a working channel
    exactly for rates from 1 to 10^9; for those, the period times the
    rate is at most a second and falls short of it by less than the
    rate, in nanoseconds. *)
Theorem limiter_by_rate d :
  (limiterPeriod d = None ↔ RateLimit (Config d) = 0)
  ∧ ∀ period, limiterPeriod d = Some period →
      (limiterIsNil period = false ↔ 1 ≤ RateLimit (Config d) ≤ 1000000000)
      ∧ (1 ≤ RateLimit (Config d) →
         period * RateLimit (Config d) ≤ 1000000000
         < (period + 1) * RateLimit (Config d)).
Proof.
  split.
  - unfold limiterPeriod. by destruct (decide (RateLimit (Config d) = 0)).
  - intros period Hp. split; [by apply limiter_ticks|].
    intros Hr. by apply limiterPeriod_truncates.
Qed.


(* ===================================================================== *)
(** * Strings: the resolver flag, base domains, loaded resolvers *)
(* ===================================================================== *)

Lemma string_app_cons x (a b : string) : String x a +:+ b = String x (a +:+ b).
Proof. done. Qed.

Lemma string_app_assoc (a b c : string) : (a +:+ b) +:+ c = a +:+ b +:+ c.
Proof. induction a as [|x a IH]; [done|]. by rewrite !string_app_cons, IH. Qed.

Lemma string_app_nil_r (a : string) : a +:+ "" = a.
Proof. induction a as [|x a IH]; [done|]. by rewrite string_app_cons, IH. Qed.

Lemma string_rev_app (a b : string) : String.rev_app a b = String.rev a +:+ b.
Proof.
  revert b. unfold String.rev. induction a as [|x a IH]; intros b; [done|].
  cbn. rewrite (IH (String x b)), (IH (String x "")).
  by rewrite string_app_assoc.
Qed.

Lemma string_rev_cons x (a : string) : String.rev (String x a) = String.rev a +:+ String x "".
Proof. unfold String.rev at 1. cbn. apply string_rev_app. Qed.

Lemma HasPrefix_split s p : HasPrefix s p = true → s = p +:+ drop_bytes (String.length p) s.
Proof.
  revert s. induction p as [|x p IH]; intros s; [done|].
  destruct s as [|c s]; [done|]. cbn [HasPrefix].
  destruct (decide (x = c)) as [->|]; [|done].
  intros H. rewrite string_app_cons. cbn [String.length drop_bytes]. f_equal.
  by apply IH.
Qed.

Lemma Split_go_nonempty sep skip cur s : Split_go sep skip cur s ≠ [].
Proof.
  revert skip cur. induction s as [|c s IH]; intros skip cur; cbn [Split_go]; [done|].
  destruct skip; [|apply IH]. destruct (HasPrefix (String c s) sep); [done | apply IH].
Qed.

Lemma Join_cons x l sep : l ≠ [] → Join (x :: l) sep = x +:+ sep +:+ Join l sep.
Proof. by destruct l. Qed.

Lemma Split_go_Join sep s skip cur :
  sep ≠ "" →
  Join (Split_go sep skip cur s) sep = String.rev cur +:+ drop_bytes skip s.
Proof.
  intros Hsep. revert skip cur. induction s as [|c s IH]; intros skip cur.
  - cbn. destruct skip; by rewrite string_app_nil_r.
  - cbn [Split_go]. destruct skip as [|k].
    + cbn [drop_bytes]. destruct (HasPrefix (String c s) sep) eqn:Hp.
      * rewrite Join_cons by apply Split_go_nonempty. rewrite IH. cbn.
        destruct sep as [|a sep']; [done|]. cbn in Hp.
        destruct (decide (a = c)) as [->|]; [|done].
        cbn. rewrite Nat.sub_0_r. f_equal. rewrite string_app_cons. f_equal.
        symmetry. exact (HasPrefix_split s sep' Hp).
      * rewrite IH. cbn [drop_bytes]. rewrite string_rev_cons, string_app_assoc. done.
    + rewrite IH. done.
Qed.

(** X8. The resolver list [main] builds from the [-resolvers] flag is
    never empty, and joined by commas it gives the flag back: nothing of
    the flag is dropped, and an empty flag gives the single endpoint
    "" rather than no endpoint, so that the check for an empty resolver
    list cannot fire on this path. *)
Theorem resolvers_flag_split flag :
  Join (Split flag ",") "," = flag
  ∧ (1 ≤ length (Split flag ","))%nat
  ∧ Split "" "," = [""].
Proof.
  split; [|split].
  - unfold Split. by rewrite Split_go_Join.
  - unfold Split. pose proof (Split_go_nonempty "," 0 "" flag).
    destruct (Split_go "," 0 "" flag); [done | simpl; lia].
  - done.
Qed.

Lemma Split_go_app c cur a b :
  Split_go (String c "") 0 cur (a +:+ String c b)
  = Split_go (String c "") 0 cur a ++ Split_go (String c "") 0 "" b.
Proof.
  revert cur. induction a as [|x a IH]; intros cur.
  - change ("" +:+ String c b) with (String c b). cbn [Split_go HasPrefix].
    rewrite decide_True by done. by destruct b.
  - rewrite string_app_cons. cbn [Split_go HasPrefix].
    destruct (decide (c = x)) as [->|Hne].
    + replace (HasPrefix (a +:+ String x b) "") with true by (by destruct (a +:+ String x b)).
      replace (HasPrefix a "") with true by (by destruct a).
      cbn. by rewrite IH.
    + by rewrite IH.
Qed.

Lemma Split_go_label c cur l :
  Contains l (String c "") = false →
  Split_go (String c "") 0 cur l = [String.rev cur +:+ l].
Proof.
  revert cur. induction l as [|x l IH]; intros cur.
  - cbn. by rewrite string_app_nil_r.
  - cbn [Contains Split_go HasPrefix]. destruct (decide (c = x)) as [->|Hne].
    + by replace (HasPrefix l "") with true by (by destruct l).
    + cbn [orb]. intros Hc. rewrite (IH _ Hc), string_rev_cons, string_app_assoc. done.
Qed.

Lemma Split_dot_label l : Contains l "." = false → Split l "." = [l].
Proof. intros H. unfold Split. by rewrite (Split_go_label _ "" l H). Qed.

Lemma Split_dot_app a b : Split (a +:+ "." +:+ b) "." = Split a "." ++ Split b ".".
Proof. apply Split_go_app. Qed.

(** X9. The base domain the streaming loop probes for a name is made of
    the name's last two dot-separated labels, whatever comes before
    them; a name without a dot has no base domain and is not probed.  (So
    the probe for [www.example.co.uk] goes to [co.uk], and the one for a
    name with a trailing dot, whose last label is empty, to a name ending
    in a dot.) *)
Theorem baseDomain_last_two_labels l1 l2 :
  Contains l1 "." = false →
  Contains l2 "." = false →
  baseDomain (l1 +:+ "." +:+ l2) = Some (l1 +:+ "." +:+ l2)
  ∧ (∀ pre, baseDomain (pre +:+ "." +:+ l1 +:+ "." +:+ l2)
            = Some (l1 +:+ "." +:+ l2))
  ∧ baseDomain l1 = None.
Proof.
  intros H1 H2. unfold baseDomain. split; [|split].
  - rewrite Split_dot_app, (Split_dot_label l1), (Split_dot_label l2) by done. done.
  - intros pre. rewrite !Split_dot_app, (Split_dot_label l1), (Split_dot_label l2) by done.
    pose proof (Split_go_nonempty "." 0 "" pre) as Hne. fold (Split pre ".") in Hne.
    set (parts := Split pre ".") in *. cbv zeta.
    rewrite bool_decide_true by (rewrite !length_app; simpl; lia).
    rewrite !length_app. cbn [length].
    replace (length parts + (1 + 1) - 2)%nat with (length parts + 0)%nat by lia.
    replace (length parts + (1 + 1) - 1)%nat with (length parts + 1)%nat by lia.
    rewrite (lookup_app_r parts _ (length parts + 0)) by lia.
    rewrite (lookup_app_r parts _ (length parts + 1)) by lia.
    replace (length parts + 0 - length parts)%nat with 0%nat by lia.
    replace (length parts + 1 - length parts)%nat with 1%nat by lia.
    done.
  - by rewrite Split_dot_label.
Qed.

Lemma Contains_app_r a b sub : HasPrefix b sub = true → Contains (a +:+ b) sub = true.
Proof.
  intros Hb. induction a as [|x a IH].
  - change ("" +:+ b) with b. destruct b; cbn [Contains]; by rewrite Hb.
  - rewrite string_app_cons. cbn [Contains]. rewrite IH.
    by rewrite orb_true_r.
Qed.

Lemma withPort_has_port host : Contains (withPort host) ":" = true.
Proof.
  unfold withPort. destruct (Contains host ":") eqn:Hc; [done|].
  by apply Contains_app_r.
Qed.

(** X10. [LoadResolversFromFile] gives the error of [os.Open] when the
    file cannot be opened, and the scanner's error, without any of the
    resolvers read before it, when the scan fails; otherwise every
    resolver it returns holds a port separator, and there are at most as
    many as the file has lines. *)
Theorem LoadResolversFromFile_result env filename :
  match os_Open env filename with
  | OpenErr err => LoadResolversFromFile env filename = inr err
  | Opened lines (Some err) => LoadResolversFromFile env filename = inr err
  | Opened lines None =>
      ∃ resolvers,
        LoadResolversFromFile env filename = inl resolvers
        ∧ (∀ r, r ∈ resolvers → Contains r ":" = true)
        ∧ (length resolvers ≤ length lines)%nat
  end.
Proof.
  unfold LoadResolversFromFile.
  destruct (os_Open env filename) as [err|lines [err|]]; [done..|].
  exists (resolversOf lines). rewrite loadResolvers_loop_spec. split; [done|]. split.
  - intros r Hr. unfold resolversOf in Hr.
    apply list_elem_of_fmap in Hr as (h & -> & _). apply withPort_has_port.
  - unfold resolversOf. rewrite length_fmap.
    etrans; [apply length_filter|]. by rewrite length_fmap.
Qed.

(* ===================================================================== *)
(** * The report of the wildcard detector *)
(* ===================================================================== *)

Lemma lookupTrace_app verbose cs1 cs2 :
  lookupTrace verbose (cs1 ++ cs2) = lookupTrace verbose cs1 ++ lookupTrace verbose cs2.
Proof. unfold lookupTrace. apply bind_app. Qed.

Lemma Resolve_trace env d name s :
  since s (Resolve env d name s).2
  = lookupTrace (Verbose (Config d)) (contacts (since s (Resolve env d name s).2)).
Proof. unfold Resolve. apply Resolve_loop_trace. Qed.

Lemma probe_loop_trace env d domain subs s :
  since s (probe_loop env d domain subs s).2
  = lookupTrace (Verbose (Config d))
      (contacts (since s (probe_loop env d domain subs s).2)).
Proof.
  revert s. induction subs as [|sub rest IH]; intros s.
  - cbn. by destruct (extends_refl s) as [_ ->].
  - cbn [probe_loop]. unfold mbind, M_bind.
    pose proof (pass_extends _ _ _ _ _ (Resolve_pass env d (sub +:+ "." +:+ domain) s)) as He1.
    pose proof (Resolve_trace env d (sub +:+ "." +:+ domain) s) as Ht1.
    destruct (Resolve env d (sub +:+ "." +:+ domain) s) as [r s1]. cbn [fst snd] in *.
    set (m := match r with
              | Ok ips => when (bool_decide (0 < length ips)%nat) (recordIPs ips)
              | Err _ => mret tt
              end).
    pose proof (recorded_log r s1) as Hl. cbv zeta in Hl. fold m in Hl.
    destruct (m s1) as [[] s2]. cbn [snd] in *.
    pose proof (probed_extends _ _ _ _ _ (probe_loop_probed env d domain rest s2)) as He3.
    assert (extends s s2) as He2 by (by apply (extends_same_log s s1 s2)).
    destruct (extends_trans _ _ _ He2 He3) as [_ ->].
    rewrite contacts_app, lookupTrace_app, <- IH, (since_same_log s s2 s1) by done.
    by rewrite <- Ht1.
Qed.

(** X12. What a call of [DetectWildcard] writes.  With wildcard checking
    on and in verbose mode it writes the failure line of every exchange
    that failed, and after them the report of the recorded addresses
    whenever any address is recorded when the probes are over, whether
    this call recorded it or an earlier one for another domain did; in
    every other case it writes nothing.  It writes to the standard error
    stream only. *)
Theorem DetectWildcard_report env d domain s :
  let s' := (DetectWildcard env d domain s).2 in
  stderrs (since s s')
  = (if WildcardCheck (Config d) && Verbose (Config d)
     then omap failureLine (contacts (since s s'))
            ++ (if decide (WildcardIPSet s' = ∅) then [] else [wildcardReport s'])
     else [])
  ∧ stdouts (since s s') = []
  ∧ fileWrites (since s s') = []
  ∧ WildcardIPSet s ⊆ WildcardIPSet s'.
Proof.
  cbv zeta. split; [|split; [|split]].
  2: apply (DetectWildcard_blind stdoutOf); apply blind_stdout.
  2: apply (DetectWildcard_blind fileWriteOf); apply blind_fileWrite.
  2: by destruct (DetectWildcard_quiet_run env d domain s) as (_ & _ & _ & _ & H & _).
  unfold DetectWildcard. destruct (WildcardCheck (Config d)); cbn [negb andb].
  - unfold mbind, M_bind. cbn [testSubdomains].
    match goal with |- context [probe_loop env d domain ?subs s] =>
      pose proof (probe_loop_trace env d domain subs s) as Ht;
      pose proof (probed_extends _ _ _ _ _ (probe_loop_probed env d domain subs s)) as He;
      destruct (probe_loop env d domain subs s) as [[] s1] end.
    cbn [snd] in *. unfold len_wildcardIPs.
    assert (bool_decide (0 < size (wildcardIPs s1))%nat
            = negb (bool_decide (WildcardIPSet s1 = ∅))) as Hsz.
    { unfold WildcardIPSet. destruct (decide (wildcardIPs s1 = ∅)) as [Hemp|Hne].
      - rewrite Hemp, map_size_empty, dom_empty_L.
        rewrite bool_decide_false by lia. by rewrite bool_decide_true.
      - rewrite bool_decide_true.
        + rewrite bool_decide_false; [done|]. by rewrite dom_empty_iff_L.
        + apply map_size_non_empty_iff in Hne. lia. }
    rewrite Hsz. destruct (Verbose (Config d)) eqn:Hv.
    + rewrite andb_true_r. destruct (decide (WildcardIPSet s1 = ∅)) as [Hemp|Hne].
      * rewrite bool_decide_true by done. cbn [negb when mret M_ret snd].
        rewrite decide_True by done. rewrite Ht at 1.
        by rewrite lookupTrace_stderrs, app_nil_r.
      * rewrite bool_decide_false by done. cbn [negb when].
        unfold mbind, M_bind. cbn [getWildcardIPs fst snd].
        match goal with |- context [Fprintf_Stderr ?t s1] =>
          destruct (emit_extends (EvStderr t) s1) as [He2 Hs2];
          change (emit (EvStderr t) s1) with (Fprintf_Stderr t s1) in He2, Hs2;
          set (s2 := (Fprintf_Stderr t s1).2) in * end.
        assert (wildcardIPs s2 = wildcardIPs s1) as Hw by done.
        rewrite decide_False by (unfold WildcardIPSet in *; by rewrite Hw).
        destruct (extends_trans _ _ _ He He2) as [_ ->].
        unfold stderrs. rewrite contacts_app, !omap_app, Hs2.
        change (contacts [EvStderr _]) with (@nil Contact). rewrite app_nil_r.
        rewrite Ht at 1. fold (stderrs (lookupTrace true (contacts (since s s1)))).
        by rewrite lookupTrace_stderrs.
    + rewrite andb_false_r. cbn [when mret M_ret snd].
      rewrite Ht. by rewrite lookupTrace_stderrs.
  - cbn. by destruct (extends_refl s) as [_ ->].
Qed.

(* ===================================================================== *)
(** * How the dispatch loops and [main] end *)
(* ===================================================================== *)

Lemma EnumerateFromReader_loop_outcome env d period lines s :
  results s = [] →
  (EnumerateFromReader_loop env d period lines s).1
  = if limiterIsNil period
    then match namesOf lines with [] => Returned | _ => Blocked end
    else Returned.
Proof.
  intros Hr. destruct (limiterIsNil period) eqn:Hnil.
  - by destruct (EnumerateFromReader_loop_nil env d period lines s Hnil) as (_ & _ & H).
  - by destruct (EnumerateFromReader_loop_run env d period lines 0 s Hnil Hr) as [H _].
Qed.

Lemma Bruteforce_loop_outcome env d period domain lines s :
  (Bruteforce_loop env d period domain lines s).1
  = if limiterIsNil period
    then match candidatesOf domain lines with [] => Returned | _ => Blocked end
    else Returned.
Proof.
  destruct (limiterIsNil period) eqn:Hnil.
  - by rewrite Bruteforce_loop_nil.
  - by destruct (Bruteforce_loop_spawns env d period domain lines s Hnil) as [H _].
Qed.

Lemma limiter_for_rate d :
  match limiterPeriod d with
  | None => RateLimit (Config d) = 0
  | Some period =>
      RateLimit (Config d) ≠ 0
      ∧ limiterIsNil period = negb (bool_decide (1 ≤ RateLimit (Config d) ≤ 1000000000))
  end.
Proof.
  destruct (limiterPeriod d) as [period|] eqn:Hp.
  - split.
    + unfold limiterPeriod in Hp. by destruct (decide (RateLimit (Config d) = 0)).
    + pose proof (limiter_ticks d period Hp) as Ht.
      destruct (limiterIsNil period); case_bool_decide; try done.
      * destruct Ht as [_ Ht]. by specialize (Ht ltac:(done)).
      * destruct Ht as [Ht _]. by specialize (Ht eq_refl).
  - unfold limiterPeriod in Hp. by destruct (decide (RateLimit (Config d) = 0)).
Qed.

Lemma EnumerateFromReader_outcome env d lines s :
  (EnumerateFromReader env d lines s).1
  = if decide (RateLimit (Config d) = 0) then Panicked "integer divide by zero"
    else if bool_decide (1 ≤ RateLimit (Config d) ≤ 1000000000) then Returned
    else match namesOf lines with [] => Returned | _ => Blocked end.
Proof.
  unfold EnumerateFromReader. pose proof (limiter_for_rate d) as Hl.
  destruct (limiterPeriod d) as [period|].
  - destruct Hl as [Hnz Hnil]. rewrite decide_False by done.
    unfold mbind, M_bind. cbn [make_results].
    rewrite EnumerateFromReader_loop_outcome by done. rewrite Hnil.
    by destruct (bool_decide (1 ≤ RateLimit (Config d) ≤ 1000000000)).
  - by rewrite decide_True.
Qed.

Lemma Bruteforce_outcome env d domain path s :
  (Bruteforce env d domain path s).1
  = match os_Open env path with
    | OpenErr _ => Returned
    | Opened words _ =>
        if decide (RateLimit (Config d) = 0) then Panicked "integer divide by zero"
        else if bool_decide (1 ≤ RateLimit (Config d) ≤ 1000000000) then Returned
        else match candidatesOf domain words with [] => Returned | _ => Blocked end
    end.
Proof.
  unfold Bruteforce. unfold mbind at 1, M_bind at 1.
  destruct (DetectWildcard env d domain s) as [[] s1].
  destruct (os_Open env path) as [err|words scanErr]; [done|].
  pose proof (limiter_for_rate d) as Hl.
  destruct (limiterPeriod d) as [period|].
  - destruct Hl as [Hnz Hnil]. rewrite decide_False by done.
    unfold mbind, M_bind. cbn [make_results].
    match goal with |- context [Bruteforce_loop env d period domain words ?s2] =>
      pose proof (Bruteforce_loop_outcome env d period domain words s2) as Ho;
      destruct (Bruteforce_loop env d period domain words s2) as [o s3] end.
    cbn [fst] in Ho. rewrite Hnil in Ho. subst o.
    destruct (bool_decide (1 ≤ RateLimit (Config d) ≤ 1000000000)); cbn [negb].
    + by destruct scanErr.
    + destruct (candidatesOf domain words); [by destruct scanErr | done].
  - by rewrite decide_True.
Qed.

(** X13. How the two dispatch loops end, by the configured rate.  A rate
    of 0 panics with a division by zero, in streaming mode before
    anything else and in brute-force mode once the wordlist is open; a
    rate from 1 to 10^9 lets the loop return; any other rate leaves the
    loop blocked at its first name, and lets it return only when there
    is no name at all.  A wordlist that cannot be opened makes
    [Bruteforce] return whatever the rate. *)
Theorem loops_end_by_rate env d domain path lines s :
  (EnumerateFromReader env d lines s).1
  = (if decide (RateLimit (Config d) = 0) then Panicked "integer divide by zero"
     else if bool_decide (1 ≤ RateLimit (Config d) ≤ 1000000000) then Returned
     else match namesOf lines with [] => Returned | _ => Blocked end)
  ∧ (Bruteforce env d domain path s).1
    = match os_Open env path with
      | OpenErr _ => Returned
      | Opened words _ =>
          if decide (RateLimit (Config d) = 0) then Panicked "integer divide by zero"
          else if bool_decide (1 ≤ RateLimit (Config d) ≤ 1000000000) then Returned
          else match candidatesOf domain words with [] => Returned | _ => Blocked end
      end.
Proof. split; [apply EnumerateFromReader_outcome | apply Bruteforce_outcome]. Qed.

Lemma usage_log env s :
  ∃ lines, lines ≠ [] ∧ log (usage env s).2 = log s ++ (EvStderr <$> lines)
           ∧ results (usage env s).2 = results s.
Proof.
  eexists [_; _; _; _; _; _; _]. split; [done|]. split; [|done].
  unfold usage, Fprintln_Stderr, mbind, M_bind, emit. cbn.
  rewrite <- !(assoc_L (++)). reflexivity.
Qed.

Lemma Fprintf_Stderr_log text s :
  ∃ lines, lines ≠ [] ∧ log (Fprintf_Stderr text s).2 = log s ++ (EvStderr <$> lines)
           ∧ results (Fprintf_Stderr text s).2 = results s.
Proof. by exists [text]. Qed.

(** The mode [main] runs in once the enumerator is there. *)
Lemma main_mode_outcome env d flags s :
  let m := if bool_decide (flag_d flags ≠ "") && bool_decide (flag_w flags ≠ "")
           then Bruteforce env d (flag_d flags) (flag_w flags)
           else if stdin_piped env
           then EnumerateFromReader env d (stdin_lines env)
           else usage env;; mret (Exited 1) in
  match (m s).1 with
  | Exited code =>
      code = 1 ∧ (flag_d flags = "" ∨ flag_w flags = "") ∧ stdin_piped env = false
      ∧ ∃ lines, lines ≠ [] ∧ log (m s).2 = log s ++ (EvStderr <$> lines)
                 ∧ results (m s).2 = results s
  | _ => (flag_d flags ≠ "" ∧ flag_w flags ≠ "") ∨ stdin_piped env = true
  end.
Proof.
  cbv zeta.
  destruct (bool_decide (flag_d flags ≠ "") && bool_decide (flag_w flags ≠ "")) eqn:Hb.
  - apply andb_true_iff in Hb as [Hd%bool_decide_eq_true Hw%bool_decide_eq_true].
    rewrite Bruteforce_outcome.
    destruct (os_Open env (flag_w flags)) as [?|words ?]; [by left|].
    destruct (decide (RateLimit (Config d) = 0)); [by left|].
    destruct (bool_decide (1 ≤ RateLimit (Config d) ≤ 1000000000)); [by left|].
    destruct (candidatesOf (flag_d flags) words); by left.
  - assert (flag_d flags = "" ∨ flag_w flags = "") as Hdw.
    { apply andb_false_iff in Hb as [Hd%bool_decide_eq_false|Hw%bool_decide_eq_false].
      - left. by destruct (decide (flag_d flags = "")).
      - right. by destruct (decide (flag_w flags = "")). }
    destruct (stdin_piped env) eqn:Hp.
    + rewrite EnumerateFromReader_outcome.
      destruct (decide (RateLimit (Config d) = 0)); [by right|].
      destruct (bool_decide (1 ≤ RateLimit (Config d) ≤ 1000000000)); [by right|].
      destruct (namesOf (stdin_lines env)); by right.
    + unfold mbind, M_bind.
      destruct (usage_log env s) as (lines & Hne & Hlog & Hres).
      destruct (usage env s) as [[] s1]. cbn [fst snd mret M_ret] in *.
      repeat split; try done. by exists lines.
Qed.

Lemma NewDNSEnumerator_spec env config s :
  let out := NewDNSEnumerator env config s in
  results out.2 = results s
  ∧ log out.2
    = log s ++ (if decide (OutputFile config ≠ "")
                then [EvOpenFile (OutputFile config)
                        (os_OpenFile env (OutputFile config))]
                else [])
  ∧ out.1 = if decide (OutputFile config ≠ "")
            then match os_OpenFile env (OutputFile config) with
                 | Some err => inr ("error opening output file: " +:+ err)
                 | None => inl {| Config := config; outputFile := true |}
                 end
            else inl {| Config := config; outputFile := false |}.
Proof.
  cbv zeta. unfold NewDNSEnumerator, mbind, M_bind, os_OpenFile_append.
  destruct (decide (OutputFile config ≠ "")).
  - by destruct (os_OpenFile env (OutputFile config)).
  - cbn [fst snd log results]. by rewrite app_nil_r.
Qed.

(** X15. [main] exits with status 1 exactly for a configuration it
    cannot run: an unreadable resolver file or one that names no
    resolver, an output file that cannot be opened, or neither a
    brute-force target (both [-d] and [-w]) nor piped input.  In each
    of these cases all it has done is write to the standard error
    stream, after the attempt to open the output file when it got that
    far (so a run that ends with the usage text has created the file
    that [-o] names): nothing was looked up, printed or sent.  No
    failure after that point, of a lookup, of the wordlist or of the
    limiter, gives status 1. *)
Theorem main_exit_one env flags s :
  let out := main env flags s in
  (out.1 = Exited 1 ↔
     flag_version flags = false
     ∧ match chosenResolvers env flags with
       | inr _ | inl [] => True
       | inl _ =>
           (flag_o flags ≠ "" ∧ is_Some (os_OpenFile env (flag_o flags)))
           ∨ ((flag_d flags = "" ∨ flag_w flags = "") ∧ stdin_piped env = false)
       end)
  ∧ (out.1 = Exited 1 →
     ∃ lines, lines ≠ []
       ∧ log out.2 = log s ++ openAttempt env flags ++ (EvStderr <$> lines)
       ∧ results out.2 = results s).
Proof.
  cbv zeta. unfold openAttempt. remember (main env flags s) as out eqn:Hout.
  unfold main in Hout. fold (chosenResolvers env flags) in Hout.
  destruct (flag_version flags).
  { subst out. split; [split; [done | by intros [? _]] | done]. }
  destruct (chosenResolvers env flags) as [rs|err].
  2: { unfold mbind, M_bind in Hout.
       match type of Hout with context [Fprintf_Stderr ?t s] =>
         destruct (Fprintf_Stderr_log t s) as (lines & Hne & Hlog & Hres);
         destruct (Fprintf_Stderr t s) as [[] s1] end.
       subst out. cbn [fst snd mret M_ret app] in *. split; [done|].
       intros _. by exists lines. }
  destruct (decide (length rs = 0%nat)) as [Hz|Hnz].
  { destruct rs; [|done]. unfold mbind, M_bind, Fprintln_Stderr in Hout.
    destruct (Fprintf_Stderr_log ("No DNS resolvers specified" +:+ nl) s)
      as (lines & Hne & Hlog & Hres).
    change (emit (EvStderr ("No DNS resolvers specified" +:+ nl)))
      with (Fprintf_Stderr ("No DNS resolvers specified" +:+ nl)) in Hout.
    destruct (Fprintf_Stderr ("No DNS resolvers specified" +:+ nl) s) as [[] s1].
    subst out. cbn [fst snd mret M_ret app] in *. split; [done|].
    intros _. by exists lines. }
  destruct rs as [|r rs]; [done|].
  unfold mbind, M_bind in Hout.
  match type of Hout with context [NewDNSEnumerator env ?config s] =>
    destruct (NewDNSEnumerator_spec env config s) as (Hr0 & Hl0 & He);
    destruct (NewDNSEnumerator env config s) as [e s0] end.
  cbn [fst snd OutputFile] in Hr0, Hl0, He.
  assert (∀ d (o : Outcome) s1,
    ((if bool_decide (flag_d flags ≠ "") && bool_decide (flag_w flags ≠ "")
      then Bruteforce env d (flag_d flags) (flag_w flags)
      else if stdin_piped env
      then EnumerateFromReader env d (stdin_lines env)
      else usage env;; mret (Exited 1)) s0) = (o, s1) →
    out = (match o with
           | Returned => Close d;; mret (Exited 0)
           | Panicked _ => Close d;; mret o
           | _ => mret o
           end) s1 →
    (out.1 = Exited 1 ↔
       (flag_d flags = "" ∨ flag_w flags = "") ∧ stdin_piped env = false)
    ∧ (out.1 = Exited 1 →
       ∃ lines, lines ≠ [] ∧ log out.2 = log s0 ++ (EvStderr <$> lines)
                ∧ results out.2 = results s)) as Hmode.
  { intros d o s1 Hm ->. pose proof (main_mode_outcome env d flags s0) as Ho.
    cbv zeta in Ho. rewrite Hm in Ho. cbn [fst snd] in Ho. rewrite Hr0 in Ho.
    destruct o as [|code|msg|].
    2: { cbn [fst snd mret M_ret].
         destruct Ho as (-> & Hdw & Hp & lines & Hne & Hlog & Hres).
         split; [done|]. intros _. by exists lines. }
    all: unfold Close, when, emit, mbind, M_bind, mret, M_ret;
      destruct (outputFile d); cbn [fst snd];
      (split; [|done]); (split; [done|]); intros [Hdw Hp];
      (destruct Ho as [[Hd Hw]|Hp']; [by destruct Hdw | congruence]). }
  rewrite Hl0 in Hmode. setoid_rewrite <- (assoc_L (++)) in Hmode.
  destruct (decide (flag_o flags ≠ "")) as [Ho|Ho].
  - destruct (os_OpenFile env (flag_o flags)) as [err|] eqn:Hopen; subst e.
    + unfold mbind, M_bind in Hout.
      match type of Hout with context [Fprintf_Stderr ?t s0] =>
        destruct (Fprintf_Stderr_log t s0) as (lines & Hne & Hlog & Hres);
        destruct (Fprintf_Stderr t s0) as [[] s1] end.
      subst out. cbn [fst snd mret M_ret] in *.
      rewrite Hl0, <- (assoc_L (++)) in Hlog. rewrite Hr0 in Hres.
      split.
      * split; [|done]. intros _. split; [done|]. left. split; [done|]. by eexists.
      * intros _. by exists lines.
    + match type of Hout with context [(if bool_decide _ && _ then Bruteforce env ?d _ _
                                        else _) s0] =>
        destruct (Hmode d) with (o := ((if bool_decide (flag_d flags ≠ "")
                                            && bool_decide (flag_w flags ≠ "")
          then Bruteforce env d (flag_d flags) (flag_w flags)
          else if stdin_piped env
          then EnumerateFromReader env d (stdin_lines env)
          else usage env;; mret (Exited 1)) s0).1)
          (s1 := ((if bool_decide (flag_d flags ≠ "")
                      && bool_decide (flag_w flags ≠ "")
          then Bruteforce env d (flag_d flags) (flag_w flags)
          else if stdin_piped env
          then EnumerateFromReader env d (stdin_lines env)
          else usage env;; mret (Exited 1)) s0).2) as [Hiff Hlog] end.
      * by rewrite <- surjective_pairing.
      * rewrite Hout. unfold mbind, M_bind.
        by match goal with |- context [let (_, _) := ?m in _] =>
             destruct m as [[] ?] end.
      * split; [|done]. rewrite Hiff. split.
        -- intros H. split; [done|]. by right.
        -- intros [_ [[_ [? [=]]]|H]]. done.
  - subst e.
    match type of Hout with context [(if bool_decide _ && _ then Bruteforce env ?d _ _
                                      else _) s0] =>
      destruct (Hmode d) with (o := ((if bool_decide (flag_d flags ≠ "")
                                          && bool_decide (flag_w flags ≠ "")
        then Bruteforce env d (flag_d flags) (flag_w flags)
        else if stdin_piped env
        then EnumerateFromReader env d (stdin_lines env)
        else usage env;; mret (Exited 1)) s0).1)
        (s1 := ((if bool_decide (flag_d flags ≠ "")
                    && bool_decide (flag_w flags ≠ "")
        then Bruteforce env d (flag_d flags) (flag_w flags)
        else if stdin_piped env
        then EnumerateFromReader env d (stdin_lines env)
        else usage env;; mret (Exited 1)) s0).2) as [Hiff Hlog] end.
    + by rewrite <- surjective_pairing.
    + rewrite Hout. unfold mbind, M_bind.
      by match goal with |- context [let (_, _) := ?m in _] =>
           destruct m as [[] ?] end.
    + split; [|done]. rewrite Hiff. split.
      * intros H. split; [done|]. by right.
      * intros [_ [[? _]|H]]; done.
Qed.

(** X16. With a usable configuration and a rate from 1 to 10^9, [main]
    exits with status 0 in both modes, whatever the resolvers answer
    and whatever the input holds: failed lookups, filtered answers, a
    wordlist that cannot be opened and a wordlist whose scan fails all
    end in status 0. *)
Theorem main_exits_zero env flags s rs :
  flag_version flags = false →
  chosenResolvers env flags = inl rs →
  rs ≠ [] →
  flag_o flags = "" ∨ os_OpenFile env (flag_o flags) = None →
  (flag_d flags ≠ "" ∧ flag_w flags ≠ "") ∨ stdin_piped env = true →
  1 ≤ flag_rate flags ≤ 1000000000 →
  (main env flags s).1 = Exited 0.
Proof.
  intros Hv Hrs Hne Hout Hmode Hrate. unfold main. rewrite Hv.
  unfold chosenResolvers in Hrs. rewrite Hrs.
  rewrite decide_False by (by destruct rs).
  unfold mbind at 1, M_bind at 1.
  match goal with |- context [NewDNSEnumerator env ?config s] =>
    destruct (NewDNSEnumerator_spec env config s) as (_ & _ & He);
    destruct (NewDNSEnumerator env config s) as [e s0] end.
  cbn [fst snd OutputFile] in He.
  assert (∀ d, RateLimit (Config d) = flag_rate flags →
    ((if bool_decide (flag_d flags ≠ "") && bool_decide (flag_w flags ≠ "")
      then Bruteforce env d (flag_d flags) (flag_w flags)
      else if stdin_piped env
      then EnumerateFromReader env d (stdin_lines env)
      else usage env;; mret (Exited 1)) s0).1 = Returned) as Hret.
  { intros d Hd.
    destruct (bool_decide (flag_d flags ≠ "") && bool_decide (flag_w flags ≠ "")) eqn:Hb.
    - rewrite Bruteforce_outcome, Hd.
      destruct (os_Open env (flag_w flags)); [done|].
      rewrite decide_False by lia. by rewrite bool_decide_true.
    - destruct Hmode as [[Hd' Hw']|Hp].
      + by rewrite !bool_decide_true in Hb.
      + rewrite Hp, EnumerateFromReader_outcome, Hd.
        rewrite decide_False by lia. by rewrite bool_decide_true. }
  destruct (decide (flag_o flags ≠ "")) as [Ho|Ho].
  - destruct Hout as [Hout|Hout]; [done|]. rewrite Hout in He. subst e.
    unfold mbind, M_bind.
    match goal with |- context [(if bool_decide _ && _ then Bruteforce env ?d _ _
                                 else _) s0] =>
      pose proof (Hret d eq_refl) as Hm end.
    unfold mbind, M_bind in Hm.
    match type of Hm with (?m s0).1 = _ => destruct (m s0) as [o s1] end.
    cbn [fst] in Hm. by subst o.
  - subst e. unfold mbind, M_bind.
    match goal with |- context [(if bool_decide _ && _ then Bruteforce env ?d _ _
                                 else _) s0] =>
      pose proof (Hret d eq_refl) as Hm end.
    unfold mbind, M_bind in Hm.
    match type of Hm with (?m s0).1 = _ => destruct (m s0) as [o s1] end.
    cbn [fst] in Hm. by subst o.
Qed.

(* ===================================================================== *)
(** * When the goroutines can go on *)
(* ===================================================================== *)

Lemma deliver_room d name r s :
  results s = [] → (length (results (deliver d name r s).2) ≤ results_cap)%nat.
Proof.
  intros Hr. destruct (deliver_spec d name r s) as (_ & _ & _ & _ & Hres & Hs).
  rewrite Hres, Hr, Hs. unfold results_cap.
  destruct r as [ips|err]; [|simpl; lia].
  destruct (WildcardCheck (Config d) && (isWildcardResponse ips s).1); simpl; lia.
Qed.

(** X17. The goroutines of a dispatch loop come to a halt in two
    situations only: when everything is done (no line left, no name
    waiting, no worker in flight, the channel empty), or when the
    limiter is a nil channel and a name waits for its permit while
    nothing else is in flight.  In every other pool some goroutine can
    take a step: the consumer while the channel holds a line, else a
    worker, else the loop.  In particular a working limiter never lets
    the loop stop short of the end of its input, and the channel's
    bound of 100 never blocks the workers for good. *)
Theorem stuck_pools env d mode period p :
  stuck env d mode period p ↔
    finished p
    ∨ (limiterIsNil period = true ∧ is_Some (waiting p)
       ∧ tasks p = [] ∧ results (st p) = []).
Proof.
  destruct p as [inp w ts n s]. unfold stuck, finished. cbn [input waiting tasks st].
  split.
  - intros Hstuck.
    destruct (results s) as [|line rest] eqn:Hres.
    2: { exfalso. eapply (Hstuck (LSink line)). apply step_sink. by rewrite Hres. }
    destruct ts as [|t ts].
    2: { exfalso. destruct t as [id name|id name r].
         - apply (Hstuck _ _ (step_resolve env d mode period inp w [] ts n s id name)).
         - apply (Hstuck _ _ (step_deliver env d mode period inp w [] ts n s id name r
                                (deliver_room d name r s Hres))). }
    destruct w as [name|].
    + destruct (limiterIsNil period) eqn:Hnil; [by right|].
      exfalso. apply (Hstuck _ _ (step_dispatch env d mode period inp [] n s name Hnil)).
    + destruct inp as [|text rest]; [by left|]. exfalso.
      destruct (candidate mode text) as [name|] eqn:Hc.
      * apply (Hstuck _ _ (step_probe env d mode period text rest [] n s name Hc)).
      * apply (Hstuck _ _ (step_skip env d mode period text rest [] n s Hc)).
  - intros H l p' Hstep. inversion Hstep; subst; cbn in *.
    + destruct H as [(? & _)|(_ & [? ?] & _)]; done.
    + destruct H as [(? & _)|(_ & [? ?] & _)]; done.
    + destruct H as [(_ & ? & _)|(? & _)]; congruence.
    + destruct H as [(_ & _ & Ht & _)|(_ & _ & Ht & _)];
        by apply app_cons_not_nil in Ht || (symmetry in Ht; by apply app_cons_not_nil in Ht).
    + destruct H as [(_ & _ & Ht & _)|(_ & _ & Ht & _)];
        by apply app_cons_not_nil in Ht || (symmetry in Ht; by apply app_cons_not_nil in Ht).
    + destruct H as [(_ & _ & _ & Hr)|(_ & _ & _ & Hr)];
        match goal with Hh : head _ = Some _ |- _ => by rewrite Hr in Hh end.
Qed.

(* ===================================================================== *)
(** * The values of [wildcardIPs] *)
(* ===================================================================== *)

Lemma wf_lookup s ip :
  wildcard_wf s →
  (ip ∈ WildcardIPSet s ↔ wildcardIPs s !! ip = Some true)
  ∧ map_index (wildcardIPs s) ip = bool_decide (ip ∈ WildcardIPSet s).
Proof.
  intros Hwf. unfold WildcardIPSet, map_index.
  destruct (wildcardIPs s !! ip) as [b|] eqn:Hl.
  - pose proof (Hwf ip b Hl) as ->. split.
    + split; [done|]. intros _. apply elem_of_dom. by eexists.
    + cbn. rewrite bool_decide_true; [done|]. apply elem_of_dom. by eexists.
  - apply not_elem_of_dom in Hl as Hd. split.
    + split; [done | by intros ?].
    + cbn. by rewrite bool_decide_false.
Qed.

(** X18. From [NewDNSEnumerator] on, through the probe of brute-force
    mode and every step of every run of either dispatch loop, each value
    held in [wildcardIPs] is [true]: an address is a key of the map
    exactly when the map holds [true] for it, and the index expression
    [d.wildcardIPs[ip]] asks no more than whether [ip] is a key. *)
Theorem wildcardIPs_values_true env config d mode period lines s tr p :
  run env d mode period
    (startPool lines (loopStart env d mode (NewDNSEnumerator env config s).2)) tr p →
  wildcard_wf (st p)
  ∧ ∀ ip, (ip ∈ WildcardIPSet (st p) ↔ wildcardIPs (st p) !! ip = Some true)
          ∧ map_index (wildcardIPs (st p)) ip = bool_decide (ip ∈ WildcardIPSet (st p)).
Proof.
  intros Hrun.
  assert (wildcard_wf (st p)) as Hwf.
  { apply (run_wf _ _ _ _ _ _ _ Hrun). cbn [startPool st make_results snd].
    apply (wf_same (loopStart env d mode (NewDNSEnumerator env config s).2)); [done|].
    destruct mode as [|domain]; cbn [loopStart].
    - apply NewDNSEnumerator_wf.
    - apply DetectWildcard_quiet_run, NewDNSEnumerator_wf. }
  split; [done|]. intros ip. by apply wf_lookup.
Qed.

(* ===================================================================== *)
(** * What a worker leaves behind in verbose mode *)
(* ===================================================================== *)

Lemma since_refl s : since s s = [].
Proof. by destruct (extends_refl s). Qed.

Lemma since_emit e s : since s (emit e s).2 = [e].
Proof. by destruct (emit_extends e s). Qed.

Lemma since_send line s : since s (send line s).2 = [EvSend line].
Proof. by destruct (extends_by s (send line s).2 [EvSend line] eq_refl). Qed.

Lemma deliver_accounts d name r s :
  let new := since s (deliver d name r s).2 in
  contacts new = []
  ∧ (length (stderrs new) + length (sends new)
     = if Verbose (Config d) then 1 else length (sends new))%nat.
Proof.
  cbv zeta. destruct r as [ips|err]; cbn [deliver].
  - unfold mbind, M_bind. rewrite flagged_spec.
    destruct (WildcardCheck (Config d) && (isWildcardResponse ips s).1).
    + destruct (Verbose (Config d)); cbn [when mret M_ret snd].
      * unfold Fprintf_Stderr. by rewrite since_emit.
      * by rewrite since_refl.
    + rewrite since_send. by destruct (Verbose (Config d)).
  - destruct (Verbose (Config d)); cbn [when mret M_ret snd].
    + unfold Fprintf_Stderr. by rewrite since_emit.
    + by rewrite since_refl.
Qed.

(** X19. In verbose mode a worker accounts for its name: besides the
    failure lines of the exchanges that failed, [ProcessDomain] either
    sends the result line or writes exactly one diagnostic (the lookup's
    error, or the filtered answer), never both and never neither.  When
    not verbose it writes nothing to the standard error stream, so that
    a name without a result line leaves no trace. *)
Theorem ProcessDomain_accounts env d name s :
  let new := since s (ProcessDomain env d name s).2 in
  if Verbose (Config d)
  then ∃ final, stderrs new = omap failureLine (contacts new) ++ final
                ∧ (length final + length (sent env d name s) = 1)%nat
  else stderrs new = [].
Proof.
  cbv zeta. unfold sent, ProcessDomain, mbind, M_bind.
  pose proof (Resolve_pass env d name s) as Hp.
  pose proof (Resolve_trace env d name s) as Ht.
  destruct (Resolve env d name s) as [r s1]. cbn [fst snd] in *.
  destruct (deliver_spec d name r s1) as (He2 & _).
  destruct (deliver_accounts d name r s1) as (Hc & Hacc).
  destruct (extends_trans _ _ _ (pass_extends _ _ _ _ _ Hp) He2) as [_ ->].
  pose proof (pass_sends _ _ _ _ _ Hp) as Hn. cbn [snd] in *.
  assert (stderrs (since s s1)
          = if Verbose (Config d) then omap failureLine (contacts (since s s1)) else [])
    as Hs1 by (rewrite Ht at 1; apply lookupTrace_stderrs).
  unfold stderrs in *. destruct (Verbose (Config d)).
  - exists (omap stderrOf (since s1 (deliver d name r s1).2)).
    rewrite contacts_app, sends_app, !omap_app, Hc, app_nil_r, Hs1.
    rewrite Hn. by cbn [app].
  - rewrite omap_app, Hs1. cbn [app].
    destruct (omap stderrOf (since s1 (deliver d name r s1).2)); [done|].
    cbn [length] in Hacc. lia.
Qed.

(* ===================================================================== *)
(** * Every run comes to an end *)
(* ===================================================================== *)

Lemma step_potential env d mode period p l p' :
  step env d mode period p l p' → (potential p' + 1 ≤ potential p)%nat.
Proof.
  destruct 1; unfold potential; cbn [input waiting tasks st length].
  - lia.
  - rewrite probeBefore_results. lia.
  - rewrite sum_list_with_app. change (results (dispatch name s).2) with (results s).
    cbn [sum_list_with task_weight]. lia.
  - rewrite !sum_list_with_app. cbn [sum_list_with task_weight].
    rewrite (pass_results _ _ _ _ _ (Resolve_pass env d name s)). destruct w; lia.
  - rewrite !sum_list_with_app. cbn [sum_list_with task_weight].
    destruct (deliver_spec d name r s) as (_ & _ & _ & _ & Hres & _).
    destruct (deliver_at_most_one d name r s) as [Hone _]. cbv zeta in Hone.
    rewrite Hres, length_app. destruct w; lia.
  - rewrite WriteOutput_results. unfold take_result. cbn [results].
    destruct (results s); [done|]. cbn [tail length]. destruct w; lia.
Qed.

Lemma run_potential env d mode period p tr p' :
  run env d mode period p tr p' → (length tr + potential p' ≤ potential p)%nat.
Proof.
  induction 1 as [|p tr p' l p'' _ IH Hstep]; [simpl; lia|].
  apply step_potential in Hstep. rewrite length_app. simpl. lia.
Qed.

Lemma potential_zero p : potential p = 0%nat → finished p.
Proof.
  destruct p as [inp w ts n s]. unfold potential, finished.
  cbn [input waiting tasks st]. intros H.
  destruct inp; [|simpl in H; lia]. destruct w; [lia|].
  destruct ts as [|[] ts]; [|cbn in H; lia..].
  destruct (results s); [done | simpl in H; lia].
Qed.

(** X20. No schedule of the goroutines runs for ever: a run of a
    dispatch loop over [n] lines takes at most [5 * n] steps (for each
    line at most a probe, a permit, a lookup, a delivery and a write),
    and a run of that many steps has finished. *)
Theorem runs_are_bounded env d mode period lines s tr p :
  run env d mode period (startPool lines s) tr p →
  (length tr ≤ 5 * length lines)%nat
  ∧ ((length tr = 5 * length lines)%nat → finished p).
Proof.
  intros Hrun. apply run_potential in Hrun.
  assert (potential (startPool lines s) = (5 * length lines)%nat) as Hstart.
  { unfold potential. cbn [startPool input waiting tasks st make_results snd results].
    cbn [sum_list_with length]. lia. }
  rewrite Hstart in Hrun. split; [lia|]. intros Heq. apply potential_zero. lia.
Qed.

(* ===================================================================== *)
(** * What the process prints, writes and loses *)
(* ===================================================================== *)

Lemma since_grow s s1 s2 new :
  extends s s1 → log s2 = log s1 ++ new →
  extends s s2 ∧ since s s2 = since s s1 ++ new.
Proof.
  intros He Hl. destruct (extends_by s1 s2 new Hl) as [He' Hs'].
  destruct (extends_trans _ _ _ He He') as [He'' ->]. by rewrite Hs'.
Qed.

Lemma afterLoop_log mode scanErr s :
  log (afterLoop mode scanErr s).2 = log s ++ scanReport mode scanErr
  ∧ results (afterLoop mode scanErr s).2 = results s.
Proof.
  unfold afterLoop, scanReport. destruct mode as [|domain]; [|destruct scanErr];
    cbn; by rewrite ?app_nil_r.
Qed.

Lemma Close_log d s :
  log (Close d s).2 = log s ++ (if outputFile d then [EvCloseFile] else [])
  ∧ results (Close d s).2 = results s.
Proof. unfold Close. destruct (outputFile d); cbn; by rewrite ?app_nil_r. Qed.

Lemma WriteString_log (open : bool) line s :
  log (WriteString open line s).2
  = log s ++ (if open then [EvFileWrite (line +:+ nl)] else [])
  ∧ results (WriteString open line s).2 = results s.
Proof. unfold WriteString. destruct open; cbn; by rewrite ?app_nil_r. Qed.

Lemma startProcess_since d lines s :
  extends s (st (pool (startProcess d lines s)))
  ∧ since s (st (pool (startProcess d lines s))) = [].
Proof.
  cbn [startProcess pool startPool st]. apply extends_by.
  cbn. by rewrite app_nil_r.
Qed.






Lemma blind_spawn : blindToLookups spawnOf.
Proof. done. Qed.

Lemma step_spawned env d mode period p l p' :
  step env d mode period p l p' →
  spawns (since (st p) (st p')) ++ option_list (waiting p')
    ++ omap (candidate mode) (input p')
  = option_list (waiting p) ++ omap (candidate mode) (input p).
Proof.
  destruct 1 as [text rest ts n s Hc|text rest ts n s name Hc|inp ts n s name Hnil
                |inp w ts1 ts2 n s id name|inp w ts1 ts2 n s id name r Hroom
                |inp w ts n s line Hhead];
    cbn [st waiting input option_list omap list_omap app].
  - by rewrite since_refl, Hc.
  - unfold spawns. rewrite (probeBefore_blind spawnOf) by apply blind_spawn.
    by rewrite Hc.
  - by destruct (dispatch_spec name s) as (_ & _ & _ & _ & _ & ->).
  - unfold spawns. by rewrite (Resolve_blind spawnOf) by apply blind_spawn.
  - by destruct (deliver_spec d name r s) as (_ & _ & _ & -> & _).
  - change (since s (WriteOutput d line (take_result s)).2)
      with (since (take_result s) (WriteOutput d line (take_result s)).2).
    by rewrite (quiet_spawns _ _ (WriteOutput_quiet d line (take_result s))).
Qed.

Lemma spawns_output new : Forall isOutput new → spawns new = [].
Proof.
  induction 1 as [|e new He _ IH]; [done|]. destruct e; try done; exact IH.
Qed.

Lemma startProcess_scanning d mode scanErr lines s :
  scanning mode scanErr lines s (startProcess d lines s).
Proof.
  destruct (startProcess_since d lines s) as [He Hs].
  split; rewrite ?Hs; done.
Qed.

(** A step that leaves the pool's lines, names and workers alone and adds
    the events [new], none of them the start of a worker. *)
Lemma scanning_grow mode scanErr lines s pr pr' new :
  scanning mode scanErr lines s pr →
  log (st (pool pr')) = log (st (pool pr)) ++ new →
  Forall isOutput new →
  input (pool pr') = input (pool pr) →
  waiting (pool pr') = waiting (pool pr) →
  tasks (pool pr') = tasks (pool pr) →
  (phase pr' = phase pr ∨ (returned (phase pr) = true ∧ returned (phase pr') = true)) →
  scanning mode scanErr lines s pr'.
Proof.
  intros [He Hnames Hdone Hret] Hl Hnew Hi Hw Ht Hph.
  destruct (since_grow s _ _ _ He Hl) as [He' Hs].
  split; rewrite ?Hs, ?Hi, ?Hw, ?Ht; try done.
  - by rewrite spawns_app, (spawns_output new Hnew), app_nil_r.
  - intros Hne. apply Hdone. destruct Hph as [<-|[Hr _]]; [done|].
    intros Heq. by rewrite Heq in Hr.
  - intros Hr. destruct Hret as (before & after & Hsince & Hsp & Hafter).
    { destruct Hph as [<-|[? _]]; done. }
    exists before, (after ++ new). rewrite Hsince, <- !(assoc_L (++)).
    split; [done|]. split; [done|]. by apply Forall_app.
Qed.

Lemma pstep_scanning env d mode period scanErr lines s pr pr' :
  pstep env d mode period scanErr pr pr' →
  scanning mode scanErr lines s pr → scanning mode scanErr lines s pr'.
Proof.
  intros Hstep Hinv.
  destruct Hstep as [p l p' c f Hstep Hsunk|n s0 c f|inp w ts n s0 c f
                    |inp w ts n s0 c f|p c f|inp w ts n s0 ph f line Hph Hhead
                    |inp w ts n s0 ph f line Hph|inp w ts n s0 ph f line Hph].
  - destruct Hinv as [He Hnames Hdone Hret]. cbn [pool st phase] in *.
    destruct (step_sends _ _ _ _ _ _ _ Hstep) as [He' _].
    destruct (extends_trans _ _ _ He He') as [He'' Hs].
    split; cbn [pool st phase returned]; try done.
    rewrite Hs, spawns_app, <- (assoc_L (++)).
    by rewrite (step_spawned _ _ _ _ _ _ _ Hstep).
  - destruct Hinv as [He Hnames Hdone Hret]. cbn [pool st phase] in *.
    split; cbn [pool st phase returned input waiting tasks]; done.
  - destruct Hinv as [He Hnames Hdone Hret]. cbn [pool st phase] in *.
    destruct (Hdone ltac:(done)) as (Hi & Hw & Ht). cbn [input waiting tasks] in *.
    subst inp w ts.
    destruct (afterLoop_log mode scanErr s0) as [Hl _].
    destruct (since_grow s s0 _ _ He Hl) as [He' Hs].
    split; cbn [pool st phase returned input waiting tasks option_list omap list_omap];
      rewrite ?Hs; try done.
    + assert (spawns (scanReport mode scanErr) = []) as Hsp.
      { unfold scanReport. destruct mode; [done|]. by destruct scanErr. }
      by rewrite spawns_app, Hsp, app_nil_r.
    + intros _. exists (since s s0), []. rewrite app_nil_r. split; [done|].
      split; [|done]. cbn in Hnames. by rewrite !app_nil_r in Hnames.
  - apply (scanning_grow mode scanErr lines s _ _
             (if outputFile d then [EvCloseFile] else []) Hinv); try done.
    + apply Close_log.
    + destruct (outputFile d); repeat constructor.
    + by right.
  - apply (scanning_grow mode scanErr lines s _ _ [] Hinv); try done.
    + cbn. by rewrite app_nil_r.
    + by right.
  - apply (scanning_grow mode scanErr lines s _ _ [] Hinv); try done.
    + cbn. by rewrite app_nil_r.
    + by left.
  - apply (scanning_grow mode scanErr lines s _ _ [EvStdout (line +:+ nl)] Hinv);
      try done.
    + repeat constructor.
    + by left.
  - apply (scanning_grow mode scanErr lines s _ _
             (if f then [EvFileWrite (line +:+ nl)] else []) Hinv); try done.
    + apply WriteString_log.
    + destruct f; repeat constructor.
    + by left.
Qed.

Lemma prun_scanning env d mode period scanErr lines s pr :
  rtc (pstep env d mode period scanErr) (startProcess d lines s) pr →
  scanning mode scanErr lines s pr.
Proof.
  revert pr. apply rtc_ind_r; [apply startProcess_scanning|].
  intros pr pr' _ Hstep IH. by eapply pstep_scanning.
Qed.

(** X14. A wordlist whose scan fails part-way is still used, whatever
    the schedule: once [Bruteforce] has returned, a worker has been
    started for every candidate of the lines read before the failure,
    in order, and each of them has finished; the line "Error reading
    wordlist" was written after all of that; and what follows it are
    only lines the consumer printed or wrote to the file, and the close
    of the file.  (The resolver file is treated the other way round: a
    failing scan there discards every resolver read.) *)
Theorem Bruteforce_scan_error env d period domain words err s pr :
  rtc (pstep env d (BruteForce domain) period (Some err)) (startProcess d words s) pr →
  returned (phase pr) = true →
  ∃ before after,
    since s (st (pool pr))
    = before ++ EvStderr ("Error reading wordlist: " +:+ err +:+ nl) :: after
    ∧ spawns before = candidatesOf domain words
    ∧ Forall isOutput after
    ∧ tasks (pool pr) = [].
Proof.
  intros Hrun Hret.
  destruct (prun_scanning _ _ _ _ _ _ _ _ Hrun) as [He Hnames Hdone Hreturned].
  destruct (Hreturned Hret) as (before & after & Hsince & Hsp & Hafter).
  exists before, after. rewrite Hsince. cbn [scanReport app].
  split; [done|]. split; [by rewrite candidatesOf_omap|]. split; [done|].
  apply Hdone. intros Heq. by rewrite Heq in Hret.
Qed.

(** The runs of [step], in which the consumer prints and writes a line
    in one go while the file is open, are runs of the process: the
    sequential loops, which are runs of [step], follow one of the
    schedules of the process. *)
Lemma step_process env d mode period scanErr p l p' :
  step env d mode period p l p' →
  rtc (pstep env d mode period scanErr)
    {| pool := p; consumer := Receiving; phase := InLoop; file_open := outputFile d |}
    {| pool := p'; consumer := Receiving; phase := InLoop; file_open := outputFile d |}.
Proof.
  intros Hstep. destruct (sunkLine l) as [|line ?] eqn:Hsunk.
  { apply rtc_once. by apply (pstep_work _ _ _ _ _ p l p'). }
  destruct Hstep as [| | | | |inp w ts n s line' Hhead]; try done.
  eapply rtc_l; [by apply pstep_receive|].
  eapply rtc_l; [by apply pstep_print|].
  unfold WriteOutput, mbind, M_bind.
  destruct (outputFile d) eqn:Hd; cbn [when].
  - eapply rtc_l; [by apply pstep_write|]. apply rtc_refl.
  - apply rtc_refl.
Qed.

Lemma run_process env d mode period scanErr p tr p' :
  run env d mode period p tr p' →
  rtc (pstep env d mode period scanErr)
    {| pool := p; consumer := Receiving; phase := InLoop; file_open := outputFile d |}
    {| pool := p'; consumer := Receiving; phase := InLoop; file_open := outputFile d |}.
Proof.
  induction 1 as [p|p tr p' l p'' Hrun IH Hstep]; [apply rtc_refl|].
  etrans; [exact IH|]. by eapply step_process.
Qed.

(* ===================================================================== *)
(** * The admissions in time *)
(* ===================================================================== *)

Lemma elapse_due period now t :
  0 < period → tk_due t ≤ now →
  let t' := elapse period now t in
  tk_ready t' = true ∧ now < tk_due t' ∧ tk_due t' - period ≤ now
  ∧ tk_due t + period ≤ tk_due t'.
Proof.
  intros Hp Hdue. unfold elapse. rewrite decide_True by done. cbn.
  pose proof (Z.mul_div_le (now - tk_due t) period Hp).
  pose proof (Z.mul_succ_div_gt (now - tk_due t) period Hp).
  pose proof (Z.div_pos (now - tk_due t) period ltac:(lia) Hp).
  repeat split; nia.
Qed.

Lemma elapse_early period now t : now < tk_due t → elapse period now t = t.
Proof. intros H. unfold elapse. by rewrite decide_False by lia. Qed.

Lemma startTimed_timely lines s now period :
  0 < period → timely now period [] (startTimed lines s now period).
Proof.
  intros Hp. split; cbn; try done; lia.
Qed.

Lemma admissionTimes_snoc tr l :
  admissionTimes (tr ++ [l]) = admissionTimes tr ++ option_list (admitTime l).
Proof.
  unfold admissionTimes. rewrite omap_app. cbn. by destruct (admitTime l).
Qed.

Lemma tstep_timely env d mode now period tr T l T' :
  0 < period →
  tstep env d mode period T l T' →
  timely now period tr T → timely now period (tr ++ [l]) T'.
Proof.
  intros Hp Hstep [Hdue Hready Hcount Hbehind Hfirst Hspaced].
  pose proof (admissionTimes_snoc tr l) as Ht.
  destruct Hstep as [p clk t nanos Hnanos|p l p' clk t Hstep Hl|p id name p' clk t Hstep Hr];
    cbn [clock ticker tpool] in *; cbn in Ht; rewrite ?app_nil_r in Ht.
  - destruct (decide (tk_due t ≤ clk + nanos)) as [Hd|Hd].
    + destruct (elapse_due period (clk + nanos) t Hp Hd) as (Hr' & Hlt & Hle & Hge).
      cbv zeta in *. split; cbn [clock ticker]; rewrite ?Ht, ?Hr'; try done.
      * destruct (tk_ready t); lia.
      * intros i ti Hi. specialize (Hbehind i ti Hi). destruct (tk_ready t); lia.
    + rewrite elapse_early by lia. split; cbn [clock ticker]; rewrite ?Ht; try done; [lia|].
      intros Hr. specialize (Hready Hr). lia.
  - split; cbn [clock ticker]; rewrite ?Ht; done.
  - rewrite Hr in *. specialize (Hready eq_refl).
    split; cbn [clock ticker takeTick tk_due tk_ready]; rewrite ?Ht; try done.
    + rewrite length_app. cbn [length]. lia.
    + intros i ti Hi. rewrite length_app. cbn [length].
      apply lookup_app_Some in Hi as [Hi|[Hge Hi]].
      * specialize (Hbehind i ti Hi). pose proof (lookup_lt_Some _ _ _ Hi).
        replace (Z.of_nat (length (admissionTimes tr) + 1) - 1 - Z.of_nat i + 0)
          with (Z.of_nat (length (admissionTimes tr)) - 1 - Z.of_nat i + 1) by lia.
        done.
      * apply list_lookup_singleton_Some in Hi as [Hi <-].
        replace (Z.of_nat (length (admissionTimes tr) + 1) - 1 - Z.of_nat i + 0)
          with 0 by lia.
        lia.
    + intros k tk Hk. apply lookup_app_Some in Hk as [Hk|[Hge Hk]].
      * by apply Hfirst.
      * apply list_lookup_singleton_Some in Hk as [Hk <-].
        replace (Z.of_nat k) with (Z.of_nat (length (admissionTimes tr))) by lia.
        lia.
    + intros i j ti tj Hij Hi Hj.
      apply lookup_app_Some in Hj as [Hj|[Hge Hj]].
      * apply lookup_app_Some in Hi as [Hi|[Hgi Hi]]; [by eapply Hspaced|].
        pose proof (lookup_lt_Some _ _ _ Hj). lia.
      * apply list_lookup_singleton_Some in Hj as [Hj <-].
        apply lookup_app_Some in Hi as [Hi|[Hgi Hi]].
        -- specialize (Hbehind i ti Hi). pose proof (lookup_lt_Some _ _ _ Hi).
           replace (Z.of_nat j) with (Z.of_nat (length (admissionTimes tr))) by lia.
           replace (Z.of_nat (length (admissionTimes tr)) - Z.of_nat i - 1)
             with (Z.of_nat (length (admissionTimes tr)) - 1 - Z.of_nat i + 1 - 1)
             by lia.
           lia.
        -- apply list_lookup_singleton_Some in Hi as [Hi _]. lia.
Qed.

Lemma trun_timely env d mode now period lines s tr T :
  0 < period →
  trun env d mode period (startTimed lines s now period) tr T →
  timely now period tr T.
Proof.
  intros Hp. remember (startTimed lines s now period) as T0 eqn:HT0.
  induction 1 as [T0|T0 tr T l T' Hrun IH Hstep]; subst.
  - by apply startTimed_timely.
  - eapply tstep_timely; [done..|]. by apply IH.
Qed.

(** A timed run is a run. *)
Lemma trun_run env d mode period T tr T' :
  trun env d mode period T tr T' →
  run env d mode period (tpool T) (omap untimed tr) (tpool T').
Proof.
  induction 1 as [T|T tr T' l T'' Hrun IH Hstep]; [constructor|].
  rewrite omap_app.
  destruct Hstep; cbn [omap list_omap untimed tpool] in *; rewrite ?app_nil_r;
    [done | by econstructor | by econstructor].
Qed.

Lemma trun_trans env d mode period T tr T' tr' T'' :
  trun env d mode period T tr T' → trun env d mode period T' tr' T'' →
  trun env d mode period T (tr ++ tr') T''.
Proof.
  intros H1 H2. induction H2 as [|T' tr' T2 l T'' Hrun IH Hstep].
  - by rewrite app_nil_r.
  - rewrite app_assoc. econstructor; [by apply IH | done].
Qed.

Lemma trun_cons env d mode period T l T' tr T'' :
  tstep env d mode period T l T' → trun env d mode period T' tr T'' →
  trun env d mode period T (l :: tr) T''.
Proof.
  intros Hs Hr. apply (trun_trans _ _ _ _ T [l] T' tr T''); [|done].
  apply (trun_snoc _ _ _ _ T [] T l T'); [constructor | done].
Qed.

Lemma admitted_times env d mode period T tr T' :
  trun env d mode period T tr T' →
  length (admitted tr) = length (admissionTimes tr).
Proof.
  induction 1 as [T|T tr T' l T'' Hrun IH Hstep]; [done|].
  rewrite admissionTimes_snoc. unfold admitted in *.
  rewrite !omap_app, fmap_app, !length_app, IH.
  destruct Hstep as [| ? l ? ? ? ? Hl|]; cbn; [done| |done].
  by rewrite Hl.
Qed.

Lemma step_admissions env d mode period p l p' :
  step env d mode period p l p' →
  admissions (since (st p) (st p'))
  = match l with LDispatch _ name => admission name | _ => [] end.
Proof.
  destruct 1 as [text rest ts n s Hc|text rest ts n s name Hc|inp ts n s name Hnil
                |inp w ts1 ts2 n s id name|inp w ts1 ts2 n s id name r Hroom
                |inp w ts n s line Hhead];
    cbn [st]; unfold admissions.
  - by rewrite since_refl.
  - by rewrite (probeBefore_blind admissionOf) by apply blind_admission.
  - destruct (extends_by s (dispatch name s).2 [EvPermit; EvSpawn name]) as [_ ->].
    { unfold dispatch, mbind, M_bind. cbn. by rewrite <- app_assoc. }
    done.
  - by rewrite (Resolve_blind admissionOf) by apply blind_admission.
  - rewrite (deliver_blind admissionOf) by apply blind_admission.
    by induction (sends _).
  - change (since s (WriteOutput d line (take_result s)).2)
      with (since (take_result s) (WriteOutput d line (take_result s)).2).
    rewrite WriteOutput_since. by destruct (outputFile d).
Qed.

Lemma run_admissions env d mode period p tr p' :
  run env d mode period p tr p' →
  admissions (since (st p) (st p')) = (omap dispatchOf tr).*2 ≫= admission.
Proof.
  induction 1 as [p|p tr p' l p'' Hrun IH Hstep].
  - by rewrite since_refl.
  - destruct (run_sends _ _ _ _ _ _ _ Hrun) as [He _].
    destruct (step_sends _ _ _ _ _ _ _ Hstep) as [He' _].
    destruct (extends_trans _ _ _ He He') as [_ ->].
    unfold admissions in *. rewrite omap_app, IH.
    fold (admissions (since (st p') (st p''))).
    rewrite (step_admissions _ _ _ _ _ _ _ Hstep).
    rewrite omap_app, fmap_app, bind_app.
    destruct l; cbn; by rewrite ?app_nil_r.
Qed.

(** Every name of the input can be in flight at once. *)
Lemma all_in_flight env d mode period lines ts n s now t :
  0 < period →
  ∃ tr T,
    trun env d mode period
      {| tpool := {| input := lines; waiting := None; tasks := ts; next_id := n;
                     st := s |};
         clock := now; ticker := t |} tr T
    ∧ input (tpool T) = [] ∧ waiting (tpool T) = None
    ∧ length (tasks (tpool T))
      = (length ts + length (omap (candidate mode) lines))%nat.
Proof.
  intros Hp. revert ts n s now t.
  induction lines as [|text rest IH]; intros ts n s now t.
  - eexists [], _. split; [constructor|]. cbn. repeat split; lia.
  - destruct (candidate mode text) as [name|] eqn:Hc.
    + set (nanos := Z.max 0 (tk_due t - now)).
      destruct (elapse_due period (now + nanos) t Hp ltac:(lia)) as (Hr & _).
      cbv zeta in Hr.
      destruct (IH (ts ++ [Spawned n name]) (S n)
                  (dispatch name (probeBefore env d mode name s).2).2
                  (now + nanos) (takeTick (elapse period (now + nanos) t)))
        as (tr & T & Hrun & Hi & Hw & Hlen).
      exists (TAct (LProbe name) :: TWait nanos :: TAdmit (now + nanos) n name :: tr), T.
      split; [|split; [done|split; [done|]]].
      * eapply trun_cons; [apply tstep_act; [by apply step_probe | done]|].
        eapply trun_cons; [apply tstep_wait; lia|].
        eapply trun_cons; [|exact Hrun].
        apply tstep_admit; [|done]. apply step_dispatch.
        unfold limiterIsNil. by rewrite bool_decide_false by lia.
      * rewrite Hlen, length_app. cbn [omap list_omap length]. rewrite Hc. cbn. lia.
    + destruct (IH ts n s now t) as (tr & T & Hrun & Hi & Hw & Hlen).
      exists (TAct LSkip :: tr), T. split; [|split; [done|split; [done|]]].
      * eapply trun_cons; [apply tstep_act; [by apply step_skip | done]|]. done.
      * rewrite Hlen. cbn [omap list_omap]. by rewrite Hc.
Qed.

(** C9, as amended.  For a rate from 1 to 10^9 the limiter ticks every
    10^9 quot rate nanoseconds, which is at most a second divided by the
    rate and less than that when the rate does not divide 10^9.  In
    every run of a dispatch loop in time, each start of a worker comes
    directly after a receive from the limiter of its own, the names
    being admitted in input order; the admission number [k] does not
    come before [k] periods have passed since the limiter was made; and
    since the limiter keeps one tick for a late receiver, between the
    first and the last of [n] admissions lie at least [n - 2] periods
    (in general, [j - i - 1] periods between the admissions [i] and
    [j]).  Nothing bounds the number of workers in flight: there is a
    run in which every name of the input has been admitted and no worker
    has finished. *)
Theorem admissions_in_time env d mode lines s now period :
  limiterPeriod d = Some period →
  limiterIsNil period = false →
  (1 ≤ RateLimit (Config d) ≤ 1000000000
   ∧ period * RateLimit (Config d) ≤ 1000000000 < (period + 1) * RateLimit (Config d))
  ∧ (∀ tr T,
       trun env d mode period (startTimed lines s now period) tr T →
       let times := admissionTimes tr in
       admissions (since s (st (tpool T)))
       = admitted tr ≫= (λ name, [EvPermit; EvSpawn name])
       ∧ admitted tr `prefix_of` omap (candidate mode) lines
       ∧ length times = length (admitted tr)
       ∧ (∀ k t, times !! k = Some t → now + (Z.of_nat k + 1) * period ≤ t)
       ∧ (∀ i j ti tj, (i < j)%nat → times !! i = Some ti → times !! j = Some tj →
                       ti + (Z.of_nat j - Z.of_nat i - 1) * period ≤ tj)
       ∧ (∀ t1 tn, head times = Some t1 → last times = Some tn →
                   (Z.of_nat (length times) - 2) * period ≤ tn - t1))
  ∧ ∃ tr T,
      trun env d mode period (startTimed lines s now period) tr T
      ∧ input (tpool T) = [] ∧ waiting (tpool T) = None
      ∧ length (tasks (tpool T)) = length (omap (candidate mode) lines).
Proof.
  intros Hperiod Hnil.
  assert (0 < period) as Hp.
  { unfold limiterIsNil in Hnil. apply bool_decide_eq_false in Hnil. lia. }
  pose proof (proj1 (limiter_ticks d period Hperiod) Hnil) as Hrate.
  split; [split; [done | by apply limiterPeriod_truncates; [lia|]]|]. split.
  - intros tr T Hrun times.
    pose proof (trun_timely _ _ _ _ _ _ _ _ _ Hp Hrun)
      as [_ _ _ _ Hfirst Hspaced].
    pose proof (trun_run _ _ _ _ _ _ _ Hrun) as Hr.
    pose proof (run_admissions _ _ _ _ _ _ _ Hr) as Hadm.
    pose proof (run_names _ _ _ _ _ _ _ Hr) as Hnames.
    cbn [startTimed tpool startPool st waiting input option_list app] in Hadm, Hnames.
    split; [|split; [|split; [|split; [|split]]]].
    + change (since s (st (tpool T))) with (since (make_results s).2 (st (tpool T))).
      exact Hadm.
    + exists (option_list (waiting (tpool T))
                ++ omap (candidate mode) (input (tpool T))).
      cbn in Hnames. by rewrite <- Hnames.
    + symmetry. by eapply admitted_times.
    + exact Hfirst.
    + exact Hspaced.
    + intros t1 tn H1 Hn. fold times in Hspaced, Hfirst.
      destruct times as [|t0 rest] eqn:Ht; [done|]. cbn in H1. injection H1 as ->.
      destruct (decide (length rest = 0%nat)) as [Hz|Hnz].
      * destruct rest; [|done]. cbn in Hn. injection Hn as ->. cbn. lia.
      * rewrite last_lookup in Hn. cbn [length pred] in Hn.
        pose proof (Hspaced 0%nat (length rest) t1 tn ltac:(lia) eq_refl Hn).
        cbn [length]. lia.
  - destruct (all_in_flight env d mode period lines [] 0%nat (make_results s).2
                now (newTicker now period) Hp) as (tr & T & Hrun & Hi & Hw & Hlen).
    by exists tr, T.
Qed.

(* ===================================================================== *)
(** * The theorems on concrete runs *)
(* ===================================================================== *)

Lemma Resolve_failover_in_order_witness :
  c_resolver <$> contacts
    (since initState
       (Resolve Sample.env1 Sample.enum123 "www.example.com" initState).2)
  `prefix_of` ["r1:53"; "r2:53"; "r3:53"].
Proof.
  exact (proj1 (Resolve_failover_in_order
                  Sample.env1 Sample.enum123 "www.example.com" initState)).
Defined.

Lemma Resolve_error_cases_witness :
  let out := Resolve Sample.env1 Sample.enum123 "api.example.com" initState in
  out.1 = Err "DNS error: 3"
  ∧ c_resolver <$> contacts (since initState out.2) = ["r1:53"; "r2:53"].
Proof.
  refine (proj1 (proj2 (proj2 (proj2 (proj2 (proj2 (proj2
            (Resolve_error_cases
               Sample.env1 Sample.enum123 "api.example.com" initState)))))))
            ["r1:53"] "r2:53" ["r3:53"]
            {| dns.Rcode := 3; dns.Answer := [] |} eq_refl _ _ _).
  - intros l r' Hin. apply list_elem_of_singleton in Hin. subst r'.
    exists "i/o timeout". reflexivity.
  - intros l. reflexivity.
  - discriminate.
Defined.

Lemma isWildcardResponse_filters_witness :
  wildcard_wf Sample.probed3
  ∧ sent Sample.env1 Sample.enum3 "www.example.com" Sample.probed3 = []
  ∧ sent Sample.env1 Sample.enum2 "www.example.com" Sample.probed3
    = ["www.example.com [10.0.0.2]"].
Proof.
  assert (wildcard_wf Sample.probed3) as Hwf.
  { apply DetectWildcard_quiet_run, initState_wf. }
  split; [exact Hwf|]. split.
  - refine (proj1 (proj2 (isWildcardResponse_filters
                     Sample.env1 Sample.enum3 Sample.probed3 ["203.0.113.9"] Hwf))
              "example.com" initState "203.0.113.9" "www.example.com" _ _ _ _ _).
    + unfold WildcardIPSet, initState. cbn. apply not_elem_of_empty.
    + apply elem_of_dom. exists true. vm_compute. reflexivity.
    + reflexivity.
    + vm_compute. reflexivity.
    + left.
  - refine (proj2 (proj2 (isWildcardResponse_filters
                     Sample.env1 Sample.enum2 Sample.probed3 ["10.0.0.2"] Hwf))
              "www.example.com" _ _).
    + vm_compute. reflexivity.
    + intros ip Hin. apply list_elem_of_singleton in Hin. subst ip.
      apply not_elem_of_dom. vm_compute. reflexivity.
Defined.

Lemma ProcessDomain_emits_witness :
  (Resolve Sample.env2 Sample.enum14 "alias.example.com" initState).1 = Ok []
  ∧ sent Sample.env2 Sample.enum14 "alias.example.com" initState
    = ["alias.example.com []"].
Proof.
  assert ((Resolve Sample.env2 Sample.enum14 "alias.example.com" initState).1 = Ok [])
    as H by (vm_compute; reflexivity).
  split; [exact H|].
  exact (proj2 (proj2 (ProcessDomain_emits
                         Sample.env2 Sample.enum14 "alias.example.com" initState)) H).
Defined.

Lemma at_most_one_result_witness :
  ∃ p,
    run Sample.env1 Sample.enum2_off Streaming Sample.period10
      (startPool ["www.example.com"; ""] initState)
      [ LProbe "www.example.com"; LDispatch 0 "www.example.com";
        LResolve 0 "www.example.com";
        LDeliver 0 "www.example.com" ["www.example.com [10.0.0.2]"];
        LSink "www.example.com [10.0.0.2]"; LSkip ]
      p
    ∧ sends (since initState (st p)) = ["www.example.com [10.0.0.2]"].
Proof.
  eassert (run Sample.env1 Sample.enum2_off Streaming Sample.period10
      (startPool ["www.example.com"; ""] initState)
      [ LProbe "www.example.com"; LDispatch 0 "www.example.com";
        LResolve 0 "www.example.com";
        LDeliver 0 "www.example.com" ["www.example.com [10.0.0.2]"];
        LSink "www.example.com [10.0.0.2]"; LSkip ] _) as Hrun.
  { eapply run_cons; [by apply step_probe|].
    eapply run_cons; [by apply step_dispatch|].
    eapply run_cons; [apply (step_resolve _ _ _ _ _ _ [] [])|].
    eapply run_cons.
    { match goal with
      | |- step _ _ _ _ {| input := ?i; waiting := ?w;
                           tasks := [] ++ [Resolved ?id ?name ?r];
                           next_id := ?n; st := ?s |} _ _ =>
          refine (step_deliver _ _ _ _ i w [] [] n s id name r _)
      end.
      vm_compute. lia. }
    eapply run_cons; [by apply step_sink|].
    eapply run_cons; [by apply step_skip|].
    apply run_nil. }
  eexists. split; [exact Hrun|].
  exact (proj1 (proj2 (proj2 (proj2 (proj2 (proj2
           (at_most_one_result _ _ _ _ _ _ _ _ Hrun))))))).
Defined.

Lemma DetectWildcard_only_adds_witness :
  "203.0.113.9" ∈ WildcardIPSet Sample.probed3
  ∧ (DetectWildcard Sample.env1 Sample.enum2_off "example.com" initState).2
    = initState
  ∧ WildcardIPSet initState
    ⊆ WildcardIPSet
        (probeBefore Sample.env1 Sample.enum3 Streaming "www.example.com"
           initState).2.
Proof.
  split; [|split].
  - apply (proj1 (proj2 (DetectWildcard_only_adds
                           Sample.env1 Sample.enum3 "example.com" initState))).
    right.
    exists {| c_resolver := "r3:53";
              c_msg := question Sample.env1 "test-subdomain-wildcard-456.example.com";
              c_res := Sample.answer [dns.A [203; 0; 113; 9]] |},
           {| dns.Rcode := 0; dns.Answer := [dns.A [203; 0; 113; 9]] |}.
    split; [|split; [reflexivity | split; [reflexivity|]]].
    + vm_compute. right. right. left.
    + vm_compute. left.
  - apply (proj1 (proj2 (proj2 (proj2 (proj2 (DetectWildcard_only_adds
             Sample.env1 Sample.enum2_off "example.com" initState)))))).
    reflexivity.
  - apply (proj2 (proj2 (proj2 (proj2 (proj2 (proj2 (proj2 (proj2 (proj2
             (DetectWildcard_only_adds
                Sample.env1 Sample.enum3 "example.com" initState)))))))))
             Streaming Sample.period10
             {| input := ["www.example.com"]; waiting := None; tasks := [];
                next_id := 0; st := initState |}
             (LProbe "www.example.com")
             {| input := []; waiting := Some "www.example.com"; tasks := [];
                next_id := 0;
                st := (probeBefore Sample.env1 Sample.enum3 Streaming
                         "www.example.com" initState).2 |}).
    by apply step_probe.
Defined.

Lemma loaders_skip_lines_witness :
  LoadResolversFromFile Sample.env2 "resolvers.txt"
  = inl ["8.8.8.8:53"; "1.1.1.1:53"; "9.9.9.9:53"]
  ∧ spawns (since initState
              (Bruteforce_loop Sample.env2 Sample.enum2 Sample.period10
                 "example.com" ["www"; "   "; "#api"] initState).2)
    = ["www.example.com"; "#api.example.com"].
Proof.
  pose proof (loaders_skip_lines Sample.env2 Sample.enum2 "resolvers.txt"
                ["# Public DNS resolvers"; "8.8.8.8"; ""; "  1.1.1.1:53  ";
                 "#9.9.9.9"; "9.9.9.9"]
                Sample.period10 "example.com" ["www"; "   "; "#api"] initState
                eq_refl eq_refl) as H.
  split; [exact (proj1 H) | exact (proj1 (proj2 (proj2 H)))].
Defined.

Lemma Resolve_success_addresses_witness :
  (Resolve Sample.env2 Sample.enum14 "cname.example.com" initState).1 = Ok []
  ∧ sent Sample.env2 Sample.enum14 "cname.example.com" initState
    = ["cname.example.com []"].
Proof.
  refine (proj2 (Resolve_success_addresses
                   Sample.env2 Sample.enum14 "cname.example.com" initState
                   {| c_resolver := "r4:53";
                      c_msg := question Sample.env2 "cname.example.com";
                      c_res := Sample.answer [dns.Other 5 "alias.example.net."] |}
                   {| dns.Rcode := 0;
                      dns.Answer := [dns.Other 5 "alias.example.net."] |}
                   _ _ _) _).
  - vm_compute. reflexivity.
  - reflexivity.
  - reflexivity.
  - intros rr Hin a. apply list_elem_of_singleton in Hin. subst rr. discriminate.
Defined.

Ltac run_steps :=
  repeat first
    [ apply run_nil
    | eapply run_cons;
      [ first
          [ by apply step_probe
          | by apply step_skip
          | by apply step_dispatch
          | apply (step_resolve _ _ _ _ _ _ [] [])
          | match goal with
            | |- step _ _ _ _ {| input := ?i; waiting := ?w;
                                 tasks := [] ++ [Resolved ?id ?name ?r];
                                 next_id := ?n; st := ?s |} _ _ =>
                refine (step_deliver _ _ _ _ i w [] [] n s id name r _);
                vm_compute; lia
            end
          | by apply step_sink ]
      | ] ].

Lemma exchanges_per_operation_witness :
  (1 ≤ length (contacts
         (since initState
            (Resolve Sample.env1 Sample.enum123 "www.example.com" initState).2))
   ≤ 3)%nat.
Proof.
  exact (proj1 (exchanges_per_operation
                  Sample.env1 Sample.enum123 "www.example.com" initState
                  ltac:(discriminate))).
Defined.

Lemma one_permit_per_worker_witness :
  admissions
    (since initState
       (Bruteforce_loop Sample.env2 Sample.enum2 Sample.period10
          "example.com" ["www"; "   "; "#api"] initState).2)
  = [ EvPermit; EvSpawn "www.example.com";
      EvPermit; EvSpawn "#api.example.com" ].
Proof.
  exact (proj2 (one_permit_per_worker
                  Sample.env2 Sample.enum2 Sample.period10
                  "example.com" ["www"; "   "; "#api"] initState eq_refl)).
Defined.

Lemma streaming_probes_every_line_witness :
  (4 ≤ length (contacts
         (since initState
            (EnumerateFromReader_loop Sample.env1 Sample.enum3 Sample.period10
               ["www.example.com"; ""] initState).2))
   ≤ 4 * 1)%nat.
Proof.
  exact (proj1 (streaming_probes_every_line
                  Sample.env1 Sample.enum3 Sample.period10 "example.com"
                  ["www.example.com"; ""] initState eq_refl
                  ltac:(discriminate))).
Defined.

Lemma nil_limiter_starts_nothing_witness :
  limiterIsNil (-1) = true
  ∧ EnumerateFromReader_loop Sample.env1 Sample.enum3 (-1)
      [""; "www.example.com"; "api.example.com"] initState
    = (Blocked, Sample.probed3)
  ∧ (3 ≤ length (contacts
           (since initState
              (EnumerateFromReader_loop Sample.env1 Sample.enum3 (-1)
                 [""; "www.example.com"; "api.example.com"] initState).2))
     ≤ 3 * 1)%nat
  ∧ Bruteforce_loop Sample.env1 Sample.enum3 (-1) "example.com"
      [""; "www"] initState
    = (Blocked, initState).
Proof.
  pose proof (nil_limiter_starts_nothing
                Sample.env1 Sample.enum3 (-1) "example.com"
                [""; "www"] initState eq_refl) as Hb.
  pose proof (nil_limiter_starts_nothing
                Sample.env1 Sample.enum3 (-1) "example.com"
                [""; "www.example.com"; "api.example.com"] initState eq_refl) as He.
  split; [reflexivity|]. split; [|split].
  - exact (proj1 He).
  - exact (proj1 (proj2 (proj2 (proj2 He)))
             "www.example.com" ["api.example.com"] eq_refl ltac:(discriminate)).
  - exact (proj2 (proj2 (proj2 (proj2 Hb)))).
Defined.

Lemma limiter_by_rate_witness :
  limiterPeriod (SampleMore.enumRate 3) = Some 333333333
  ∧ limiterIsNil 333333333 = false
  ∧ 333333333 * 3 ≤ 1000000000 < (333333333 + 1) * 3.
Proof.
  pose proof (proj2 (limiter_by_rate (SampleMore.enumRate 3)) 333333333 eq_refl)
    as [Hticks Hperiod].
  split; [reflexivity|]. split.
  - apply Hticks. cbn. lia.
  - apply Hperiod. cbn. lia.
Defined.

Lemma baseDomain_last_two_labels_witness :
  baseDomain "www.example.co.uk" = Some "co.uk"
  ∧ baseDomain "localhost" = None.
Proof.
  split.
  - exact (proj1 (proj2 (baseDomain_last_two_labels "co" "uk" eq_refl eq_refl))
             "www.example").
  - exact (proj2 (proj2 (baseDomain_last_two_labels "localhost" "" eq_refl eq_refl))).
Defined.

Lemma LoadResolversFromFile_result_witness :
  LoadResolversFromFile SampleMore.env3 "broken.txt"
  = inr "bufio.Scanner: token too long".
Proof. exact (LoadResolversFromFile_result SampleMore.env3 "broken.txt"). Defined.

Lemma main_exit_one_witness :
  let out := main SampleMore.envTty
               (SampleMore.flagsOf "" "" "" "r2:53" "out.txt" 10 false)
               initState in
  out.1 = Exited 1
  ∧ ∃ lines, lines ≠ []
      ∧ log out.2 = EvOpenFile "out.txt" None :: (EvStderr <$> lines)
      ∧ results out.2 = [].
Proof.
  cbv zeta.
  assert ((main SampleMore.envTty
             (SampleMore.flagsOf "" "" "" "r2:53" "out.txt" 10 false)
             initState).1 = Exited 1) as H.
  { apply (proj1 (main_exit_one SampleMore.envTty
                    (SampleMore.flagsOf "" "" "" "r2:53" "out.txt" 10 false)
                    initState)).
    split; [reflexivity|]. right. split; [by left | reflexivity]. }
  split; [exact H|].
  exact (proj2 (main_exit_one SampleMore.envTty
                  (SampleMore.flagsOf "" "" "" "r2:53" "out.txt" 10 false)
                  initState) H).
Defined.

Lemma main_exits_zero_witness :
  (main SampleMore.env3
     (SampleMore.flagsOf "example.com" "words-broken.txt" "" "r2:53" "" 10 false)
     initState).1 = Exited 0
  ∧ (main SampleMore.envPiped
       (SampleMore.flagsOf "" "" "resolvers.txt" "" "" 1000000000 false)
       initState).1 = Exited 0.
Proof.
  split.
  - apply (main_exits_zero SampleMore.env3
             (SampleMore.flagsOf "example.com" "words-broken.txt" "" "r2:53" "" 10 false)
             initState ["r2:53"]).
    + reflexivity.
    + reflexivity.
    + discriminate.
    + by left.
    + left. split; discriminate.
    + cbn. lia.
  - apply (main_exits_zero SampleMore.envPiped
             (SampleMore.flagsOf "" "" "resolvers.txt" "" "" 1000000000 false)
             initState ["8.8.8.8:53"; "1.1.1.1:53"; "9.9.9.9:53"]).
    + reflexivity.
    + reflexivity.
    + discriminate.
    + by left.
    + by right.
    + cbn. lia.
Defined.

Lemma wildcardIPs_values_true_witness :
  ∃ p,
    run Sample.env1 Sample.enum3 Streaming Sample.period10
      (startPool ["www.example.com"]
         (loopStart Sample.env1 Sample.enum3 Streaming
            (NewDNSEnumerator Sample.env1 (Config Sample.enum3) initState).2))
      [ LProbe "www.example.com"; LDispatch 0 "www.example.com";
        LResolve 0 "www.example.com"; LDeliver 0 "www.example.com" [] ]
      p
    ∧ wildcard_wf (st p)
    ∧ map_index (wildcardIPs (st p)) "203.0.113.9"
      = bool_decide ("203.0.113.9" ∈ WildcardIPSet (st p)).
Proof.
  eassert (run Sample.env1 Sample.enum3 Streaming Sample.period10
      (startPool ["www.example.com"]
         (loopStart Sample.env1 Sample.enum3 Streaming
            (NewDNSEnumerator Sample.env1 (Config Sample.enum3) initState).2))
      [ LProbe "www.example.com"; LDispatch 0 "www.example.com";
        LResolve 0 "www.example.com"; LDeliver 0 "www.example.com" [] ] _)
    as Hrun by run_steps.
  eexists. split; [exact Hrun|].
  destruct (wildcardIPs_values_true _ _ _ _ _ _ _ _ _ Hrun) as [Hwf Hlookup].
  split; [exact Hwf|]. exact (proj2 (Hlookup "203.0.113.9")).
Defined.

Lemma runs_are_bounded_witness :
  ∃ p,
    run Sample.env1 SampleMore.enumFile Streaming Sample.period10
      (startPool ["www.example.com"] initState)
      [ LProbe "www.example.com"; LDispatch 0 "www.example.com";
        LResolve 0 "www.example.com";
        LDeliver 0 "www.example.com" ["www.example.com [10.0.0.2]"];
        LSink "www.example.com [10.0.0.2]" ]
      p
    ∧ finished p.
Proof.
  eassert (run Sample.env1 SampleMore.enumFile Streaming Sample.period10
      (startPool ["www.example.com"] initState)
      [ LProbe "www.example.com"; LDispatch 0 "www.example.com";
        LResolve 0 "www.example.com";
        LDeliver 0 "www.example.com" ["www.example.com [10.0.0.2]"];
        LSink "www.example.com [10.0.0.2]" ] _) as Hrun by run_steps.
  eexists. split; [exact Hrun|].
  exact (proj2 (runs_are_bounded _ _ _ _ _ _ _ _ Hrun) eq_refl).
Defined.

Ltac work_step :=
  first
    [ by apply step_probe
    | by apply step_skip
    | by apply step_dispatch
    | apply (step_resolve _ _ _ _ _ _ [] [])
    | match goal with
      | |- step _ _ _ _ {| input := ?i; waiting := ?w;
                           tasks := [] ++ [Resolved ?id ?name ?r];
                           next_id := ?n; st := ?s |} _ _ =>
          refine (step_deliver _ _ _ _ i w [] [] n s id name r _);
          vm_compute; lia
      end ].

Ltac process_steps :=
  repeat first
    [ apply rtc_refl
    | eapply rtc_l;
      [ first
          [ eapply pstep_work; [work_step | reflexivity]
          | apply pstep_wait
          | apply pstep_return
          | apply pstep_close
          | apply pstep_exit ]
      | ] ].

Ltac timed_steps :=
  repeat first
    [ apply trun_nil
    | eapply trun_cons;
      [ first
          [ apply tstep_wait; lia
          | apply tstep_act; [work_step | reflexivity]
          | apply tstep_admit; [by apply step_dispatch | reflexivity] ]
      | ] ].


Lemma Bruteforce_scan_error_witness :
  ∃ pr,
    rtc (pstep Sample.env1 Sample.enum2 (BruteForce "example.com") Sample.period10
           (Some "bufio.Scanner: token too long"))
      (startProcess Sample.enum2 ["www"] initState) pr
    ∧ returned (phase pr) = true
    ∧ last (log (st (pool pr))) = Some (EvStdout ("www.example.com [10.0.0.2]" +:+ nl))
    ∧ ∃ before after,
        since initState (st (pool pr))
        = before
            ++ EvStderr ("Error reading wordlist: bufio.Scanner: token too long"
                           +:+ nl) :: after
        ∧ spawns before = ["www.example.com"]
        ∧ Forall isOutput after
        ∧ tasks (pool pr) = [].
Proof.
  eassert (rtc (pstep Sample.env1 Sample.enum2 (BruteForce "example.com")
                  Sample.period10 (Some "bufio.Scanner: token too long"))
             (startProcess Sample.enum2 ["www"] initState) _) as Hrun.
  { eapply rtc_l; [eapply pstep_work; [by apply step_probe | reflexivity]|].
    eapply rtc_l; [eapply pstep_work; [by apply step_dispatch | reflexivity]|].
    eapply rtc_l; [eapply pstep_work;
                   [apply (step_resolve _ _ _ _ _ _ [] []) | reflexivity]|].
    eapply rtc_l; [eapply pstep_work; [work_step | reflexivity]|].
    eapply rtc_l; [apply pstep_wait|].
    eapply rtc_l; [apply pstep_return|].
    eapply rtc_l; [apply pstep_receive; [done | vm_compute; reflexivity]|].
    eapply rtc_l; [apply pstep_print; done|].
    apply rtc_refl. }
  eexists. split; [exact Hrun|].
  split; [reflexivity|]. split; [vm_compute; reflexivity|].
  exact (Bruteforce_scan_error _ _ _ _ _ _ _ _ Hrun eq_refl).
Defined.

(** Two runs in time.  In the first, with a rate of 1 in streaming
    mode, the probe of the first name takes 1.9 seconds and the probe
    of the second 0.1 seconds: the first receive finds the tick of the
    first second kept, and the second receive gets the tick of the
    second second as it falls.  In the second, with a rate of 3 in
    brute-force mode, the loop is at the limiter for every tick. *)
Lemma late_receiver_run :
  ∃ tr T,
    trun Sample.env1 (SampleMore.enumRate 1) Streaming 1000000000
      (startTimed ["www.example.com"; "api.example.com"] initState 0 1000000000)
      tr T
    ∧ admissionTimes tr = [1900000000; 2000000000].
Proof.
  eexists [ TAct (LProbe "www.example.com"); TWait 1900000000;
            TAdmit 1900000000 0 "www.example.com";
            TAct (LProbe "api.example.com"); TWait 100000000;
            TAdmit 2000000000 1 "api.example.com" ], _.
  split; [|reflexivity]. timed_steps.
Qed.

Lemma rate3_run :
  ∃ tr T,
    trun Sample.env1 (SampleMore.enumRate 3) (BruteForce "example.com") 333333333
      (startTimed ["a"; "b"; "c"; "d"] initState 0 333333333) tr T
    ∧ admissionTimes tr = [333333333; 666666666; 999999999; 1333333332].
Proof.
  eexists [ TAct (LProbe "a.example.com"); TWait 333333333;
            TAdmit 333333333 0 "a.example.com";
            TAct (LProbe "b.example.com"); TWait 333333333;
            TAdmit 666666666 1 "b.example.com";
            TAct (LProbe "c.example.com"); TWait 333333333;
            TAdmit 999999999 2 "c.example.com";
            TAct (LProbe "d.example.com"); TWait 333333333;
            TAdmit 1333333332 3 "d.example.com" ], _.
  split; [|reflexivity]. timed_steps.
Qed.

(** C9, the counterexample.  With a rate of 1 a streaming loop whose
    first probe takes 1.9 seconds admits two names a tenth of a second
    apart; with a rate of 3 a loop that is always in time admits four
    names within 999999999 nanoseconds: neither run admits at a rate of
    at most [rate] names a second.  And with a rate of 10^9 + 1 the period is 0,
    the limiter is a nil channel and no name is ever admitted. *)
Lemma admissions_faster_than_rate :
  (limiterPeriod (SampleMore.enumRate 1) = Some 1000000000
   ∧ ∃ tr T,
       trun Sample.env1 (SampleMore.enumRate 1) Streaming 1000000000
         (startTimed ["www.example.com"; "api.example.com"] initState 0 1000000000)
         tr T
       ∧ admissionTimes tr = [1900000000; 2000000000]
       ∧ ¬ spacedByRate 1 (admissionTimes tr))
  ∧ (limiterPeriod (SampleMore.enumRate 3) = Some 333333333
     ∧ ∃ tr T,
         trun Sample.env1 (SampleMore.enumRate 3) (BruteForce "example.com") 333333333
           (startTimed ["a"; "b"; "c"; "d"] initState 0 333333333) tr T
         ∧ admissionTimes tr = [333333333; 666666666; 999999999; 1333333332]
         ∧ ¬ spacedByRate 3 (admissionTimes tr))
  ∧ (limiterPeriod (SampleMore.enumRate 1000000001) = Some 0
     ∧ limiterIsNil 0 = true
     ∧ Bruteforce_loop Sample.env1 (SampleMore.enumRate 1000000001) 0
         "example.com" ["www"] initState
       = (Blocked, initState)).
Proof.
  split; [|split]; [| |by repeat split]; (split; [reflexivity|]).
  - destruct late_receiver_run as (tr & T & Hrun & Ht).
    exists tr, T. split; [done|]. split; [done|]. rewrite Ht. intros H.
    specialize (H 1900000000 2000000000 eq_refl eq_refl). cbn in H. lia.
  - destruct rate3_run as (tr & T & Hrun & Ht).
    exists tr, T. split; [done|]. split; [done|]. rewrite Ht. intros H.
    specialize (H 333333333 1333333332 eq_refl eq_refl). cbn in H. lia.
Qed.

Lemma admissions_in_time_witness :
  (1 ≤ RateLimit (Config (SampleMore.enumRate 3)) ≤ 1000000000
   ∧ 333333333 * 3 ≤ 1000000000 < (333333333 + 1) * 3)
  ∧ ∃ tr T,
      trun Sample.env1 (SampleMore.enumRate 3) (BruteForce "example.com") 333333333
        (startTimed ["a"; "b"; "c"; "d"] initState 0 333333333) tr T
      ∧ admissionTimes tr = [333333333; 666666666; 999999999; 1333333332]
      ∧ admitted tr `prefix_of` ["a.example.com"; "b.example.com";
                                 "c.example.com"; "d.example.com"]
      ∧ (Z.of_nat (length (admissionTimes tr)) - 2) * 333333333
        ≤ 1333333332 - 333333333.
Proof.
  destruct (admissions_in_time Sample.env1 (SampleMore.enumRate 3)
              (BruteForce "example.com") ["a"; "b"; "c"; "d"] initState 0 333333333
              eq_refl eq_refl) as (Hrate & Hall & _).
  split; [exact Hrate|].
  destruct rate3_run as (tr & T & Hrun & Ht).
  destruct (Hall tr T Hrun) as (_ & Hnames & _ & _ & _ & Hspan).
  exists tr, T. split; [exact Hrun|]. split; [exact Ht|]. split; [exact Hnames|].
  apply Hspan; by rewrite Ht.
Defined.

(* ===================================================================== *)
(** * The library functions on examples *)
(* ===================================================================== *)

Example TrimSpace_ex1 : TrimSpace "  8.8.8.8 " = "8.8.8.8".
Proof. reflexivity. Qed.

Example TrimSpace_ex2 :
  TrimSpace (bytes [9; 194; 160]%nat +:+ "a b" +:+ bytes [226; 128; 168; 13]%nat)
  = "a b".
Proof. reflexivity. Qed.

Example Split_ex1 : Split "www.example.com" "." = ["www"; "example"; "com"].
Proof. reflexivity. Qed.

Example Split_ex2 : Split "" "," = [""].
Proof. reflexivity. Qed.

Example Split_ex3 : Split "8.8.8.8:53,1.1.1.1:53," "," = ["8.8.8.8:53"; "1.1.1.1:53"; ""].
Proof. reflexivity. Qed.

Example Join_ex1 : Join ["10.0.0.1"; "10.0.0.2"] ", " = "10.0.0.1, 10.0.0.2".
Proof. reflexivity. Qed.

Example JoinHostPort_ex1 : JoinHostPort "8.8.8.8" "53" = "8.8.8.8:53".
Proof. reflexivity. Qed.

Example fmt_int_ex1 : fmt_int 3 = "3".
Proof. reflexivity. Qed.
